(** * rss-bridge-ntfy: the ingestion / dedup / dispatch pipeline of [main.py]

    A shallow embedding of [process_config_file], [send_ntfy], [main] and the
    service loop, with the seen-entry ledger, the storage faults and the
    notification endpoint as an explicit world, and the properties the
    specification states about them; then [clean_html_content] over the
    parser of BeautifulSoup, and further properties of the pipeline.

    Conventions.
    - A Python [str] is represented by its UTF-8 encoding, a [string] of
      bytes; [str.encode()] is then the list of these bytes, [+] on [str] is
      [+:+], and the code-point order used by [sorted] is the byte-wise
      lexicographic order.
    - In [clean_html_content], which slices and counts characters, a [str]
      is the list of its code points, encoded to UTF-8 when it is returned.
    - A Python [dict] with optional keys is a [gmap] or a record of options.
    - Effects are a state-and-exception monad over [World] that also returns
      the events performed, oldest first. *)

From Stdlib Require Import NArith ZArith Lia String Ascii.
From Stdlib Require Import Decimal DecimalString DecimalNat.
From Stdlib Require DecimalPos.
From stdpp Require Import base list strings gmap sorting.

(** ** [hashlib.sha256]: SHA-256 (FIPS 180-4) on byte lists *)

Module Sha256.
Local Open Scope N_scope.

(** 32-bit words are [N] reduced modulo [2^32]; bytes are [N] below 256. *)
Definition word := N.
Definition wrap (x : N) : word := x mod 2 ^ 32.
Definition add32 (x y : word) : word := wrap (x + y).
Definition not32 (x : word) : word := N.lxor x 0xFFFFFFFF.
Definition rotr (n : N) (x : word) : word :=
  N.lor (N.shiftr x n) (wrap (N.shiftl x (32 - n))).

Definition Ch (x y z : word) : word :=
  N.lxor (N.land x y) (N.land (not32 x) z).
Definition Maj (x y z : word) : word :=
  N.lxor (N.lxor (N.land x y) (N.land x z)) (N.land y z).
Definition Sigma0 (x : word) : word :=
  N.lxor (N.lxor (rotr 2 x) (rotr 13 x)) (rotr 22 x).
Definition Sigma1 (x : word) : word :=
  N.lxor (N.lxor (rotr 6 x) (rotr 11 x)) (rotr 25 x).
Definition sigma0 (x : word) : word :=
  N.lxor (N.lxor (rotr 7 x) (rotr 18 x)) (N.shiftr x 3).
Definition sigma1 (x : word) : word :=
  N.lxor (N.lxor (rotr 17 x) (rotr 19 x)) (N.shiftr x 10).

(** The first 64 prime numbers. *)
Definition primes : list N :=
  [ 2; 3; 5; 7; 11; 13; 17; 19; 23; 29; 31; 37; 41; 43; 47; 53;
    59; 61; 67; 71; 73; 79; 83; 89; 97; 101; 103; 107; 109; 113; 127; 131;
    137; 139; 149; 151; 157; 163; 167; 173; 179; 181; 191; 193; 197; 199;
    211; 223; 227; 229; 233; 239; 241; 251; 257; 263; 269; 271; 277; 281;
    283; 293; 307; 311 ].

(** The integer cube root of [x] on [n] bits, from the highest bit down,
    added to [r]. *)
Fixpoint cube_root_bits (n : nat) (x r : N) : N :=
  match n with
  | O => r
  | S n' =>
      let c := r + 2 ^ N.of_nat n' in
      cube_root_bits n' x (if c * c * c <=? x then c else r)
  end.

(** The round constants: the first 32 bits of the fractional parts of the
    cube roots of the first 64 primes. *)
Definition K : list word :=
  map (λ p, wrap (cube_root_bits 36 (p * 2 ^ 96) 0)) primes.

(** The initial hash value: the first 32 bits of the fractional parts of
    the square roots of the first 8 primes. *)
Definition H0 : list word :=
  map (λ p, wrap (N.sqrt (p * 2 ^ 64))) (take 8 primes).

(** The [n] low bytes of [x], most significant first. *)
Definition be_bytes (n : nat) (x : N) : list N :=
  map (λ i, N.shiftr x (8 * N.of_nat i) mod 256) (rev (seq 0 n)).

(** Padding: the byte 0x80, zero bytes up to 56 modulo 64, and the length of
    the message in bits on 8 bytes. *)
Definition pad (msg : list N) : list N :=
  let len := List.length msg in
  let zeros := ((119 - len mod 64) mod 64)%nat in
  msg ++ 0x80 :: repeat 0 zeros ++ be_bytes 8 (8 * N.of_nat len).

Fixpoint be_word (bs : list N) (acc : N) : N :=
  match bs with
  | [] => acc
  | b :: bs' => be_word bs' (acc * 256 + b)
  end.

Fixpoint words_of (n : nat) (bs : list N) : list word :=
  match n with
  | O => []
  | S n' => be_word (take 4 bs) 0 :: words_of n' (drop 4 bs)
  end.

Definition nth_word (w : list word) (i : nat) : word := nth i w 0.

(** Message schedule: [n] more words after the ones in [w]. *)
Fixpoint schedule (n : nat) (w : list word) : list word :=
  match n with
  | O => w
  | S n' =>
      let t := List.length w in
      let x :=
        add32 (add32 (sigma1 (nth_word w (t - 2))) (nth_word w (t - 7)))
              (add32 (sigma0 (nth_word w (t - 15))) (nth_word w (t - 16))) in
      schedule n' (w ++ [x])
  end.

Record regs := Regs {
  ra : word; rb : word; rc : word; rd : word;
  re : word; rf : word; rg : word; rh : word }.

Definition round (s : regs) (kw : word * word) : regs :=
  let t1 :=
    add32 (add32 (add32 (add32 (rh s) (Sigma1 (re s)))
                        (Ch (re s) (rf s) (rg s))) (fst kw)) (snd kw) in
  let t2 := add32 (Sigma0 (ra s)) (Maj (ra s) (rb s) (rc s)) in
  Regs (add32 t1 t2) (ra s) (rb s) (rc s)
       (add32 (rd s) t1) (re s) (rf s) (rg s).

Definition regs_of (h : list word) : regs :=
  Regs (nth_word h 0) (nth_word h 1) (nth_word h 2) (nth_word h 3)
       (nth_word h 4) (nth_word h 5) (nth_word h 6) (nth_word h 7).

Definition list_of (s : regs) : list word :=
  [ra s; rb s; rc s; rd s; re s; rf s; rg s; rh s].

Definition compress (h : list word) (block : list N) : list word :=
  let w := schedule 48 (words_of 16 block) in
  let s := fold_left round (combine K w) (regs_of h) in
  map (λ p, add32 (fst p) (snd p)) (combine h (list_of s)).

Fixpoint blocks (n : nat) (h : list word) (bs : list N) : list word :=
  match n with
  | O => h
  | S n' => blocks n' (compress h (take 64 bs)) (drop 64 bs)
  end.

Definition digest (msg : list N) : list word :=
  let p := pad msg in blocks (List.length p / 64) H0 p.

Definition hex_digit (d : N) : ascii :=
  ascii_of_N (if d <? 10 then 48 + d else 87 + d).

Fixpoint hex_of (n : nat) (x : N) (acc : string) : string :=
  match n with
  | O => acc
  | S n' => hex_of n' (x / 16) (String (hex_digit (x mod 16)) acc)
  end.

(** [hashlib.sha256(msg).hexdigest()] *)
Definition hexdigest (msg : list N) : string :=
  fold_right (λ w s, hex_of 8 w s) EmptyString (digest msg).

(** Two different messages with the same digest. *)
Definition collision (m1 m2 : list N) : Prop :=
  m1 ≠ m2 ∧ hexdigest m1 = hexdigest m2.
End Sha256.

(** ** Python values and built-ins used by the pipeline *)

Module Py.
(** [s.encode()]: the bytes of the UTF-8 representation. *)
Definition encode (s : string) : list N :=
  map N_of_ascii (list_ascii_of_string s).

(** [str(n)] for a non-negative and for an arbitrary [int]. *)
Definition str_of_nat (n : nat) : string :=
  NilEmpty.string_of_uint (Nat.to_uint n).
Definition str_of_Z (z : Z) : string :=
  NilZero.string_of_int (Z.to_int z).

(** Truthiness of a [str]: [if s:] *)
Definition truthy (s : string) : bool := negb (bool_decide (s = "")).

(** [s.endswith(suffix)] *)
Definition endswith (s suffix : string) : bool :=
  let n := String.length s in
  let m := String.length suffix in
  (m <=? n) && bool_decide (substring (n - m) m s = suffix).

(** ASCII white space, as stripped by [int(str)]. *)
Definition is_space (c : ascii) : bool :=
  let n := N_of_ascii c in
  ((9 <=? n) && (n <=? 13) || (n =? 32))%N.

Fixpoint lstrip (cs : list ascii) : list ascii :=
  match cs with
  | c :: cs' => if is_space c then lstrip cs' else cs
  | [] => []
  end.

Definition strip (cs : list ascii) : list ascii :=
  rev (lstrip (rev (lstrip cs))).

Definition digit_of (c : ascii) : option N :=
  let n := N_of_ascii c in
  if ((48 <=? n) && (n <=? 57))%N then Some (n - 48)%N else None.

(** Decimal digits with single underscores between digits. *)
Fixpoint parse_digits (cs : list ascii) (acc : N) (after_digit : bool)
  : option N :=
  match cs with
  | [] => if after_digit then Some acc else None
  | c :: cs' =>
      match digit_of c with
      | Some d => parse_digits cs' (acc * 10 + d)%N true
      | None =>
          if after_digit && Ascii.eqb c "_"
          then parse_digits cs' acc false
          else None
      end
  end.

(** [int(s)] for an ASCII [str]; [None] stands for [ValueError]. *)
Definition int_of_str (s : string) : option Z :=
  match strip (list_ascii_of_string s) with
  | "+"%char :: cs => Z.of_N <$> parse_digits cs 0 false
  | "-"%char :: cs => (λ n, - Z.of_N n)%Z <$> parse_digits cs 0 false
  | cs => Z.of_N <$> parse_digits cs 0 false
  end.

(** [posixpath.join(a, b)] *)
Definition path_join (a b : string) : string :=
  if String.prefix "/" b then b
  else if bool_decide (a = "") || endswith a "/" then a +:+ b
  else a +:+ "/" +:+ b.

Fixpoint after_last_slash (cs cur : list ascii) : list ascii :=
  match cs with
  | [] => cur
  | c :: cs' =>
      if Ascii.eqb c "/" then after_last_slash cs' []
      else after_last_slash cs' (cur ++ [c])
  end.

(** [posixpath.basename(p)] *)
Definition basename (p : string) : string :=
  string_of_list_ascii (after_last_slash (list_ascii_of_string p) []).

(** Index of the last ["."] of [cs]. *)
Fixpoint rfind_dot (cs : list ascii) : option nat :=
  match cs with
  | [] => None
  | c :: cs' =>
      match rfind_dot cs' with
      | Some i => Some (S i)
      | None => if Ascii.eqb c "." then Some 0 else None
      end
  end.

(** [posixpath.splitext(p)[0]] for a [p] without ["/"]: the extension
    starts at the last dot, unless only dots come before it. *)
Definition splitext_root (p : string) : string :=
  let cs := list_ascii_of_string p in
  match rfind_dot cs with
  | Some i =>
      if existsb (λ c, negb (Ascii.eqb c ".")) (take i cs)
      then string_of_list_ascii (take i cs)
      else p
  | None => p
  end.

(** The order of [sorted] on [str]. *)
Definition str_le (s1 s2 : string) : Prop := String.leb s1 s2 = true.

#[export] Instance str_le_dec s1 s2 : Decision (str_le s1 s2).
Proof. unfold str_le. apply _. Defined.

(** [sorted(l)] for a list of [str]. *)
Definition sorted (l : list string) : list string := merge_sort str_le l.
End Py.

(** ** Data model *)

(** A JSON scalar, as [json.load] returns it for the [priority] key.
    Fractional numbers, arrays and objects are outside the model. *)
Inductive JVal :=
| JNull
| JBool (b : bool)
| JInt (z : Z)
| JStr (s : string).

(** The exceptions that the modelled calls raise. *)
Inductive Exn :=
| KeyError (key : string)
| ValueError
| TypeError
| OSError
| OperationalError      (* sqlite3: the storage is unavailable *)
| IntegrityError        (* sqlite3: the primary key exists already *)
| ParseError            (* raised by the feed parser *)
| ContentError          (* raised while the content is summarised *)
| ConnectionError       (* requests: the POST could not be made *)
| HTTPError.            (* requests: [raise_for_status] *)

Inductive Res (A : Type) :=
| Ok (a : A)
| Raise (e : Exn).
Arguments Ok {A} a.
Arguments Raise {A} e.

(** A parsed feed entry: the string-valued keys that the code reads ([id],
    [link], [title], [summary], ...) and [content[i].value]. *)
Record Entry := {
  fields : gmap string string;
  content : list string }.

(** One feed descriptor of a configuration file. *)
Record FeedConf := {
  fc_name : option string;
  fc_url : option string;
  fc_priority : option JVal;
  fc_icon : option string }.

(** The request handed to [session.post]. *)
Record Request := {
  url : string;
  headers : list (string * string);
  data : string }.

(** What happens to one POST: the endpoint accepts it, answers with an error
    status ([raise_for_status] raises), or cannot be reached ([post]
    raises). *)
Inductive PostOutcome := Delivered | Rejected | Unreachable.

Inductive LogRecord :=
| InfoStarted (interval : nat)
| InfoSent (source_name title priority : string)
| ErrDispatch (e : Exn)
| ErrFeed (name : string) (e : Exn)
| ErrConfig (file_path : string)
| ErrNoConfigDir (dir : string)
| ErrMainLoop (e : Exn).

(** The effects of a run that the outside can observe. *)
Inductive Event :=
| EvOpen (file_path : string)
| EvFetch (feed_url : string)
| EvPost (topic : string) (entry : Entry) (req : Request) (out : PostOutcome)
| EvLog (r : LogRecord)
| EvSleep (seconds : nat).

(** The configuration directory as [main] finds it. *)
Inductive DirState :=
| Missing
| NotADirectory
| Listing (names : list string).

(** What a cycle reads but does not change: the process configuration, the
    configuration files, the feeds on the network, and the two helpers that
    the specification treats as collaborators. *)
Record Env := {
  CONFIG_DIR : string;
  BASE_URL : string;
  NTFY_TOKEN : string;
  USER_AGENT : string;
  config_dir : DirState;
  (* [open] and [json.load]; [None] when either raises *)
  load_config : string → option (list FeedConf);
  feedparser_parse : string → Res (list Entry);
  (* [clean_html_content]: the short description and the image *)
  clean_html_content : string → Entry → Res (string * option string);
  format_local_date : Entry → string }.

(** What a cycle changes: the rows of [seen_entries] as the open connection
    sees them, in insertion order; the outcome of the coming storage
    operations ([true]: the operation fails; none left: it succeeds) and of
    the coming POSTs (none left: [Delivered]). A row whose commit failed
    stays visible; that closing the connection would drop it is not
    modelled. *)
Record World := {
  ledger : list string;
  db_faults : list bool;
  net : list PostOutcome }.

Definition DEFAULT_PRIORITY : JVal := JStr "3".

(** ** The monad *)

Record Run (A : Type) := {
  result : Res A;
  world : World;
  events : list Event }.
Arguments result {A} r.
Arguments world {A} r.
Arguments events {A} r.

Definition M (A : Type) : Type := World → Run A.

Definition ret {A} (a : A) : M A :=
  λ w, {| result := Ok a; world := w; events := [] |}.

Definition raise {A} (e : Exn) : M A :=
  λ w, {| result := Raise e; world := w; events := [] |}.

Definition bind {A B} (m : M A) (k : A → M B) : M B :=
  λ w,
    let r := m w in
    match result r with
    | Ok a =>
        let r' := k a (world r) in
        {| result := result r'; world := world r';
           events := events r ++ events r' |}
    | Raise e => {| result := Raise e; world := world r; events := events r |}
    end.

(** [try: m except Exception as e: h e] *)
Definition try_except {A} (m : M A) (h : Exn → M A) : M A :=
  λ w,
    let r := m w in
    match result r with
    | Ok a => r
    | Raise e =>
        let r' := h e (world r) in
        {| result := result r'; world := world r';
           events := events r ++ events r' |}
    end.

Definition lift {A} (r : Res A) : M A :=
  match r with
  | Ok a => ret a
  | Raise e => raise e
  end.

Definition emit (ev : Event) : M unit :=
  λ w, {| result := Ok tt; world := w; events := [ev] |}.

Definition log (r : LogRecord) : M unit := emit (EvLog r).

Declare Scope monad_scope.
Delimit Scope monad_scope with monad.
Notation "x <- m ;; k" := (bind m (λ x, k))
  (at level 100, m at next level, k at level 200, right associativity)
  : monad_scope.
Notation "m ;; k" := (bind m (λ _, k))
  (at level 100, k at level 200, right associativity) : monad_scope.
Local Open Scope monad_scope.

(** [d[key]] on a dictionary whose key may be absent. *)
Definition subscript {A} (v : option A) (key : string) : M A :=
  match v with
  | Some a => ret a
  | None => raise (KeyError key)
  end.

(** ** The seen-entry ledger *)

(** Every statement on the connection consumes one storage outcome. *)
Definition next_fault (w : World) : bool := hd false (db_faults w).

Definition tick (w : World) : World :=
  {| ledger := ledger w; db_faults := tl (db_faults w); net := net w |}.

Definition storage_op : M unit :=
  λ w,
    {| result := if next_fault w then Raise OperationalError else Ok tt;
       world := tick w;
       events := [] |}.

(** The ledger with one more row. *)
Definition add_row (h : string) (w : World) : World :=
  {| ledger := ledger w ++ [h]; db_faults := db_faults w; net := net w |}.

(** [SELECT 1 FROM seen_entries WHERE hash=?] and [fetchone()] *)
Definition select_seen (h : string) : M bool :=
  storage_op ;; λ w, ret (bool_decide (h ∈ ledger w)) w.

(** [INSERT INTO seen_entries (hash) VALUES (?)]; [hash] is the primary key *)
Definition insert_seen (h : string) : M unit :=
  storage_op ;;
  λ w,
    if bool_decide (h ∈ ledger w) then raise IntegrityError w
    else {| result := Ok tt; world := add_row h w; events := [] |}.

Definition conn_commit : M unit := storage_op.

(** [init_db]: connect, [CREATE TABLE IF NOT EXISTS], commit. *)
Definition init_db : M unit := storage_op ;; storage_op ;; storage_op.

(** ** Entry fingerprint and priority delay *)

(** [entry.get(key, dflt)] *)
Definition entry_get (entry : Entry) (key dflt : string) : string :=
  default dflt (fields entry !! key).

(** [entry.get('id', entry.get('link', 'unknown_id'))] *)
Definition entry_id (entry : Entry) : string :=
  entry_get entry "id" (entry_get entry "link" "unknown_id").

(** [f"{topic}_{entry_id}".encode()] *)
Definition hash_input (topic ident : string) : list N :=
  Py.encode (topic +:+ "_" +:+ ident).

(** [hashlib.sha256(f"{topic}_{entry_id}".encode()).hexdigest()] *)
Definition entry_hash (topic : string) (entry : Entry) : string :=
  Sha256.hexdigest (hash_input topic (entry_id entry)).

(** [int(prio)] *)
Definition py_int (v : JVal) : Res Z :=
  match v with
  | JNull => Raise TypeError
  | JBool b => Ok (if b then 1 else 0)%Z
  | JInt z => Ok z
  | JStr s =>
      match Py.int_of_str s with
      | Some z => Ok z
      | None => Raise ValueError
      end
  end.

(** [str(priority)] *)
Definition py_str (v : JVal) : string :=
  match v with
  | JNull => "None"
  | JBool b => if b then "True" else "False"
  | JInt z => Py.str_of_Z z
  | JStr s => s
  end.

(** The delay of lines 186-193 for the tier [p] and the number
    [sent_in_batch] of notifications already sent in the batch. *)
Definition delay_for (p : Z) (sent_in_batch : nat) : option string :=
  if (p <? 5)%Z then
    if (p =? 4)%Z then
      Some (Py.str_of_nat (sent_in_batch * 30 + 10) +:+ "s")
    else if (p =? 3)%Z then
      Some (Py.str_of_nat (sent_in_batch * 5 + 5) +:+ "m")
    else
      Some (Py.str_of_nat (sent_in_batch * 10 + 15) +:+ "m")
  else None.

(** The time a [Delay] header stands for: a decimal number followed by the
    unit [s] or [m]. *)
Fixpoint split_last (s : string) : option (string * ascii) :=
  match s with
  | EmptyString => None
  | String c s' =>
      match split_last s' with
      | None => Some (EmptyString, c)
      | Some (front, u) => Some (String c front, u)
      end
  end.

Definition duration_seconds (s : string) : option nat :=
  match split_last s with
  | Some (String c ds, u) =>
      match NilEmpty.uint_of_string (String c ds) with
      | Some d =>
          if Ascii.eqb u "s" then Some (Nat.of_uint d)
          else if Ascii.eqb u "m" then Some (60 * Nat.of_uint d)
          else None
      | None => None
      end
  | _ => None
  end.

(** Seconds that the endpoint waits before it delivers; no header: none. *)
Definition wait_seconds (delay : option string) : option nat :=
  match delay with
  | None => Some 0
  | Some s => duration_seconds s
  end.

(** ** The notification dispatcher *)

Definition nl : string := String (ascii_of_nat 10) EmptyString.

(** A header that is set only when its value is truthy. *)
Definition optional_header (key : string) (v : option string)
  : list (string * string) :=
  match v with
  | Some s => if Py.truthy s then [(key, s)] else []
  | None => []
  end.

(** [headers.get(key)] *)
Definition header (key : string) (req : Request) : option string :=
  snd <$> List.find (λ kv, bool_decide (fst kv = key)) (headers req).

(** The network after one POST. *)
Definition posted (w : World) : World :=
  {| ledger := ledger w; db_faults := db_faults w; net := tl (net w) |}.

(** [session.post(...)]: one outbound call, whose outcome the network
    decides. *)
Definition session_post (topic : string) (entry : Entry) (req : Request)
  : M PostOutcome :=
  λ w,
    let out := hd Delivered (net w) in
    {| result :=
         match out with
         | Unreachable => Raise ConnectionError
         | _ => Ok out
         end;
       world := posted w;
       events := [EvPost topic entry req out] |}.

(** [entry.get("summary", "")], replaced by [entry.content[0].value] when
    [entry.get("content")] is truthy. *)
Definition content_of (entry : Entry) : string :=
  match content entry with
  | v :: _ => v
  | [] => entry_get entry "summary" ""
  end.

(** [r.raise_for_status()] *)
Definition raise_for_status (r : PostOutcome) : M unit :=
  match r with
  | Rejected => raise HTTPError
  | _ => ret tt
  end.

Section Pipeline.
Variable env : Env.

(** The [headers] dictionary of [send_ntfy], in insertion order. *)
Definition ntfy_headers (title link priority local_date_str : string)
    (delay_str custom_icon image_url : option string)
  : list (string * string) :=
  [ ("Authorization", "Bearer " +:+ NTFY_TOKEN env);
    ("User-Agent", USER_AGENT env);
    ("Title", title);
    ("Click", link);
    ("Markdown", "yes");
    ("Tags", "newspaper");
    ("Priority", priority);
    ("X-Publish-Date", local_date_str) ]
  ++ optional_header "Delay" delay_str
  ++ optional_header "Icon" custom_icon
  ++ optional_header "Attach" image_url.

(** The request that [send_ntfy] builds from its arguments and from the
    short description and image that [clean_html_content] returned. *)
Definition ntfy_request (entry : Entry) (source_name : string)
    (custom_icon : option string) (topic : string) (priority : JVal)
    (delay_str : option string) (cleaned : string * option string)
  : Request :=
  let title := entry_get entry "title" "No Title" in
  let link := entry_get entry "link" "#" in
  let short_desc := fst cleaned in
  let image_url := snd cleaned in
  let local_date_str := format_local_date env entry in
  let headers :=
    ntfy_headers title link (py_str priority) local_date_str
      delay_str custom_icon image_url in
  let message :=
    "**Source:** " +:+ source_name +:+ nl +:+ "**Local Time:** "
    +:+ local_date_str +:+ nl +:+ nl +:+ short_desc +:+ nl +:+ nl
    +:+ "[Read on Website](" +:+ link +:+ ")" in
  {| url := BASE_URL env +:+ "/" +:+ topic;
     headers := headers; data := message |}.

Definition send_ntfy (entry : Entry) (source_name : string)
    (custom_icon : option string) (topic : string) (priority : JVal)
    (delay_str : option string) : M unit :=
  let title := entry_get entry "title" "No Title" in
  cleaned <- lift (clean_html_content env (content_of entry) entry) ;;
  try_except
    (r <- session_post topic entry
            (ntfy_request entry source_name custom_icon topic priority
               delay_str cleaned) ;;
     raise_for_status r ;;
     log (InfoSent source_name title (py_str priority)))
    (λ e, log (ErrDispatch e)).

(** ** The feed source processor *)

(** The body of the loop over the entries after the cap test (lines
    178-199); the value is the new [sent_in_batch]. *)
Definition process_entry (topic : string) (f_conf : FeedConf) (prio : JVal)
    (sent_in_batch : nat) (entry : Entry) : M nat :=
  seen <- select_seen (entry_hash topic entry) ;;
  if seen : bool then ret sent_in_batch
  else
    p <- lift (py_int prio) ;;
    let delay := delay_for p sent_in_batch in
    name <- subscript (fc_name f_conf) "name" ;;
    send_ntfy entry name (fc_icon f_conf) topic prio delay ;;
    insert_seen (entry_hash topic entry) ;;
    conn_commit ;;
    ret (sent_in_batch + 1).

(** [for entry in feed.entries] with its [break] (lines 173-199). *)
Fixpoint entries_loop (topic : string) (f_conf : FeedConf) (prio : JVal)
    (entries : list Entry) (sent_in_batch : nat) : M nat :=
  match entries with
  | [] => ret sent_in_batch
  | entry :: rest =>
      if 3 <=? sent_in_batch then ret sent_in_batch
      else
        sent <- process_entry topic f_conf prio sent_in_batch entry ;;
        entries_loop topic f_conf prio rest sent
  end.

(** The body of the [try] for one feed (lines 169-199). *)
Definition process_feed (topic : string) (f_conf : FeedConf) : M unit :=
  feed_url <- subscript (fc_url f_conf) "url" ;;
  emit (EvFetch feed_url) ;;
  entries <- lift (feedparser_parse env feed_url) ;;
  let prio := default DEFAULT_PRIORITY (fc_priority f_conf) in
  entries_loop topic f_conf prio entries 0 ;;
  ret tt.

(** [for f_conf in feeds] with the [try] / [except Exception] around each
    feed (lines 167-201). *)
Fixpoint feeds_loop (topic : string) (feeds : list FeedConf) : M unit :=
  match feeds with
  | [] => ret tt
  | f_conf :: rest =>
      try_except (process_feed topic f_conf)
        (λ e, log (ErrFeed (default "Unknown" (fc_name f_conf)) e)) ;;
      feeds_loop topic rest
  end.

(** [process_config_file]; the file holds a list of feed descriptors, or it
    cannot be loaded. *)
Definition process_config_file (file_path : string) : M unit :=
  let topic := Py.splitext_root (Py.basename file_path) in
  emit (EvOpen file_path) ;;
  match load_config env file_path with
  | None => log (ErrConfig file_path)
  | Some feeds => feeds_loop topic feeds
  end.

(** ** The run orchestrator *)

(** [sorted([f for f in os.listdir(CONFIG_DIR) if f.endswith('.json')])] *)
Definition config_files (names : list string) : list string :=
  Py.sorted (List.filter (λ f, Py.endswith f ".json") names).

Fixpoint files_loop (filenames : list string) : M unit :=
  match filenames with
  | [] => ret tt
  | filename :: rest =>
      process_config_file (Py.path_join (CONFIG_DIR env) filename) ;;
      files_loop rest
  end.

(** [main]; the [db_conn.close()] at its end has no effect on the world. *)
Definition main : M unit :=
  match config_dir env with
  | Missing => log (ErrNoConfigDir (CONFIG_DIR env))
  | NotADirectory => init_db ;; raise OSError
  | Listing names => init_db ;; files_loop (config_files names)
  end.

(** One turn of [while True]: [main] under its [try], then the sleep. *)
Definition cycle (sync_interval : nat) : M unit :=
  try_except main (λ e, log (ErrMainLoop e)) ;;
  emit (EvSleep sync_interval).
End Pipeline.

(** The first turns of the service loop, one environment per turn: the feeds
    and the configuration files may change between two cycles. *)
Fixpoint cycles (sync_interval : nat) (envs : list Env) : M unit :=
  match envs with
  | [] => ret tt
  | env :: rest => cycle env sync_interval ;; cycles sync_interval rest
  end.

(** The [__main__] block, after [SYNC_INTERVAL] was read. *)
Definition service (sync_interval : nat) (envs : list Env) : M unit :=
  log (InfoStarted sync_interval) ;; cycles sync_interval envs.

(** ** Observations on a run *)

(** The dispatch attempts among the events: topic, entry and request. *)
Definition dispatch_of (ev : Event) : option (string * Entry * Request) :=
  match ev with
  | EvPost topic entry req _ => Some (topic, entry, req)
  | _ => None
  end.

Definition dispatches (evs : list Event) : list (string * Entry * Request) :=
  omap dispatch_of evs.

Definition fetch_of (ev : Event) : option string :=
  match ev with
  | EvFetch u => Some u
  | _ => None
  end.

Definition fetches (evs : list Event) : list string := omap fetch_of evs.

Definition open_of (ev : Event) : option string :=
  match ev with
  | EvOpen p => Some p
  | _ => None
  end.

Definition opened (evs : list Event) : list string := omap open_of evs.

Definition sleep_of (ev : Event) : option nat :=
  match ev with
  | EvSleep n => Some n
  | _ => None
  end.

Definition sleeps (evs : list Event) : list nat := omap sleep_of evs.

(** ** Definitions for the statements and the proofs *)

(** *** Delays *)

(** The seconds of delay for each tier, in closed form. *)
Definition tier_wait (p : Z) (n : nat) : nat :=
  if (p <? 5)%Z then
    if (p =? 4)%Z then n * 30 + 10
    else if (p =? 3)%Z then 60 * (n * 5 + 5)
    else 60 * (n * 10 + 15)
  else 0.

(** *** Storage faults and runs in closed form *)

Arguments entry_hash : simpl never.
Arguments delay_for : simpl never.
Arguments py_int : simpl never.
Arguments py_str : simpl never.
Arguments ntfy_headers : simpl never.
Arguments ntfy_request : simpl never.

(** The outcome of the [i]-th coming storage operation. *)
Definition fault_at (w : World) (i : nat) : bool := nth i (db_faults w) false.

Definition no_faults (w : World) : Prop :=
  Forall (λ b, b = false) (db_faults w).

(** The line that [send_ntfy] logs after a POST with outcome [out]. *)
Definition dispatch_log (out : PostOutcome) (source_name title prio : string)
  : LogRecord :=
  match out with
  | Delivered => InfoSent source_name title prio
  | Rejected => ErrDispatch HTTPError
  | Unreachable => ErrDispatch ConnectionError
  end.

(** The events of one dispatch attempt. *)
Definition dispatch_events (env : Env) (entry : Entry) (name : string)
    (icon : option string) (topic : string) (prio : JVal)
    (delay : option string) (cleaned : string * option string)
    (out : PostOutcome) : list Event :=
  [ EvPost topic entry
      (ntfy_request env entry name icon topic prio delay cleaned) out;
    EvLog (dispatch_log out name (entry_get entry "title" "No Title")
             (py_str prio)) ].

(** The run of [process_entry], case by case: the lookup fails; the entry is
    in the ledger; the priority, the name or the content raises before the
    request; the request is made, and the insert or the commit fails or
    both succeed. *)
Definition entry_run (env : Env) (topic : string) (f_conf : FeedConf)
    (prio : JVal) (k : nat) (e : Entry) (w : World) : Run nat :=
  let h := entry_hash topic e in
  let stop x := {| result := Raise x; world := tick w; events := [] |} in
  if fault_at w 0 then stop OperationalError
  else if bool_decide (h ∈ ledger w) then
    {| result := Ok k; world := tick w; events := [] |}
  else
    match py_int prio with
    | Raise x => stop x
    | Ok p =>
        match fc_name f_conf with
        | None => stop (KeyError "name")
        | Some name =>
            match clean_html_content env (content_of e) e with
            | Raise x => stop x
            | Ok cleaned =>
                let evs :=
                  dispatch_events env e name (fc_icon f_conf) topic prio
                    (delay_for p k) cleaned (hd Delivered (net w)) in
                let w1 := tick (posted (tick w)) in
                if fault_at w 1 then
                  {| result := Raise OperationalError; world := w1;
                     events := evs |}
                else
                  {| result := if fault_at w 2 then Raise OperationalError
                               else Ok (k + 1);
                     world := tick (add_row h w1); events := evs |}
            end
        end
    end.

(** *** Invariants of the loops *)

(** The fingerprint of a dispatch attempt. *)
Definition dispatch_hash (d : string * Entry * Request) : string :=
  entry_hash d.1.1 d.1.2.

(** What one turn of the loop does, for the counter [k] and the world [w]
    before it: at most one dispatch, of an entry that the ledger lacks; at
    most one new row, the fingerprint of that dispatch; and a counter that
    counts the dispatch. *)
Record step_inv (topic : string) (k : nat) (e : Entry) (w : World)
    (r : Run nat) : Prop := {
  step_dispatch :
    dispatches (events r) = []
    ∨ (entry_hash topic e ∉ ledger w)
      ∧ ∃ req, dispatches (events r) = [(topic, e, req)];
  step_ledger :
    ledger (world r) = ledger w
    ∨ (entry_hash topic e ∉ ledger w)
      ∧ dispatches (events r) ≠ []
      ∧ ledger (world r) = ledger w ++ [entry_hash topic e];
  step_counter :
    ∀ k', result r = Ok k' →
      k' = k + length (dispatches (events r))
      ∧ (dispatches (events r) ≠ [] →
         ledger (world r) = ledger w ++ [entry_hash topic e]) }.

(** What the loop does from the counter [k] and the world [w]. *)
Record batch_inv (topic : string) (k : nat) (w : World) (r : Run nat)
  : Prop := {
  batch_cap : k + length (dispatches (events r)) ≤ max k 3;
  batch_counter :
    ∀ k', result r = Ok k' → k' = k + length (dispatches (events r));
  batch_unseen :
    Forall (λ d, d.1.1 = topic ∧ dispatch_hash d ∉ ledger w)
      (dispatches (events r));
  batch_rows :
    ∃ rows,
      ledger (world r) = ledger w ++ rows
      ∧ Forall (λ h, h ∉ ledger w) rows
      ∧ NoDup rows
      ∧ rows `prefix_of` (dispatch_hash <$> dispatches (events r))
      ∧ (∀ k', result r = Ok k' →
           rows = dispatch_hash <$> dispatches (events r)) }.

(** The run of [process_feed] in terms of the run of its loop. *)
Definition feed_run (env : Env) (topic : string) (f_conf : FeedConf)
    (w : World) : Run unit :=
  match fc_url f_conf with
  | None => {| result := Raise (KeyError "url"); world := w; events := [] |}
  | Some u =>
      match feedparser_parse env u with
      | Raise x =>
          {| result := Raise x; world := w; events := [EvFetch u] |}
      | Ok es =>
          let prio := default DEFAULT_PRIORITY (fc_priority f_conf) in
          let r := entries_loop env topic f_conf prio es 0 w in
          {| result := match result r with
                       | Ok _ => Ok tt
                       | Raise x => Raise x
                       end;
             world := world r;
             events := EvFetch u :: events r |}
      end
  end.

(** What the processing of one feed does to the world [w]. *)
Record feed_inv (topic : string) (w : World) (r : Run unit) : Prop := {
  feed_cap : length (dispatches (events r)) ≤ 3;
  feed_unseen :
    Forall (λ d, d.1.1 = topic ∧ dispatch_hash d ∉ ledger w)
      (dispatches (events r));
  feed_rows :
    ∃ rows,
      ledger (world r) = ledger w ++ rows
      ∧ Forall (λ h, h ∉ ledger w) rows
      ∧ NoDup rows
      ∧ rows `prefix_of` (dispatch_hash <$> dispatches (events r)) }.

(** *** Concrete inputs *)

Module Scenario.
Definition entry_of_id (i : string) : Entry :=
  {| fields := {[ "id" := i ]}; content := [] |}.

Definition entry_of_link (l : string) : Entry :=
  {| fields := {[ "link" := l ]}; content := [] |}.

(** A feed of tier 3 with five entries that have their own ids. *)
Definition feed_a : FeedConf :=
  {| fc_name := Some "A"; fc_url := Some "https://a.example/rss";
     fc_priority := Some (JInt 3); fc_icon := None |}.

(** A feed without a priority, whose five entries have no id and all link
    to the front page of the site. *)
Definition feed_b : FeedConf :=
  {| fc_name := Some "B"; fc_url := Some "https://b.example/rss";
     fc_priority := None; fc_icon := None |}.

Definition entries_a : list Entry :=
  entry_of_id <$> ["a1"; "a2"; "a3"; "a4"; "a5"].

Definition entries_b : list Entry :=
  replicate 5 (entry_of_link "https://b.example/").

Definition env0 : Env :=
  {| CONFIG_DIR := "configs"; BASE_URL := "https://ntfy.sh";
     NTFY_TOKEN := "tk"; USER_AGENT := "Mozilla/5.0";
     config_dir := Listing ["notes.txt"; "news.json"; "alerts.json"];
     load_config := λ p,
       if bool_decide (p = "configs/news.json") then Some [feed_a; feed_b]
       else if bool_decide (p = "configs/alerts.json") then Some [feed_b]
       else None;
     feedparser_parse := λ u,
       if bool_decide (u = "https://a.example/rss") then Ok entries_a
       else if bool_decide (u = "https://b.example/rss") then Ok entries_b
       else Raise ParseError;
     clean_html_content := λ c _, Ok (c, None);
     format_local_date := λ e,
       entry_get e "published" (entry_get e "updated" "Unknown date") |}.

(** An empty ledger, a storage and an endpoint that work. *)
Definition w0 : World := {| ledger := []; db_faults := []; net := [] |}.

(** The first entry of [feed_a] was notified before. *)
Definition w_seen : World :=
  {| ledger := [entry_hash "news" (entry_of_id "a1")];
     db_faults := []; net := [] |}.

(** The storage fails at the fourth operation of the cycle: the lookup of
    the first entry of the first feed. *)
Definition w_fault : World :=
  {| ledger := []; db_faults := [false; false; false; true]; net := [] |}.

(** The endpoint rejects the first request and is unreachable for the
    second. *)
Definition w_down : World :=
  {| ledger := []; db_faults := []; net := [Rejected; Unreachable] |}.
End Scenario.

(** *** Runs without faults *)

(** [clean_html_content] returns on the content of the entry. *)
Definition clean_ok (env : Env) (e : Entry) : Prop :=
  ∃ c, clean_html_content env (content_of e) e = Ok c.

(** The delay header of a dispatch attempt. *)
Definition dispatch_delay (d : string * Entry * Request) : option string :=
  header "Delay" d.2.

(** The world after an entry was dispatched and recorded. *)
Definition recorded (h : string) (w : World) : World :=
  tick (add_row h (tick (posted (tick w)))).

(** *** The scenario of tier 3 *)

(** The situation of the scenario: the feed of [f_conf] is fetched and has
    the five entries [es], none of them in the ledger, and its tier is 3. *)
Definition five_unseen_tier3 (env : Env) (topic : string) (f_conf : FeedConf)
    (w : World) (es : list Entry) : Prop :=
  (∃ u, fc_url f_conf = Some u ∧ feedparser_parse env u = Ok es)
  ∧ length es = 5
  ∧ py_int (default DEFAULT_PRIORITY (fc_priority f_conf)) = Ok 3%Z
  ∧ Forall (λ e, entry_hash topic e ∉ ledger w) es.

(** The outcome of the scenario: three dispatch attempts, of the first three
    entries, with the delays 5m, 10m and 15m in this order; three new rows,
    their fingerprints; the fingerprints of the other two entries not in the
    ledger. *)
Definition tier3_outcome (topic : string) (es : list Entry) (w : World)
    (r : Run unit) : Prop :=
  (dispatch_delay <$> dispatches (events r))
  = [Some "5m"; Some "10m"; Some "15m"]
  ∧ (fst <$> dispatches (events r)) = ((λ e, (topic, e)) <$> take 3 es)
  ∧ ledger (world r) = ledger w ++ (entry_hash topic <$> take 3 es)
  ∧ Forall (λ e, entry_hash topic e ∉ ledger (world r)) (drop 3 es).

(** *** The fingerprint of the specification *)

(** The identity of an entry in the words of the specification: its id when
    it has one, else its link when it has one, else ["unknown_id"]. *)
Definition identity_spec (id link : option string) : string :=
  match id with
  | Some i => i
  | None =>
      match link with
      | Some l => l
      | None => "unknown_id"
      end
  end.

(** The fingerprint in the words of the specification: the SHA-256 digest,
    in hexadecimal, of the UTF-8 bytes of the topic, an underscore and the
    identity. *)
Definition fingerprint_spec (topic identity : string) : string :=
  Sha256.hexdigest (Py.encode (topic +:+ "_" +:+ identity)).

(** *** Runs up to the answers of the endpoint *)

(** Two worlds with the same ledger and the same storage; their endpoints
    may answer differently. *)
Definition same_storage (w1 w2 : World) : Prop :=
  ledger w1 = ledger w2 ∧ db_faults w1 = db_faults w2.

(** An event without what depends on the answer of the endpoint: a POST
    keeps its request, the two log lines of the dispatcher are dropped. *)
Definition blind (ev : Event) : option Event :=
  match ev with
  | EvPost topic entry req _ => Some (EvPost topic entry req Delivered)
  | EvLog (InfoSent _ _ _) => None
  | EvLog (ErrDispatch _) => None
  | _ => Some ev
  end.

(** Two runs with the same result, the same ledger and storage at the end,
    and the same events up to the answers of the endpoint. *)
Definition same_run {A} (r1 r2 : Run A) : Prop :=
  result r1 = result r2
  ∧ same_storage (world r1) (world r2)
  ∧ omap blind (events r1) = omap blind (events r2).

(** A computation that runs the same way whatever the endpoint answers. *)
Definition endpoint_blind {A} (m : M A) : Prop :=
  ∀ w1 w2, same_storage w1 w2 → same_run (m w1) (m w2).

(** *** Kinds of events *)

(** Every event of the computation satisfies [P]. *)
Definition emits {A} (P : Event → Prop) (m : M A) : Prop :=
  ∀ w, Forall P (events (m w)).

(** The events of the loop over the entries: requests and log lines. *)
Definition dispatcher_event (ev : Event) : Prop :=
  match ev with
  | EvPost _ _ _ _ | EvLog _ => True
  | _ => False
  end.

(** The events of the feeds of one file: no file is opened, no sleep. *)
Definition source_event (ev : Event) : Prop :=
  match ev with
  | EvOpen _ | EvSleep _ => False
  | _ => True
  end.

(** A computation that returns, whatever happens inside it. *)
Definition never_raises (m : M unit) : Prop := ∀ w, result (m w) = Ok tt.

(** The events of [main]: everything but the sleep. *)
Definition main_event (ev : Event) : Prop := sleep_of ev = None.

(** *** Storage failures and the cycle *)

(** C8 as stated, for one cycle: after the log line of a feed that failed
    with a storage error, no further feed is fetched. *)
Definition ledger_failure_aborts_cycle (env : Env) (n : nat) (w : World)
  : Prop :=
  ∀ pre name post,
    events (cycle env n w)
    = pre ++ EvLog (ErrFeed name OperationalError) :: post →
    fetches post = [].

(** *** The configuration directory *)

(** The environment [env] with another configuration directory. *)
Definition with_directory (env : Env) (names : list string)
    (lc : string → option (list FeedConf)) : Env :=
  {| CONFIG_DIR := CONFIG_DIR env; BASE_URL := BASE_URL env;
     NTFY_TOKEN := NTFY_TOKEN env; USER_AGENT := USER_AGENT env;
     config_dir := Listing names; load_config := lc;
     feedparser_parse := feedparser_parse env;
     clean_html_content := clean_html_content env;
     format_local_date := format_local_date env |}.

(** *** The ledger over a run *)

(** The ledger of [w'] continues the ledger of [w]: the rows of [w] are all
    there, in their places, and no fingerprint is twice in [w'] unless one
    was twice in [w]. *)
Definition ledger_extends (w w' : World) : Prop :=
  ledger w `prefix_of` ledger w' ∧ (NoDup (ledger w) → NoDup (ledger w')).

(** A computation under which the ledger only grows. *)
Definition append_only {A} (m : M A) : Prop :=
  ∀ w, ledger_extends w (world (m w)).

(** *** The dispatch attempts of one feed *)

(** The entry of a dispatch attempt. *)
Definition dispatch_entry (d : string * Entry * Request) : Entry := d.1.2.

(** [d] is the attempt that the loop body makes when the counter is [k]: the
    priority is an integer, the feed has a name, the content of the entry
    was summarised, and the request is the one of [send_ntfy] with the delay
    of the tier at [k]. *)
Definition dispatch_at (env : Env) (topic : string) (f_conf : FeedConf)
    (prio : JVal) (k : nat) (d : string * Entry * Request) : Prop :=
  ∃ p name c,
    py_int prio = Ok p
    ∧ fc_name f_conf = Some name
    ∧ clean_html_content env (content_of (dispatch_entry d))
        (dispatch_entry d) = Ok c
    ∧ d = (topic, dispatch_entry d,
           ntfy_request env (dispatch_entry d) name (fc_icon f_conf) topic
             prio (delay_for p k) c).

(** *** Feeds that cannot notify *)


(** *** The feeds of a cycle *)

(** The files that [main] processes. *)
Definition cycle_files (env : Env) : list string :=
  match config_dir env with
  | Listing names => config_files names
  | _ => []
  end.

(** The feed descriptors of the files that can be loaded, file by file. *)
Definition cycle_feeds (env : Env) : list FeedConf :=
  cycle_files env
    ≫= λ f, default [] (load_config env (Py.path_join (CONFIG_DIR env) f)).

(** *** A backlog of new entries *)

(** The feed of [f_conf] is fetched and has the entries [es]; the first [m]
    of them are in the ledger, the others are new and have pairwise
    different fingerprints; the tier is an integer, the feed has a name, the
    content of each entry can be summarised, and no coming storage operation
    fails. *)
Record backlog (env : Env) (topic : string) (f_conf : FeedConf)
    (es : list Entry) (m : nat) (w : World) : Prop := {
  backlog_feed :
    ∃ u, fc_url f_conf = Some u ∧ feedparser_parse env u = Ok es;
  backlog_tier :
    ∃ p, py_int (default DEFAULT_PRIORITY (fc_priority f_conf)) = Ok p;
  backlog_name : ∃ name, fc_name f_conf = Some name;
  backlog_clean : Forall (clean_ok env) es;
  backlog_storage : no_faults w;
  backlog_seen : Forall (λ e, entry_hash topic e ∈ ledger w) (take m es);
  backlog_new : Forall (λ e, entry_hash topic e ∉ ledger w) (drop m es);
  backlog_distinct : NoDup (entry_hash topic <$> drop m es) }.

(** *** Priorities written as text *)

(** The feed descriptor [f_conf] with the value [v] under [priority], or
    without the key. *)
Definition with_priority (f_conf : FeedConf) (v : option JVal) : FeedConf :=
  {| fc_name := fc_name f_conf; fc_url := fc_url f_conf;
     fc_priority := v; fc_icon := fc_icon f_conf |}.

(** The number that the decimal digits [d] make when they follow the digits
    of [acc]. *)
Fixpoint uint_value (d : uint) (acc : N) : N :=
  match d with
  | Nil => acc
  | D0 d => uint_value d (acc * 10 + 0)
  | D1 d => uint_value d (acc * 10 + 1)
  | D2 d => uint_value d (acc * 10 + 2)
  | D3 d => uint_value d (acc * 10 + 3)
  | D4 d => uint_value d (acc * 10 + 4)
  | D5 d => uint_value d (acc * 10 + 5)
  | D6 d => uint_value d (acc * 10 + 6)
  | D7 d => uint_value d (acc * 10 + 7)
  | D8 d => uint_value d (acc * 10 + 8)
  | D9 d => uint_value d (acc * 10 + 9)
  end%N.

(** *** Topics and requests *)

(** The characters of a [str]. *)
Definition chars (s : string) : list ascii := list_ascii_of_string s.

(** The topic that [process_config_file] derives from the path of the file
    [filename] of the directory [dir]. *)
Definition topic_of (dir filename : string) : string :=
  Py.splitext_root (Py.basename (Py.path_join dir filename)).

(** A dispatch attempt for [topic]: it is posted to the URL of the topic at
    the configured server, with the configured token. *)
Definition routed (env : Env) (topic : string)
    (d : string * Entry * Request) : Prop :=
  d.1.1 = topic
  ∧ url d.2 = BASE_URL env +:+ "/" +:+ topic
  ∧ header "Authorization" d.2 = Some ("Bearer " +:+ NTFY_TOKEN env).

(** *** The form of a fingerprint *)

(** A lower-case hexadecimal digit. *)
Definition is_hex (c : ascii) : bool :=
  let n := N_of_ascii c in
  ((48 <=? n) && (n <=? 57) || (97 <=? n) && (n <=? 102))%N.

(** *** A feed that is blocked by one of its entries *)

(** The feed of [f_conf] is fetched and has the entries [es]; the first [m]
    of them are in the ledger; the next one is new, and the summary of its
    content raises; the tier is an integer, the feed has a name, and no
    coming storage operation fails. *)
Record blocked (env : Env) (topic : string) (f_conf : FeedConf)
    (es : list Entry) (m : nat) (w : World) : Prop := {
  blocked_feed :
    ∃ u, fc_url f_conf = Some u ∧ feedparser_parse env u = Ok es;
  blocked_tier :
    ∃ p, py_int (default DEFAULT_PRIORITY (fc_priority f_conf)) = Ok p;
  blocked_name : ∃ name, fc_name f_conf = Some name;
  blocked_storage : no_faults w;
  blocked_seen : Forall (λ e, entry_hash topic e ∈ ledger w) (take m es);
  blocked_entry :
    ∃ e x,
      es !! m = Some e
      ∧ (entry_hash topic e ∉ ledger w)
      ∧ clean_html_content env (content_of e) e = Raise x }.

(** *** The headers of a request *)

(** The value under which an optional header is set: a text that is not
    empty. *)
Definition truthy_value (v : option string) : option string :=
  v ≫= λ s, if Py.truthy s then Some s else None.

(** The headers of the request [d] present the entry of [d] for the feed
    [f_conf] with the priority [prio]. *)
Definition presents (env : Env) (f_conf : FeedConf) (prio : JVal)
    (d : string * Entry * Request) : Prop :=
  header "Title" d.2 = Some (entry_get (dispatch_entry d) "title" "No Title")
  ∧ header "Click" d.2 = Some (entry_get (dispatch_entry d) "link" "#")
  ∧ header "Priority" d.2 = Some (py_str prio)
  ∧ header "X-Publish-Date" d.2
    = Some (format_local_date env (dispatch_entry d))
  ∧ header "Icon" d.2 = truthy_value (fc_icon f_conf)
  ∧ ∃ c, clean_html_content env (content_of (dispatch_entry d))
           (dispatch_entry d) = Ok c
         ∧ header "Attach" d.2 = truthy_value c.2.

(** ** The summary of the content: [clean_html_content] *)

Module Content.
(** A [str] by its code points; the code points are Unicode scalar values,
    so that [encode] does not raise. *)
Definition text : Type := list N.

(** The white space of [str.strip] and of the class [\s] of [re]. *)
Definition is_space (c : N) : bool :=
  ((9 <=? c) && (c <=? 13) || (28 <=? c) && (c <=? 32)
   || (c =? 133) || (c =? 160) || (c =? 5760)
   || (8192 <=? c) && (c <=? 8202)
   || (c =? 8232) || (c =? 8233) || (c =? 8239) || (c =? 8287)
   || (c =? 12288))%N.

(** [re.sub(r'\s+', ' ', text)]: every maximal run of white space becomes
    one space; [in_run] tells that the character before was white space. *)
Fixpoint collapse (cs : text) (in_run : bool) : text :=
  match cs with
  | [] => []
  | c :: cs' =>
      if is_space c then
        if in_run then collapse cs' true else 32%N :: collapse cs' true
      else c :: collapse cs' false
  end.

Fixpoint lstrip (cs : text) : text :=
  match cs with
  | c :: cs' => if is_space c then lstrip cs' else cs
  | [] => []
  end.

Fixpoint rstrip (cs : text) : text :=
  match cs with
  | [] => []
  | c :: cs' =>
      match rstrip cs' with
      | [] => if is_space c then [] else [c]
      | r => c :: r
      end
  end.

(** [text.strip()] *)
Definition strip (cs : text) : text := rstrip (lstrip cs).

(** [re.sub(r'\s+', ' ', text).strip()] *)
Definition normalise (cs : text) : text := strip (collapse cs false).

(** [(text[:250] + '...') if len(text) > 250 else text] *)
Definition shorten (cs : text) : text :=
  if 250 <? length cs then take 250 cs ++ [46; 46; 46]%N else cs.

(** The UTF-8 bytes of one code point. *)
Definition utf8_char (c : N) : list N :=
  (if c <? 128 then [c]
   else if c <? 2048 then [192 + c / 64; 128 + c mod 64]
   else if c <? 65536 then
     [224 + c / 4096; 128 + (c / 64) mod 64; 128 + c mod 64]
   else
     [240 + c / 262144; 128 + (c / 4096) mod 64; 128 + (c / 64) mod 64;
      128 + c mod 64])%N.

(** The [str] of the pipeline for a text: its UTF-8 bytes. *)
Definition utf8 (cs : text) : string :=
  string_of_list_ascii (ascii_of_N <$> (cs ≫= utf8_char)).

(** [len(s)] on the UTF-8 bytes of [s]: the bytes that do not continue a
    character. *)
Definition py_len (s : string) : nat :=
  length (List.filter (λ b, negb ((128 <=? b) && (b <? 192))%N)
            (Py.encode s)).

(** What [BeautifulSoup(html_content, "html.parser")] gives: the text of
    [get_text(separator=" ")] and the attributes of the tag that
    [find("img")] returns, when there is one. *)
Record Soup := {
  get_text : text;
  find_img : option (gmap string string) }.

(** The keys [media_content] and [enclosures] of a parsed entry, each a
    list of dictionaries when the entry has the key. *)
Record Media := {
  media_content : option (list (gmap string string));
  enclosures : option (list (gmap string string)) }.

(** The HTML parser and the media keys of the entries. *)
Record Lib := {
  BeautifulSoup : string → Soup;
  media : Entry → Media }.

(** The image of lines 102-110: the first [media_content], else the first
    enclosure, else the first [img] tag. *)
Definition img_url (m : Media) (soup : Soup) : Res (option string) :=
  match media_content m with
  | Some (d :: _) =>
      match d !! "url" with
      | Some u => Ok (Some u)
      | None => Raise (KeyError "url")
      end
  | _ =>
      match enclosures m with
      | Some (d :: _) =>
          match d !! "href" with
          | Some u => Ok (Some u)
          | None => Raise (KeyError "href")
          end
      | _ =>
          match find_img soup with
          | Some attrs => Ok (attrs !! "src")
          | None => Ok None
          end
      end
  end.

Definition clean_html_content (lib : Lib) (html_content : string)
    (entry : Entry) : Res (string * option string) :=
  if negb (Py.truthy html_content) then Ok (EmptyString, None)
  else
    let soup := BeautifulSoup lib html_content in
    match img_url (media lib entry) soup with
    | Raise x => Raise x
    | Ok image =>
        let text := normalise (get_text soup) in
        Ok (utf8 (shorten text), image)
    end.

(** A text in the form that [normalise] gives: its only white space is the
    space, it does not start or end with one, and no two spaces are
    adjacent. *)
Definition normal (cs : text) : Prop :=
  Forall (λ c, is_space c = true → c = 32%N) cs
  ∧ head cs ≠ Some 32%N
  ∧ last cs ≠ Some 32%N
  ∧ ∀ i, cs !! i = Some 32%N → cs !! S i ≠ Some 32%N.

(** The characters of a text that are not white space. *)
Definition ink (cs : text) : text :=
  List.filter (λ c, negb (is_space c)) cs.

(** A text of Unicode scalar values. *)
Definition scalar (cs : text) : Prop := Forall (λ c, c < 1114112)%N cs.
End Content.

(** The environment [env] with [clean_html_content] as it is written, over
    the libraries [lib]. *)
Definition with_content (env : Env) (lib : Content.Lib) : Env :=
  {| CONFIG_DIR := CONFIG_DIR env; BASE_URL := BASE_URL env;
     NTFY_TOKEN := NTFY_TOKEN env; USER_AGENT := USER_AGENT env;
     config_dir := config_dir env; load_config := load_config env;
     feedparser_parse := feedparser_parse env;
     clean_html_content := Content.clean_html_content lib;
     format_local_date := format_local_date env |}.

(** The image of the request [d], by the keys of its entry: none when the
    entry has no content; the [url] of the first [media_content], which the
    dispatch shows to exist; else the [href] of the first enclosure; else
    the [src] of the first [img] tag of the content. *)
Definition image_rule (lib : Content.Lib) (d : string * Entry * Request)
  : Prop :=
  let e := dispatch_entry d in
  let m := Content.media lib e in
  let no_media :=
    Content.media_content m = None ∨ Content.media_content m = Some [] in
  let no_enclosure :=
    Content.enclosures m = None ∨ Content.enclosures m = Some [] in
  (content_of e = "" → header "Attach" d.2 = None)
  ∧ (content_of e ≠ "" →
     (∀ x xs, Content.media_content m = Some (x :: xs) →
              is_Some (x !! "url")
              ∧ header "Attach" d.2 = truthy_value (x !! "url"))
     ∧ (∀ x xs, no_media → Content.enclosures m = Some (x :: xs) →
                is_Some (x !! "href")
                ∧ header "Attach" d.2 = truthy_value (x !! "href"))
     ∧ (no_media → no_enclosure →
        header "Attach" d.2
        = truthy_value
            (Content.find_img (Content.BeautifulSoup lib (content_of e))
               ≫= λ attrs, attrs !! "src"))).

(** *** Requests and rows when the storage works *)

(** The fingerprints of the dispatch attempts of a run, oldest first. *)
Definition dispatched {A} (r : Run A) : list string :=
  dispatch_hash <$> dispatches (events r).

(** The run [r] from the world [w] has recorded what it requested, and
    requested only what was new: the rows it added are the fingerprints of
    its dispatch attempts, in order; none of them was in the ledger of [w];
    no two of them are equal; and the storage still works after it. *)
Record exact {A} (w : World) (r : Run A) : Prop := {
  exact_rows : ledger (world r) = ledger w ++ dispatched r;
  exact_new : Forall (λ h, h ∉ ledger w) (dispatched r);
  exact_once : NoDup (dispatched r);
  exact_storage : no_faults (world r) }.

(** A computation all of whose runs from a working storage are exact. *)
Definition exactly_once {A} (m : M A) : Prop :=
  ∀ w, no_faults w → exact w (m w).

(** * Properties *)

(** ** The built-ins on known values *)

Example sha256_constants :
  take 2 Sha256.K = [0x428a2f98; 0x71374491]%N
  ∧ last Sha256.K = Some 0xc67178f2%N
  ∧ head Sha256.H0 = Some 0x6a09e667%N
  ∧ last Sha256.H0 = Some 0x5be0cd19%N.
Proof. vm_compute. repeat split. Qed.

Example sha256_empty :
  Sha256.hexdigest (Py.encode "")
  = "e3b0c44298fc1c149afbf4c8996fb92427ae41e4649b934ca495991b7852b855".
Proof. vm_compute. reflexivity. Qed.

Example sha256_abc :
  Sha256.hexdigest (Py.encode "abc")
  = "ba7816bf8f01cfea414140de5dae2223b00361a396177a9cb410ff61f20015ad".
Proof. vm_compute. reflexivity. Qed.

Example sha256_two_blocks :
  Sha256.hexdigest
    (Py.encode "abcdbcdecdefdefgefghfghighijhijkijkljklmklmnlmnomnopnopq")
  = "248d6a61d20638b8e5c026930c3e6039a33ce45964ff2167f6ecedd419db06c1".
Proof. vm_compute. reflexivity. Qed.

Example int_of_str_examples :
  Py.int_of_str "3" = Some 3%Z ∧ Py.int_of_str " -12 " = Some (-12)%Z
  ∧ Py.int_of_str "1_0" = Some 10%Z ∧ Py.int_of_str "1__0" = None
  ∧ Py.int_of_str "high" = None ∧ Py.int_of_str "" = None
  ∧ Py.int_of_str "+ 5" = None ∧ Py.int_of_str "007" = Some 7%Z.
Proof. vm_compute. repeat split. Qed.

Example topic_examples :
  Py.splitext_root (Py.basename (Py.path_join "configs" "news.json")) = "news"
  ∧ Py.splitext_root (Py.basename (Py.path_join "configs/" "a.b.json")) = "a.b"
  ∧ Py.splitext_root (Py.basename (Py.path_join "" ".json")) = ".json"
  ∧ Py.endswith "news.json" ".json" = true
  ∧ Py.endswith "news.json.bak" ".json" = false
  ∧ Py.endswith "json" ".json" = false.
Proof. vm_compute. repeat split. Qed.

Example sorted_example :
  Py.sorted ["b.json"; "a.json"; "B.json"; "a10.json"; "a2.json"]
  = ["B.json"; "a.json"; "a10.json"; "a2.json"; "b.json"].
Proof. vm_compute. reflexivity. Qed.

(** ** Strings and decimal numbers *)

Lemma list_ascii_of_string_app (s1 s2 : string) :
  list_ascii_of_string (s1 +:+ s2)
  = list_ascii_of_string s1 ++ list_ascii_of_string s2.
Proof. induction s1 as [|c s1 IH]; simpl; [reflexivity | by rewrite IH]. Qed.

Lemma list_ascii_of_string_inj (s1 s2 : string) :
  list_ascii_of_string s1 = list_ascii_of_string s2 → s1 = s2.
Proof.
  intros H. rewrite <- (string_of_list_ascii_of_string s1).
  rewrite <- (string_of_list_ascii_of_string s2). by rewrite H.
Qed.

Lemma append_inv_tail (s1 s2 t : string) : s1 +:+ t = s2 +:+ t → s1 = s2.
Proof.
  intros H. apply list_ascii_of_string_inj.
  apply (f_equal list_ascii_of_string) in H.
  rewrite !list_ascii_of_string_app in H. by apply app_inv_tail in H.
Qed.

Lemma encode_inj (s1 s2 : string) : Py.encode s1 = Py.encode s2 → s1 = s2.
Proof.
  unfold Py.encode. intros H. apply list_ascii_of_string_inj.
  revert H. generalize (list_ascii_of_string s1) (list_ascii_of_string s2).
  induction l as [|a l IH]; intros [|b l'] H; simplify_eq/=; [done|].
  f_equal; [|by apply IH].
  rewrite <- (ascii_N_embedding a), <- (ascii_N_embedding b). by f_equal.
Qed.

Lemma hash_input_inj_topic (t1 t2 ident : string) :
  hash_input t1 ident = hash_input t2 ident → t1 = t2.
Proof. intros H. apply encode_inj in H. by apply append_inv_tail in H. Qed.

Lemma split_last_snoc (s : string) (u : ascii) :
  split_last (s +:+ String u EmptyString) = Some (s, u).
Proof. induction s as [|c s IH]; simpl; [reflexivity | by rewrite IH]. Qed.

Lemma str_of_nat_nonempty (n : nat) :
  ∃ c ds, Py.str_of_nat n = String c ds.
Proof.
  unfold Py.str_of_nat. destruct (Nat.to_uint n) eqn:E; simpl; eauto.
  pose proof (Unsigned.of_to n) as H. rewrite E in H. simpl in H. subst n.
  discriminate E.
Qed.

Lemma duration_seconds_s (n : nat) :
  duration_seconds (Py.str_of_nat n +:+ "s") = Some n.
Proof.
  unfold duration_seconds. rewrite split_last_snoc.
  destruct (str_of_nat_nonempty n) as (c & ds & E). rewrite E, <- E.
  unfold Py.str_of_nat. rewrite NilEmpty.usu. simpl.
  by rewrite Unsigned.of_to.
Qed.

Lemma duration_seconds_m (n : nat) :
  duration_seconds (Py.str_of_nat n +:+ "m") = Some (60 * n).
Proof.
  unfold duration_seconds. rewrite split_last_snoc.
  destruct (str_of_nat_nonempty n) as (c & ds & E). rewrite E, <- E.
  unfold Py.str_of_nat. rewrite NilEmpty.usu. simpl Ascii.eqb. cbv iota.
  by rewrite Unsigned.of_to.
Qed.

Lemma truthy_snoc (s : string) (u : ascii) :
  Py.truthy (s +:+ String u EmptyString) = true.
Proof. by destruct s. Qed.

(** ** The delay in seconds *)

Lemma wait_seconds_delay_for (p : Z) (n : nat) :
  wait_seconds (delay_for p n) = Some (tier_wait p n).
Proof.
  unfold delay_for, tier_wait.
  repeat case_match; simpl;
    auto using duration_seconds_s, duration_seconds_m.
Qed.

Lemma tier_wait_mono_seq (p : Z) (n1 n2 : nat) :
  n1 ≤ n2 → tier_wait p n1 ≤ tier_wait p n2.
Proof. unfold tier_wait. repeat case_match; lia. Qed.

Lemma tier_wait_anti_tier (t1 t2 : Z) (n : nat) :
  (t1 < t2)%Z → tier_wait t2 n ≤ tier_wait t1 n.
Proof. unfold tier_wait. repeat case_match; lia. Qed.

Lemma delay_for_truthy (p : Z) (n : nat) :
  optional_header "Delay" (delay_for p n)
  = from_option (λ d, [("Delay", d)]) [] (delay_for p n).
Proof.
  unfold delay_for, optional_header.
  repeat case_match; simplify_eq; cbn [from_option]; try done.
  all: by rewrite truthy_snoc in *.
Qed.

(** ** Runs of the primitives *)

Lemma next_fault_at (w : World) : next_fault w = fault_at w 0.
Proof. unfold next_fault, fault_at. by destruct (db_faults w). Qed.

Lemma fault_at_tick (w : World) (i : nat) :
  fault_at (tick w) i = fault_at w (S i).
Proof.
  unfold fault_at, tick; cbn. destruct (db_faults w); [by destruct i | done].
Qed.

Lemma no_faults_at (w : World) (i : nat) : no_faults w → fault_at w i = false.
Proof.
  unfold no_faults, fault_at. generalize (db_faults w). intros l H.
  revert i. induction H as [|b l -> _ IH]; intros [|i]; cbn; auto.
Qed.

Lemma no_faults_tick (w : World) : no_faults w → no_faults (tick w).
Proof. unfold no_faults, tick; cbn. destruct 1; cbn; [constructor | done]. Qed.

Lemma select_seen_run (h : string) (w : World) :
  select_seen h w
  = {| result := if fault_at w 0 then Raise OperationalError
                 else Ok (bool_decide (h ∈ ledger w));
       world := tick w; events := [] |}.
Proof.
  unfold select_seen, bind, storage_op, ret. rewrite next_fault_at.
  cbn. by destruct (fault_at w 0).
Qed.

Lemma insert_seen_run (h : string) (w : World) :
  insert_seen h w
  = if fault_at w 0 then
      {| result := Raise OperationalError; world := tick w; events := [] |}
    else if bool_decide (h ∈ ledger w) then
      {| result := Raise IntegrityError; world := tick w; events := [] |}
    else {| result := Ok tt; world := add_row h (tick w); events := [] |}.
Proof.
  unfold insert_seen, bind, storage_op, raise. rewrite next_fault_at.
  cbn. destruct (fault_at w 0); [done|]. cbn.
  by destruct (bool_decide (h ∈ ledger w)).
Qed.

Lemma conn_commit_run (w : World) :
  conn_commit w
  = {| result := if fault_at w 0 then Raise OperationalError else Ok tt;
       world := tick w; events := [] |}.
Proof. unfold conn_commit, storage_op. by rewrite next_fault_at. Qed.

(** ** Runs of the dispatcher *)

Lemma send_ntfy_run env entry name icon topic prio delay w :
  send_ntfy env entry name icon topic prio delay w
  = match clean_html_content env (content_of entry) entry with
    | Raise x => {| result := Raise x; world := w; events := [] |}
    | Ok cleaned =>
        {| result := Ok tt; world := posted w;
           events := dispatch_events env entry name icon topic prio delay
                       cleaned (hd Delivered (net w)) |}
    end.
Proof.
  unfold send_ntfy, bind, lift.
  destruct (clean_html_content env (content_of entry) entry) as [c|x];
    [|done].
  unfold try_except, bind, session_post, raise_for_status, log, emit,
    dispatch_events.
  cbn. by destruct (hd Delivered (net w)).
Qed.

Lemma find_delay_header env title link prio date delay icon image :
  List.find (λ kv, bool_decide (kv.1 = "Delay"))
    (ntfy_headers env title link prio date delay icon image)
  = head (optional_header "Delay" delay).
Proof.
  unfold ntfy_headers, optional_header.
  destruct delay as [d|], icon as [i|], image as [a|]; cbn.
  all: repeat match goal with
         | |- context [Py.truthy ?s] => destruct (Py.truthy s); cbn
         end.
  all: repeat (rewrite bool_decide_false by done).
  all: rewrite ?bool_decide_true by done; done.
Qed.

Lemma header_delay_request env entry name icon topic prio p n cleaned :
  header "Delay"
    (ntfy_request env entry name icon topic prio (delay_for p n) cleaned)
  = delay_for p n.
Proof.
  unfold header, ntfy_request; cbn [headers].
  rewrite find_delay_header, delay_for_truthy.
  by destruct (delay_for p n).
Qed.

(** ** Runs of the loop body *)

Lemma bind_ok {A B} (m : M A) (k : A → M B) w a w1 ev1 r2 w2 ev2 evs :
  m w = {| result := Ok a; world := w1; events := ev1 |} →
  k a w1 = {| result := r2; world := w2; events := ev2 |} →
  evs = ev1 ++ ev2 →
  bind m k w = {| result := r2; world := w2; events := evs |}.
Proof. intros Hm Hk ->. unfold bind. rewrite Hm; cbn. by rewrite Hk. Qed.

Lemma bind_raise {A B} (m : M A) (k : A → M B) w x w1 ev1 :
  m w = {| result := Raise x; world := w1; events := ev1 |} →
  bind m k w = {| result := Raise x; world := w1; events := ev1 |}.
Proof. intros Hm. unfold bind. by rewrite Hm. Qed.

Lemma fault_at_posted (w : World) (i : nat) :
  fault_at (posted w) i = fault_at w i.
Proof. reflexivity. Qed.

Lemma fault_at_add_row (h : string) (w : World) (i : nat) :
  fault_at (add_row h w) i = fault_at w i.
Proof. reflexivity. Qed.

(** Follows a run through its binds, with the runs of the primitives among
    the hypotheses. *)
Ltac run_chain :=
  cbn beta iota;
  first
    [ reflexivity
    | by eapply bind_raise
    | eapply bind_ok;
      [ first [eassumption | reflexivity] | run_chain | reflexivity ] ].

Lemma process_entry_run env topic f_conf prio k e w :
  process_entry env topic f_conf prio k e w
  = entry_run env topic f_conf prio k e w.
Proof.
  unfold process_entry, entry_run.
  assert (Hsel := select_seen_run (entry_hash topic e) w).
  assert (Hins := insert_seen_run (entry_hash topic e) (posted (tick w))).
  assert (Hcom := conn_commit_run
                    (add_row (entry_hash topic e) (tick (posted (tick w))))).
  rewrite fault_at_posted, fault_at_tick in Hins.
  change (ledger (posted (tick w))) with (ledger w) in Hins.
  rewrite fault_at_add_row, fault_at_tick, fault_at_posted, fault_at_tick
    in Hcom.
  destruct (fault_at w 0); [run_chain|].
  destruct (bool_decide _); [run_chain|].
  destruct (py_int prio) as [p|x]; [|run_chain].
  destruct (fc_name f_conf) as [name|]; [|run_chain].
  assert (Hsend := send_ntfy_run env e name (fc_icon f_conf) topic prio
                     (delay_for p k) (tick w)).
  destruct (clean_html_content env (content_of e) e) as [c|x]; [|run_chain].
  destruct (fault_at w 1); [run_chain|].
  destruct (fault_at w 2); run_chain.
Qed.

(** ** Invariants of the loop over the entries *)

Lemma dispatches_app (evs1 evs2 : list Event) :
  dispatches (evs1 ++ evs2) = dispatches evs1 ++ dispatches evs2.
Proof. apply omap_app. Qed.

Lemma dispatches_dispatch_events env e name icon topic prio delay c out :
  dispatches (dispatch_events env e name icon topic prio delay c out)
  = [(topic, e, ntfy_request env e name icon topic prio delay c)].
Proof. reflexivity. Qed.

Lemma entry_run_inv env topic f_conf prio k e w :
  step_inv topic k e w (entry_run env topic f_conf prio k e w).
Proof.
  unfold entry_run.
  assert (∀ r : Run nat,
            dispatches (events r) = [] → ledger (world r) = ledger w →
            (∀ k', result r = Ok k' → k' = k) →
            step_inv topic k e w r) as quiet.
  { intros r Hd Hl Hk. split; rewrite ?Hd; auto.
    intros k' ->%Hk. split; [cbn; lia | done]. }
  destruct (fault_at w 0); [by apply quiet|].
  case_bool_decide as Hin; [apply quiet; cbn; congruence|].
  destruct (py_int prio) as [p|x]; [|by apply quiet].
  destruct (fc_name f_conf) as [name|]; [|by apply quiet].
  destruct (clean_html_content env (content_of e) e) as [c|x];
    [|by apply quiet].
  destruct (fault_at w 1), (fault_at w 2).
  all: split; cbn [result world events];
    rewrite ?dispatches_dispatch_events; cbn; eauto 6; try done.
  intros k' [= <-]. split; [lia | done].
Qed.

Lemma batch_inv_ret topic k w :
  batch_inv topic k w (ret k w).
Proof.
  split; cbn; [lia | by intros ? [= <-] | constructor |].
  exists []. rewrite app_nil_r. repeat split; auto; constructor.
Qed.

Lemma no_rows (l : list string) (ds : list (string * Entry * Request)) :
  ∃ rows,
    l = l ++ rows ∧ Forall (λ h, h ∉ l) rows ∧ NoDup rows
    ∧ rows `prefix_of` (dispatch_hash <$> ds)
    ∧ (∀ k' : nat, @Raise nat OperationalError = Ok k' →
         rows = dispatch_hash <$> ds).
Proof.
  exists []. rewrite app_nil_r.
  split; [done|]. split; [constructor|]. split; [constructor|].
  split; [apply prefix_nil | done].
Qed.

Lemma batch_inv_raise topic k e w x w1 ev1 :
  k < 3 →
  step_inv topic k e w {| result := Raise x; world := w1; events := ev1 |} →
  batch_inv topic k w {| result := Raise x; world := w1; events := ev1 |}.
Proof.
  intros Hk [Hd Hl _]; cbn [result world events] in *.
  destruct Hd as [Hd1 | [Hnew [req Hd1]]].
  - assert (Hl1 : ledger w1 = ledger w).
    { destruct Hl as [Hl | (_ & Hne & _)]; [done | by destruct Hne]. }
    split; cbn [result world events]; rewrite ?Hd1, ?Hl1; cbn [length];
      [lia | done | constructor |].
    destruct (no_rows (ledger w) []) as (rows & ? & ? & ? & ? & _).
    exists rows. by repeat split.
  - split; cbn [result world events]; rewrite ?Hd1; cbn [length];
      [lia | done | by repeat constructor |].
    destruct Hl as [Hl1 | (_ & _ & Hl1)]; rewrite Hl1.
    + destruct (no_rows (ledger w) [(topic, e, req)])
        as (rows & ? & ? & ? & ? & _).
      exists rows. by repeat split.
    + exists [entry_hash topic e].
      split; [done|]. split; [by repeat constructor|].
      split; [apply NoDup_singleton|]. by split.
Qed.

Lemma entries_loop_inv env topic f_conf prio es :
  ∀ k w, batch_inv topic k w (entries_loop env topic f_conf prio es k w).
Proof.
  induction es as [|e es IH]; intros k w; cbn [entries_loop].
  { apply batch_inv_ret. }
  destruct (3 <=? k) eqn:Hk; [apply batch_inv_ret|].
  apply Nat.leb_gt in Hk.
  unfold bind. rewrite process_entry_run.
  pose proof (entry_run_inv env topic f_conf prio k e w) as Hstep.
  destruct (entry_run env topic f_conf prio k e w) as [[k1|x] w1 ev1];
    cbn [result world events]; [|by eapply batch_inv_raise].
  destruct Hstep as [Hd Hl Hc]; cbn [result world events] in *.
  destruct (Hc k1 eq_refl) as [-> Hrow]. clear Hc.
  pose proof (IH (k + length (dispatches ev1)) w1)
    as [Hcap Hcnt Huns (rows & Hrows & Hfresh & Hnd & Hpre & Hall)].
  destruct (entries_loop env topic f_conf prio es _ w1) as [res2 w2 ev2];
    cbn [result world events] in *.
  assert (dispatches ev1 = [] ∧ ledger w1 = ledger w
          ∨ (entry_hash topic e ∉ ledger w)
            ∧ (∃ req, dispatches ev1 = [(topic, e, req)])
            ∧ ledger w1 = ledger w ++ [entry_hash topic e])
    as [[Hd1 Hl1] | (Hnew & [req Hd1] & Hl1)].
  { destruct Hd as [Hd1 | [Hnew [req Hd1]]].
    - left. split; [done|].
      destruct Hl as [Hl | (_ & Hne & _)]; [done | by destruct Hne].
    - right. repeat split; eauto. apply Hrow. by rewrite Hd1. }
  - rewrite Hd1, Hl1 in *. cbn [length] in *. rewrite Nat.add_0_r in *.
    split; cbn [result world events]; rewrite dispatches_app, Hd1;
      cbn [app length]; eauto.
    exists rows. by repeat split.
  - rewrite Hd1 in *. cbn [length] in *.
    assert (Hsub : ∀ h, h ∉ ledger w1 → h ∉ ledger w).
    { intros h. rewrite Hl1. rewrite not_elem_of_app. tauto. }
    split; cbn [result world events]; rewrite dispatches_app, Hd1;
      cbn [app length fmap list_fmap].
    + lia.
    + intros k' ->%Hcnt. lia.
    + constructor; [done|].
      eapply Forall_impl; [exact Huns|]. cbn. intros d [? ?]; auto.
    + exists (entry_hash topic e :: rows). repeat split.
      * rewrite Hrows, Hl1, <- app_assoc. done.
      * constructor; [done|]. eapply Forall_impl; [exact Hfresh|]. auto.
      * constructor; [|done]. intros Hin.
        rewrite Forall_forall in Hfresh. apply (Hfresh _ Hin).
        rewrite Hl1. apply elem_of_app. right. by apply list_elem_of_singleton.
      * by apply prefix_cons.
      * intros k' Hres. by rewrite (Hall k' Hres).
Qed.

(** ** Runs of one feed *)

Lemma process_feed_run env topic f_conf w :
  process_feed env topic f_conf w = feed_run env topic f_conf w.
Proof.
  unfold process_feed, feed_run. cbn zeta.
  destruct (fc_url f_conf) as [u|]; [|run_chain].
  destruct (feedparser_parse env u) as [es|x] eqn:Hparse.
  - destruct (entries_loop env topic f_conf
                (default DEFAULT_PRIORITY (fc_priority f_conf)) es 0 w)
      as [[k|x] w1 ev1] eqn:E; cbn [result world events].
    + eapply bind_ok; [reflexivity | cbn beta | reflexivity].
      eapply bind_ok; [reflexivity | cbn beta | reflexivity].
      rewrite Hparse.
      eapply bind_ok; [reflexivity | cbn beta | reflexivity].
      eapply bind_ok; [exact E | reflexivity | by rewrite app_nil_r].
    + eapply bind_ok; [reflexivity | cbn beta | reflexivity].
      eapply bind_ok; [reflexivity | cbn beta | reflexivity].
      rewrite Hparse.
      eapply bind_ok; [reflexivity | cbn beta | reflexivity].
      by eapply bind_raise.
  - eapply bind_ok; [reflexivity | cbn beta | reflexivity].
    eapply bind_ok; [reflexivity | cbn beta | reflexivity].
    rewrite Hparse. by eapply bind_raise.
Qed.

Lemma process_feed_inv env topic f_conf w :
  feed_inv topic w (process_feed env topic f_conf w).
Proof.
  rewrite process_feed_run. unfold feed_run.
  assert (∀ x evs, dispatches evs = [] →
            feed_inv topic w
              {| result := Raise x; world := w; events := evs |}) as quiet.
  { intros x evs Hd. split; cbn [result world events]; rewrite Hd.
    - cbn. lia.
    - constructor.
    - exists []. rewrite app_nil_r.
      repeat split; try constructor. apply prefix_nil. }
  destruct (fc_url f_conf) as [u|]; [|by apply quiet].
  destruct (feedparser_parse env u) as [es|x]; [|by apply quiet].
  cbn zeta.
  destruct (entries_loop_inv env topic f_conf
              (default DEFAULT_PRIORITY (fc_priority f_conf)) es 0 w)
    as [Hcap _ Huns (rows & Hrows & Hfresh & Hnd & Hpre & _)].
  split; cbn [result world events]; [exact Hcap | exact Huns |].
  exists rows. by repeat split.
Qed.

Example fingerprint_example :
  entry_hash "news" (Scenario.entry_of_id "1")
  = "f0d21924c43cc9c54d79e14430568d1017b98ca4443ec807a4498ea2e84691d5"
  ∧ entry_hash "news" (Scenario.entry_of_link "https://b.example/")
  = "9a33f39f9b4dfe74cab9f14921d33ae9742e535136963fd42605dae86166572a".
Proof. vm_compute. by split. Qed.

(** ** C1: entries of the ledger are skipped *)

(** C1. When the fingerprint of an entry is in the ledger, processing a feed
    makes no dispatch of that entry or of any entry with that fingerprint
    and appends no row with it; the
    loop body for that entry performs no event and leaves the ledger as it
    is, and returns the counter unchanged unless the lookup itself fails. *)
Theorem seen_entry_is_skipped env topic f_conf w e :
  entry_hash topic e ∈ ledger w →
  let r := process_feed env topic f_conf w in
  (∀ d, d ∈ dispatches (events r) →
        d.1.1 = topic ∧ d.1.2 ≠ e
        ∧ entry_hash topic d.1.2 ≠ entry_hash topic e)
  ∧ (∃ rows, ledger (world r) = ledger w ++ rows
             ∧ entry_hash topic e ∉ rows)
  ∧ (∀ prio k,
       let s := process_entry env topic f_conf prio k e w in
       events s = [] ∧ ledger (world s) = ledger w
       ∧ (fault_at w 0 = false → result s = Ok k)).
Proof.
  intros Hin r.
  destruct (process_feed_inv env topic f_conf w)
    as [_ Huns (rows & Hrows & Hfresh & _)]. fold r in Huns, Hrows.
  rewrite Forall_forall in Huns. rewrite Forall_forall in Hfresh.
  split; [|split].
  - intros d Hd. apply Huns in Hd as [Ht Hd]. unfold dispatch_hash in Hd.
    rewrite Ht in Hd. split; [done|].
    split; intros Heq; by rewrite Heq in Hd.
  - exists rows. split; [done|]. intros Hrow. by apply Hfresh in Hrow.
  - intros prio k s. subst s. rewrite process_entry_run. unfold entry_run.
    destruct (fault_at w 0); [by repeat split|].
    rewrite bool_decide_true by done. by repeat split.
Qed.

Lemma seen_entry_is_skipped_witness :
  entry_hash "news" (Scenario.entry_of_id "a1") ∈ ledger Scenario.w_seen
  ∧ ∀ d,
      d ∈ dispatches
            (events (process_feed Scenario.env0 "news" Scenario.feed_a
                       Scenario.w_seen)) →
      d.1.1 = "news" ∧ d.1.2 ≠ Scenario.entry_of_id "a1"
      ∧ entry_hash "news" d.1.2
        ≠ entry_hash "news" (Scenario.entry_of_id "a1").
Proof.
  split; [constructor|].
  apply (seen_entry_is_skipped Scenario.env0 "news" Scenario.feed_a
           Scenario.w_seen (Scenario.entry_of_id "a1")).
  constructor.
Defined.

Example seen_entry_leaves_room_for_the_next :
  (λ d, entry_id d.1.2)
    <$> dispatches
          (events (process_feed Scenario.env0 "news" Scenario.feed_a
                     Scenario.w_seen))
  = ["a2"; "a3"; "a4"].
Proof. vm_compute. reflexivity. Qed.

(** ** C3: at most three dispatches per feed *)

(** C3. Processing one feed makes at most three dispatch attempts, whatever
    the feed, the ledger, the storage and the endpoint do; the loop stops
    without any effect once the counter is 3 or more; from a counter [k] of
    at most 3 the loop makes at most [3 - k] attempts; and when the loop
    completes, the counter has grown by the number of attempts. *)
Theorem per_source_cap env topic f_conf w :
  length (dispatches (events (process_feed env topic f_conf w))) ≤ 3
  ∧ (∀ prio es k w', 3 ≤ k →
       entries_loop env topic f_conf prio es k w' = ret k w')
  ∧ (∀ prio es k w', k ≤ 3 →
       k + length (dispatches
                     (events (entries_loop env topic f_conf prio es k w')))
       ≤ 3)
  ∧ (∀ prio es k w' k',
       result (entries_loop env topic f_conf prio es k w') = Ok k' →
       k' = k + length (dispatches
                          (events
                             (entries_loop env topic f_conf prio es k w')))).
Proof.
  split; [apply process_feed_inv|]. split; [|split].
  - intros prio [|e es] k w' Hk; cbn [entries_loop]; [done|].
    by rewrite (proj2 (Nat.leb_le 3 k) Hk).
  - intros prio es k w' Hk.
    destruct (entries_loop_inv env topic f_conf prio es k w') as [Hcap _ _ _].
    lia.
  - intros prio es k w'.
    apply (entries_loop_inv env topic f_conf prio es k w').
Qed.

Lemma per_source_cap_witness :
  3 ≤ 3
  ∧ length (dispatches
              (events (process_feed Scenario.env0 "news" Scenario.feed_a
                         Scenario.w0))) ≤ 3
  ∧ entries_loop Scenario.env0 "news" Scenario.feed_a (JInt 3)
      Scenario.entries_a 3 Scenario.w0
    = ret 3 Scenario.w0.
Proof.
  assert (H33 : 3 ≤ 3) by lia.
  pose proof (per_source_cap Scenario.env0 "news" Scenario.feed_a Scenario.w0)
    as (H1 & H2 & _).
  split; [exact H33|]. split; [exact H1|]. apply H2. exact H33.
Defined.

Example five_entries_three_dispatches :
  length (dispatches
            (events (process_feed Scenario.env0 "news" Scenario.feed_a
                       Scenario.w0))) = 3.
Proof. vm_compute. reflexivity. Qed.

(** ** Runs without faults on entries that are all new *)

Lemma entry_run_new env topic f_conf prio p name c k e w :
  no_faults w → entry_hash topic e ∉ ledger w →
  py_int prio = Ok p → fc_name f_conf = Some name →
  clean_html_content env (content_of e) e = Ok c →
  entry_run env topic f_conf prio k e w
  = {| result := Ok (k + 1);
       world := recorded (entry_hash topic e) w;
       events := dispatch_events env e name (fc_icon f_conf) topic prio
                   (delay_for p k) c (hd Delivered (net w)) |}.
Proof.
  intros Hw Hnew Hp Hname Hc. unfold entry_run.
  rewrite !no_faults_at by done. rewrite bool_decide_false by done.
  by rewrite Hp, Hname, Hc.
Qed.

Lemma no_faults_recorded (h : string) (w : World) :
  no_faults w → no_faults (recorded h w).
Proof.
  intros Hw. unfold recorded. apply no_faults_tick.
  change (no_faults (tick (posted (tick w)))).
  apply no_faults_tick. change (no_faults (tick w)). by apply no_faults_tick.
Qed.

Lemma entries_loop_fresh env topic f_conf prio p name :
  py_int prio = Ok p → fc_name f_conf = Some name →
  ∀ es k w,
    no_faults w →
    NoDup (entry_hash topic <$> es) →
    Forall (λ e, entry_hash topic e ∉ ledger w) es →
    Forall (clean_ok env) es →
    let r := entries_loop env topic f_conf prio es k w in
    let n := min (3 - k) (length es) in
    result r = Ok (k + n)
    ∧ ledger (world r) = ledger w ++ (entry_hash topic <$> take n es)
    ∧ no_faults (world r)
    ∧ (fst <$> dispatches (events r)) = ((λ e, (topic, e)) <$> take n es)
    ∧ (dispatch_delay <$> dispatches (events r)) = (delay_for p <$> seq k n).
Proof.
  intros Hp Hname. induction es as [|e es IH]; intros k w Hw Hnd Hnew Hclean.
  { cbn. rewrite Nat.min_0_r, Nat.add_0_r, app_nil_r. by repeat split. }
  cbn [entries_loop]. destruct (3 <=? k) eqn:Hk.
  { apply Nat.leb_le in Hk. replace (3 - k) with 0 by lia.
    cbn. rewrite Nat.add_0_r, app_nil_r. by repeat split. }
  apply Nat.leb_gt in Hk.
  replace (min (3 - k) (length (e :: es)))
    with (S (min (3 - (k + 1)) (length es))) by (cbn [length]; lia).
  set (n := min (3 - (k + 1)) (length es)).
  apply Forall_cons in Hnew as [Hnew_e Hnew].
  apply Forall_cons in Hclean as [[c Hc] Hclean].
  rewrite fmap_cons in Hnd. apply NoDup_cons in Hnd as [Hfresh Hnd].
  unfold bind. rewrite process_entry_run.
  rewrite (entry_run_new env topic f_conf prio p name c) by done.
  cbn [result world events].
  destruct (IH (k + 1) (recorded (entry_hash topic e) w))
    as (Hres & Hled & Hnf & Hdisp & Hdel); auto using no_faults_recorded.
  { apply Forall_forall. intros e' He'. rewrite Forall_forall in Hnew.
    change (ledger (recorded (entry_hash topic e) w))
      with (ledger w ++ [entry_hash topic e]).
    rewrite not_elem_of_app. split; [by apply Hnew|].
    rewrite list_elem_of_singleton. intros Heq. apply Hfresh.
    rewrite <- Heq. by apply list_elem_of_fmap_2. }
  fold n in Hres, Hled, Hdisp, Hdel.
  cbv zeta. repeat split.
  - rewrite Hres. f_equal. lia.
  - rewrite Hled. cbn [take fmap list_fmap].
    change (ledger (recorded (entry_hash topic e) w))
      with (ledger w ++ [entry_hash topic e]).
    by rewrite <- app_assoc.
  - done.
  - rewrite dispatches_app, dispatches_dispatch_events, fmap_app, Hdisp.
    reflexivity.
  - rewrite dispatches_app, dispatches_dispatch_events, fmap_app, Hdel.
    cbn [fmap list_fmap app seq]. f_equal.
    + unfold dispatch_delay. cbn [snd]. apply header_delay_request.
    + by rewrite Nat.add_1_r.
Qed.

(** ** C4: a feed of tier 3 with five new entries *)

(** C4, as stated, fails: the five entries of [feed_b] have no id and the
    same link, hence one fingerprint; none is in the ledger, the tier is 3,
    and the cycle makes a single dispatch. *)
Lemma tier3_same_identity_counterexample :
  five_unseen_tier3 Scenario.env0 "news" Scenario.feed_b Scenario.w0
    Scenario.entries_b
  ∧ ¬ tier3_outcome "news" Scenario.entries_b Scenario.w0
        (process_feed Scenario.env0 "news" Scenario.feed_b Scenario.w0).
Proof.
  split.
  - split; [by exists "https://b.example/rss"|]. split; [done|].
    split; [done|]. apply Forall_forall. intros e _. apply not_elem_of_nil.
  - intros [Hdelays _].
    assert (dispatch_delay
              <$> dispatches
                    (events (process_feed Scenario.env0 "news"
                               Scenario.feed_b Scenario.w0))
            = [Some "5m"]) as Hone by (vm_compute; reflexivity).
    rewrite Hone in Hdelays. discriminate Hdelays.
Qed.

Lemma elem_of_drop_list {A} (x : A) (n : nat) (l : list A) :
  x ∈ drop n l → x ∈ l.
Proof.
  intros H. rewrite <- (take_drop n l). apply elem_of_app. by right.
Qed.

(** C4, amended. In the situation of the scenario, when moreover the five
    fingerprints are pairwise different, the feed has a name, no storage
    operation fails and the content of each entry can be summarised, the
    outcome is the one of the scenario, whatever the endpoint answers. *)
Theorem tier3_five_distinct_unseen env topic f_conf w es name :
  five_unseen_tier3 env topic f_conf w es →
  NoDup (entry_hash topic <$> es) →
  fc_name f_conf = Some name →
  no_faults w →
  Forall (clean_ok env) es →
  tier3_outcome topic es w (process_feed env topic f_conf w).
Proof.
  intros ((u & Hu & Hparse) & Hlen & Hp & Hnew) Hnd Hname Hw Hclean.
  rewrite process_feed_run. unfold feed_run. rewrite Hu, Hparse. cbn zeta.
  destruct (entries_loop_fresh env topic f_conf _ 3%Z name Hp Hname
              es 0 w Hw Hnd Hnew Hclean)
    as (Hres & Hled & _ & Hdisp & Hdel).
  rewrite Hlen in *. change (min (3 - 0) 5) with 3 in *.
  unfold tier3_outcome. cbn [result world events].
  change (dispatches (EvFetch u :: ?evs)) with (dispatches evs).
  split; [by rewrite Hdel|]. split; [done|]. split; [done|].
  rewrite Hled. apply Forall_forall. intros e He.
  rewrite not_elem_of_app. rewrite Forall_forall in Hnew.
  split; [apply Hnew; eapply elem_of_drop_list; eassumption|].
  intros Hin. apply list_elem_of_fmap in Hin as (e' & Heq & He').
  rewrite <- (take_drop 3 es) in Hnd. rewrite fmap_app in Hnd.
  apply NoDup_app in Hnd as (_ & Hdisj & _).
  apply (Hdisj (entry_hash topic e')); [by apply list_elem_of_fmap_2|].
  rewrite <- Heq. by apply list_elem_of_fmap_2.
Qed.

Lemma tier3_five_distinct_unseen_witness :
  five_unseen_tier3 Scenario.env0 "news" Scenario.feed_a Scenario.w0
    Scenario.entries_a
  ∧ NoDup (entry_hash "news" <$> Scenario.entries_a)
  ∧ fc_name Scenario.feed_a = Some "A"
  ∧ no_faults Scenario.w0
  ∧ Forall (clean_ok Scenario.env0) Scenario.entries_a
  ∧ tier3_outcome "news" Scenario.entries_a Scenario.w0
      (process_feed Scenario.env0 "news" Scenario.feed_a Scenario.w0).
Proof.
  assert (H5 : five_unseen_tier3 Scenario.env0 "news" Scenario.feed_a
                 Scenario.w0 Scenario.entries_a).
  { split; [by exists "https://a.example/rss"|]. split; [reflexivity|].
    split; [reflexivity|]. apply Forall_forall. intros e _.
    apply not_elem_of_nil. }
  assert (Hnd : NoDup (entry_hash "news" <$> Scenario.entries_a)).
  { refine (bool_decide_unpack _ _). vm_compute. exact I. }
  assert (Hname : fc_name Scenario.feed_a = Some "A") by reflexivity.
  assert (Hw : no_faults Scenario.w0) by constructor.
  assert (Hclean : Forall (clean_ok Scenario.env0) Scenario.entries_a).
  { apply Forall_forall. intros e _. by eexists. }
  repeat (split; [assumption|]).
  exact (tier3_five_distinct_unseen Scenario.env0 "news" Scenario.feed_a
           Scenario.w0 Scenario.entries_a "A" H5 Hnd Hname Hw Hclean).
Defined.

(** ** C5 and C6: the delay as a function of tier and position *)

(** C5. For a fixed tier the delay does not decrease with the position in
    the batch, and from tier 5 on there is no delay at any position. *)
Theorem delay_monotone_in_position (p : Z) (n1 n2 : nat) :
  n1 ≤ n2 →
  (∃ d1 d2,
     wait_seconds (delay_for p n1) = Some d1
     ∧ wait_seconds (delay_for p n2) = Some d2
     ∧ d1 ≤ d2)
  ∧ ((5 ≤ p)%Z → delay_for p n1 = None ∧ delay_for p n2 = None).
Proof.
  intros Hn. split.
  - exists (tier_wait p n1), (tier_wait p n2).
    rewrite !wait_seconds_delay_for. auto using tier_wait_mono_seq.
  - intros Hp. unfold delay_for.
    by rewrite (proj2 (Z.ltb_ge p 5) Hp).
Qed.

Lemma delay_monotone_in_position_witness :
  1 ≤ 2
  ∧ wait_seconds (delay_for 4 1) = Some 40
  ∧ wait_seconds (delay_for 4 2) = Some 70
  ∧ delay_for 5 1 = None.
Proof.
  assert (H12 : 1 ≤ 2) by lia.
  destruct (delay_monotone_in_position 5 1 2 H12) as [_ H5].
  destruct (delay_monotone_in_position 4 1 2 H12)
    as [(d1 & d2 & H1 & H2 & _) _].
  split; [exact H12|]. split; [|split].
  - rewrite H1. vm_compute in H1. congruence.
  - rewrite H2. vm_compute in H2. congruence.
  - apply H5. lia.
Defined.

Example delay_table :
  delay_for 4 0 = Some "10s" ∧ delay_for 4 2 = Some "70s"
  ∧ delay_for 3 0 = Some "5m" ∧ delay_for 3 2 = Some "15m"
  ∧ delay_for 2 0 = Some "15m" ∧ delay_for 1 2 = Some "35m"
  ∧ delay_for 0 1 = Some "25m" ∧ delay_for (-1) 0 = Some "15m"
  ∧ delay_for 5 0 = None ∧ delay_for 9 2 = None.
Proof. vm_compute. repeat split. Qed.

(** C6, as stated, fails: tier 4 is numerically lower than tier 5 and waits
    10 seconds at position 0, where tier 5 does not wait. *)
Lemma lower_tier_waits_longer_counterexample :
  ¬ (∀ (t1 t2 : Z) (n d1 d2 : nat),
       (t1 < t2)%Z →
       wait_seconds (delay_for t1 n) = Some d1 →
       wait_seconds (delay_for t2 n) = Some d2 →
       d1 ≤ d2).
Proof.
  intros H. specialize (H 4%Z 5%Z 0 10 0).
  assert (10 ≤ 0) as Hle by (apply H; [lia | reflexivity | reflexivity]).
  lia.
Qed.

(** C6, amended. The numerically higher tier is the more urgent one: at
    every position the delay of a tier is at most the delay of any
    numerically lower tier. *)
Theorem delay_antitone_in_tier (t1 t2 : Z) (n : nat) :
  (t1 < t2)%Z →
  ∃ d1 d2,
    wait_seconds (delay_for t1 n) = Some d1
    ∧ wait_seconds (delay_for t2 n) = Some d2
    ∧ d2 ≤ d1.
Proof.
  intros Ht. exists (tier_wait t1 n), (tier_wait t2 n).
  rewrite !wait_seconds_delay_for. auto using tier_wait_anti_tier.
Qed.

Lemma delay_antitone_in_tier_witness :
  (3 < 4)%Z
  ∧ ∃ d1 d2,
      wait_seconds (delay_for 3 1) = Some d1
      ∧ wait_seconds (delay_for 4 1) = Some d2
      ∧ d2 ≤ d1.
Proof.
  assert (H34 : (3 < 4)%Z) by lia.
  split; [exact H34|]. exact (delay_antitone_in_tier 3 4 1 H34).
Defined.

(** ** C2 and C9: the fingerprint *)

(** C2. The fingerprint that the code computes is the one of the
    specification, a function of the topic and of the identity alone, and it
    is the only row that the loop body ever adds to the ledger. *)
Theorem fingerprint_refines_spec (topic : string) (entry : Entry) :
  entry_hash topic entry
  = fingerprint_spec topic
      (identity_spec (fields entry !! "id") (fields entry !! "link"))
  ∧ ∀ env f_conf prio k w,
      let r := process_entry env topic f_conf prio k entry w in
      ledger (world r) = ledger w
      ∨ ledger (world r)
        = ledger w
          ++ [fingerprint_spec topic
                (identity_spec (fields entry !! "id")
                   (fields entry !! "link"))].
Proof.
  assert (entry_hash topic entry
          = fingerprint_spec topic
              (identity_spec (fields entry !! "id") (fields entry !! "link")))
    as Heq.
  { unfold entry_hash, hash_input, fingerprint_spec, entry_id, entry_get,
      identity_spec.
    by destruct (fields entry !! "id"), (fields entry !! "link"). }
  split; [exact Heq|]. intros env f_conf prio k w r. rewrite <- Heq.
  subst r. rewrite process_entry_run.
  destruct (entry_run_inv env topic f_conf prio k entry w) as [_ Hl _].
  destruct Hl as [Hl | (_ & _ & Hl)]; auto.
Qed.

Example fingerprint_precedence :
  entry_id {| fields := {[ "id" := "i"; "link" := "l" ]}; content := [] |}
  = "i"
  ∧ entry_id {| fields := {[ "link" := "l"; "title" := "t" ]};
                content := [] |} = "l"
  ∧ entry_id {| fields := {[ "title" := "t" ]}; content := [] |}
    = "unknown_id".
Proof. vm_compute. repeat split. Qed.

(** C9. For two different topics and one identity the hashed byte strings
    differ; hence the two fingerprints differ, unless SHA-256 collides on
    these two inputs. *)
Theorem no_cross_topic_collision (t1 t2 : string) (e : Entry) :
  t1 ≠ t2 →
  hash_input t1 (entry_id e) ≠ hash_input t2 (entry_id e)
  ∧ (entry_hash t1 e ≠ entry_hash t2 e
     ∨ Sha256.collision (hash_input t1 (entry_id e))
         (hash_input t2 (entry_id e))).
Proof.
  intros Ht.
  assert (hash_input t1 (entry_id e) ≠ hash_input t2 (entry_id e)) as Hne.
  { intros Heq. by apply Ht, (hash_input_inj_topic _ _ (entry_id e)). }
  split; [exact Hne|].
  destruct (decide (entry_hash t1 e = entry_hash t2 e)) as [Heq|Hd];
    [right | by left].
  split; [exact Hne | exact Heq].
Qed.

Lemma no_cross_topic_collision_witness :
  "news" ≠ "alerts"
  ∧ hash_input "news" (entry_id (Scenario.entry_of_id "a1"))
    ≠ hash_input "alerts" (entry_id (Scenario.entry_of_id "a1")).
Proof.
  assert (Hne : "news" ≠ "alerts") by discriminate.
  split; [exact Hne|].
  exact (proj1 (no_cross_topic_collision "news" "alerts"
                  (Scenario.entry_of_id "a1") Hne)).
Defined.

Example topics_give_different_fingerprints :
  entry_hash "news" (Scenario.entry_of_id "a1")
  ≠ entry_hash "alerts" (Scenario.entry_of_id "a1").
Proof. vm_compute. discriminate. Qed.

(** ** C7: the answer of the endpoint does not change the run *)

Lemma blind_ret {A} (a : A) : endpoint_blind (ret a).
Proof. intros w1 w2 [Hl Hd]. by repeat split. Qed.

Lemma blind_raise {A} (x : Exn) : endpoint_blind (@raise A x).
Proof. intros w1 w2 [Hl Hd]. by repeat split. Qed.

Lemma blind_lift {A} (r : Res A) : endpoint_blind (lift r).
Proof. destruct r; [apply blind_ret | apply blind_raise]. Qed.

Lemma blind_subscript {A} (v : option A) (key : string) :
  endpoint_blind (subscript v key).
Proof. destruct v; [apply blind_ret | apply blind_raise]. Qed.

Lemma blind_emit (ev : Event) : endpoint_blind (emit ev).
Proof. intros w1 w2 [Hl Hd]. by repeat split. Qed.

Lemma blind_bind {A B} (m : M A) (k : A → M B) :
  endpoint_blind m → (∀ a, endpoint_blind (k a)) → endpoint_blind (bind m k).
Proof.
  intros Hm Hk w1 w2 Hw. unfold bind.
  destruct (Hm w1 w2 Hw) as (Hr & Hw' & He).
  destruct (m w1) as [r1 w1' ev1], (m w2) as [r2 w2' ev2];
    cbn [result world events] in *. subst r2.
  destruct r1 as [a|x]; [|by split].
  destruct (Hk a w1' w2' Hw') as (Hr2 & Hw2 & He2).
  split; [done|]. split; [done|]. cbn [events].
  by rewrite !omap_app, He, He2.
Qed.

Lemma blind_try {A} (m : M A) (h : Exn → M A) :
  endpoint_blind m → (∀ x, endpoint_blind (h x)) →
  endpoint_blind (try_except m h).
Proof.
  intros Hm Hh w1 w2 Hw. unfold try_except.
  destruct (Hm w1 w2 Hw) as (Hr & Hw' & He).
  destruct (m w1) as [r1 w1' ev1], (m w2) as [r2 w2' ev2];
    cbn [result world events] in *. subst r2.
  destruct r1 as [a|x]; [by split|].
  destruct (Hh x w1' w2' Hw') as (Hr2 & Hw2 & He2).
  split; [done|]. split; [done|]. cbn [events].
  by rewrite !omap_app, He, He2.
Qed.

Lemma blind_storage_op : endpoint_blind storage_op.
Proof.
  intros w1 w2 [Hl Hd]. unfold storage_op, next_fault, same_run, same_storage.
  cbn. by rewrite Hl, Hd.
Qed.

Lemma blind_select_seen (h : string) : endpoint_blind (select_seen h).
Proof.
  apply blind_bind; [apply blind_storage_op|].
  intros _ w1 w2 [Hl Hd]. unfold ret, same_run, same_storage. cbn.
  by rewrite Hl, Hd.
Qed.

Lemma blind_insert_seen (h : string) : endpoint_blind (insert_seen h).
Proof.
  apply blind_bind; [apply blind_storage_op|].
  intros _ w1 w2 [Hl Hd]. unfold raise, same_run, same_storage. rewrite Hl.
  destruct (bool_decide (h ∈ ledger w2)); cbn; by rewrite ?Hl, ?Hd.
Qed.

Lemma blind_send_ntfy env entry name icon topic prio delay :
  endpoint_blind (send_ntfy env entry name icon topic prio delay).
Proof.
  intros w1 w2 [Hl Hd]. rewrite !send_ntfy_run.
  destruct (clean_html_content env (content_of entry) entry) as [c|x];
    [|by repeat split].
  repeat split; cbn [result world events ledger db_faults posted]; try done.
  unfold dispatch_events.
  by destruct (hd Delivered (net w1)), (hd Delivered (net w2)).
Qed.

Lemma blind_process_entry env topic f_conf prio k e :
  endpoint_blind (process_entry env topic f_conf prio k e).
Proof.
  unfold process_entry.
  apply blind_bind; [apply blind_select_seen|]. intros [|]; [apply blind_ret|].
  apply blind_bind; [apply blind_lift|]. intros p.
  apply blind_bind; [apply blind_subscript|]. intros name.
  apply blind_bind; [apply blind_send_ntfy|]. intros _.
  apply blind_bind; [apply blind_insert_seen|]. intros _.
  apply blind_bind; [apply blind_storage_op|]. intros _. apply blind_ret.
Qed.

Lemma blind_entries_loop env topic f_conf prio es :
  ∀ k, endpoint_blind (entries_loop env topic f_conf prio es k).
Proof.
  induction es as [|e es IH]; intros k; cbn [entries_loop];
    [apply blind_ret|].
  destruct (3 <=? k); [apply blind_ret|].
  apply blind_bind; [apply blind_process_entry | apply IH].
Qed.

Lemma blind_process_feed env topic f_conf :
  endpoint_blind (process_feed env topic f_conf).
Proof.
  unfold process_feed.
  apply blind_bind; [apply blind_subscript|]. intros u.
  apply blind_bind; [apply blind_emit|]. intros _.
  apply blind_bind; [apply blind_lift|]. intros es.
  apply blind_bind; [apply blind_entries_loop|]. intros _. apply blind_ret.
Qed.

Lemma blind_feeds_loop env topic feeds :
  endpoint_blind (feeds_loop env topic feeds).
Proof.
  induction feeds as [|f feeds IH]; cbn [feeds_loop]; [apply blind_ret|].
  apply blind_bind; [|intros _; apply IH].
  apply blind_try; [apply blind_process_feed|]. intros x. apply blind_emit.
Qed.

Lemma blind_process_config_file env file_path :
  endpoint_blind (process_config_file env file_path).
Proof.
  unfold process_config_file.
  apply blind_bind; [apply blind_emit|]. intros _.
  destruct (load_config env file_path);
    [apply blind_feeds_loop | apply blind_emit].
Qed.

Lemma blind_files_loop env filenames :
  endpoint_blind (files_loop env filenames).
Proof.
  induction filenames as [|f fs IH]; cbn [files_loop]; [apply blind_ret|].
  apply blind_bind; [apply blind_process_config_file | intros _; apply IH].
Qed.

Lemma blind_init_db : endpoint_blind init_db.
Proof.
  unfold init_db. repeat (apply blind_bind; [apply blind_storage_op|intros _]).
  apply blind_storage_op.
Qed.

Lemma blind_cycle env n : endpoint_blind (cycle env n).
Proof.
  unfold cycle. apply blind_bind; [|intros _; apply blind_emit].
  apply blind_try; [|intros x; apply blind_emit].
  unfold main. destruct (config_dir env); [apply blind_emit | |].
  - apply blind_bind; [apply blind_init_db | intros _; apply blind_raise].
  - apply blind_bind; [apply blind_init_db | intros _; apply blind_files_loop].
Qed.

(** C7. In two worlds that differ only in what the endpoint answers, a feed
    and a whole cycle run the same way: same result, same ledger and storage
    at the end, same requests. The dispatcher itself returns normally after
    every answer, with the ledger untouched, and logs the answer; and a new
    entry is recorded and counted after every answer. *)
Theorem dispatch_failure_still_recorded env topic f_conf w w' :
  same_storage w w' →
  same_run (process_feed env topic f_conf w) (process_feed env topic f_conf w')
  ∧ (∀ n, same_run (cycle env n w) (cycle env n w'))
  ∧ (∀ entry name icon prio delay c,
       clean_html_content env (content_of entry) entry = Ok c →
       let r := send_ntfy env entry name icon topic prio delay w in
       let out := hd Delivered (net w) in
       result r = Ok tt ∧ ledger (world r) = ledger w
       ∧ ∃ req,
           events r =
             [ EvPost topic entry req out;
               EvLog (dispatch_log out name
                        (entry_get entry "title" "No Title")
                        (py_str prio)) ])
  ∧ (∀ prio p name k e c,
       no_faults w → entry_hash topic e ∉ ledger w →
       py_int prio = Ok p → fc_name f_conf = Some name →
       clean_html_content env (content_of e) e = Ok c →
       let r := process_entry env topic f_conf prio k e w in
       result r = Ok (k + 1)
       ∧ ledger (world r) = ledger w ++ [entry_hash topic e]).
Proof.
  intros Hw. split; [by apply blind_process_feed|].
  split; [intros n; by apply blind_cycle|]. split.
  - intros entry name icon prio delay c Hc r out. subst r out.
    rewrite send_ntfy_run, Hc. cbn [result world events].
    split; [done|]. split; [done|]. by eexists.
  - intros prio p name k e c Hnf Hnew Hp Hname Hc r. subst r.
    rewrite process_entry_run.
    by rewrite (entry_run_new env topic f_conf prio p name c).
Qed.

Lemma dispatch_failure_still_recorded_witness :
  same_storage Scenario.w_down Scenario.w0
  ∧ same_run
      (process_feed Scenario.env0 "news" Scenario.feed_a Scenario.w_down)
      (process_feed Scenario.env0 "news" Scenario.feed_a Scenario.w0).
Proof.
  assert (Hs : same_storage Scenario.w_down Scenario.w0)
    by (split; reflexivity).
  split; [exact Hs|].
  exact (proj1 (dispatch_failure_still_recorded Scenario.env0 "news"
                  Scenario.feed_a Scenario.w_down Scenario.w0 Hs)).
Defined.

Example rejected_and_unreachable_are_recorded :
  let r := process_feed Scenario.env0 "news" Scenario.feed_a Scenario.w_down in
  result r = Ok tt
  ∧ ledger (world r) = entry_hash "news" <$> take 3 Scenario.entries_a
  ∧ omap (λ ev, match ev with EvLog l => Some l | _ => None end) (events r)
    = [ ErrDispatch HTTPError; ErrDispatch ConnectionError;
        InfoSent "A" "No Title" "3" ].
Proof. vm_compute. repeat split. Qed.

(** ** The kinds of events of each part of the pipeline *)

Lemma emits_mono {A} (P Q : Event → Prop) (m : M A) :
  (∀ ev, P ev → Q ev) → emits P m → emits Q m.
Proof. intros HPQ Hm w. eapply Forall_impl; [apply Hm | exact HPQ]. Qed.

Lemma emits_ret {A} P (a : A) : emits P (ret a).
Proof. intros w. constructor. Qed.

Lemma emits_raise {A} P (x : Exn) : emits P (@raise A x).
Proof. intros w. constructor. Qed.

Lemma emits_lift {A} P (r : Res A) : emits P (lift r).
Proof. destruct r; [apply emits_ret | apply emits_raise]. Qed.

Lemma emits_subscript {A} P (v : option A) (key : string) :
  emits P (subscript v key).
Proof. destruct v; [apply emits_ret | apply emits_raise]. Qed.

Lemma emits_emit (P : Event → Prop) (ev : Event) : P ev → emits P (emit ev).
Proof. intros H w. by repeat constructor. Qed.

Lemma emits_bind {A B} P (m : M A) (k : A → M B) :
  emits P m → (∀ a, emits P (k a)) → emits P (bind m k).
Proof.
  intros Hm Hk w. unfold bind. specialize (Hm w).
  destruct (m w) as [[a|x] w1 ev1]; cbn [result world events] in *; [|done].
  apply Forall_app. split; [done | apply Hk].
Qed.

Lemma emits_try {A} P (m : M A) (h : Exn → M A) :
  emits P m → (∀ x, emits P (h x)) → emits P (try_except m h).
Proof.
  intros Hm Hh w. unfold try_except. specialize (Hm w).
  destruct (m w) as [[a|x] w1 ev1]; cbn [result world events] in *; [done|].
  apply Forall_app. split; [done | apply Hh].
Qed.

Lemma emits_storage_op P : emits P storage_op.
Proof. intros w. constructor. Qed.

Lemma emits_entries_loop env topic f_conf prio es :
  ∀ k, emits dispatcher_event (entries_loop env topic f_conf prio es k).
Proof.
  induction es as [|e es IH]; intros k; cbn [entries_loop];
    [apply emits_ret|].
  destruct (3 <=? k); [apply emits_ret|].
  apply emits_bind; [|apply IH].
  intros w. rewrite process_entry_run. unfold entry_run.
  repeat case_match; cbn [events]; by repeat constructor.
Qed.

Lemma emits_process_feed env topic f_conf :
  emits source_event (process_feed env topic f_conf).
Proof.
  unfold process_feed.
  apply emits_bind; [apply emits_subscript|]. intros u.
  apply emits_bind; [by apply emits_emit|]. intros _.
  apply emits_bind; [apply emits_lift|]. intros es.
  apply emits_bind; [|intros _; apply emits_ret].
  eapply emits_mono; [|apply emits_entries_loop]. by intros [].
Qed.

Lemma emits_feeds_loop env topic feeds :
  emits source_event (feeds_loop env topic feeds).
Proof.
  induction feeds as [|f feeds IH]; cbn [feeds_loop]; [apply emits_ret|].
  apply emits_bind; [|intros _; apply IH].
  apply emits_try; [apply emits_process_feed|]. intros x.
  by apply emits_emit.
Qed.

Lemma omap_none {A B} (f : A → option B) (P : A → Prop) (l : list A) :
  (∀ a, P a → f a = None) → Forall P l → omap f l = [].
Proof.
  intros Hf. induction 1 as [|a l Ha _ IH]; [done|].
  cbn. by rewrite (Hf a Ha), IH.
Qed.

Lemma fetches_dispatcher (evs : list Event) :
  Forall dispatcher_event evs → fetches evs = [].
Proof. apply omap_none. by intros []. Qed.

Lemma opened_source (evs : list Event) :
  Forall source_event evs → opened evs = [].
Proof. apply omap_none. by intros []. Qed.

Lemma sleeps_source (evs : list Event) :
  Forall source_event evs → sleeps evs = [].
Proof. apply omap_none. by intros []. Qed.

(** ** Failures are contained in the feed *)

Lemma never_raises_bind (m : M unit) (k : unit → M unit) :
  never_raises m → (∀ a, never_raises (k a)) → never_raises (bind m k).
Proof.
  intros Hm Hk w. unfold bind. specialize (Hm w).
  destruct (m w) as [r w1 ev1]; cbn [result world events] in *. subst r.
  apply Hk.
Qed.

Lemma never_raises_try_log (m : M unit) (l : Exn → LogRecord) :
  never_raises (try_except m (λ x, log (l x))).
Proof.
  intros w. unfold try_except. by destruct (m w) as [[[]|x] w1 ev1].
Qed.

Lemma never_raises_emit (ev : Event) : never_raises (emit ev).
Proof. by intros w. Qed.

Lemma never_raises_feeds_loop env topic feeds :
  never_raises (feeds_loop env topic feeds).
Proof.
  induction feeds as [|f feeds IH]; cbn [feeds_loop]; [by intros w|].
  apply never_raises_bind; [apply never_raises_try_log | intros _; apply IH].
Qed.

Lemma never_raises_process_config_file env file_path :
  never_raises (process_config_file env file_path).
Proof.
  unfold process_config_file.
  apply never_raises_bind; [apply never_raises_emit|]. intros _.
  destruct (load_config env file_path);
    [apply never_raises_feeds_loop | apply never_raises_emit].
Qed.

Lemma never_raises_cycle env n : never_raises (cycle env n).
Proof.
  unfold cycle. apply never_raises_bind; [apply never_raises_try_log|].
  intros _. apply never_raises_emit.
Qed.

Lemma never_raises_cycles n envs : never_raises (cycles n envs).
Proof.
  induction envs as [|env envs IH]; cbn [cycles]; [by intros w|].
  apply never_raises_bind; [apply never_raises_cycle | intros _; apply IH].
Qed.

Lemma fetches_process_feed env topic f_conf w :
  fetches (events (process_feed env topic f_conf w))
  = option_list (fc_url f_conf).
Proof.
  rewrite process_feed_run. unfold feed_run.
  destruct (fc_url f_conf) as [u|]; [|done].
  destruct (feedparser_parse env u) as [es|x]; [|done].
  cbn [events option_list]. change (fetches (EvFetch u :: ?evs))
    with (u :: fetches evs).
  by rewrite fetches_dispatcher by apply emits_entries_loop.
Qed.

Lemma fetches_feeds_loop env topic feeds :
  ∀ w, fetches (events (feeds_loop env topic feeds w)) = omap fc_url feeds.
Proof.
  induction feeds as [|f feeds IH]; intros w; cbn [feeds_loop]; [done|].
  unfold bind, try_except, log, emit.
  pose proof (fetches_process_feed env topic f w) as Hf.
  destruct (process_feed env topic f w) as [[[]|x] w1 ev1];
    cbn [result world events] in *; unfold fetches in *;
    rewrite !omap_app, Hf, IH; cbn; by destruct (fc_url f).
Qed.

Lemma emits_process_config_file env file_path :
  emits main_event (process_config_file env file_path).
Proof.
  unfold process_config_file.
  apply emits_bind; [by apply emits_emit|]. intros _.
  destruct (load_config env file_path); [|by apply emits_emit].
  eapply emits_mono; [|apply emits_feeds_loop]. by intros [].
Qed.

Lemma emits_files_loop env filenames :
  emits main_event (files_loop env filenames).
Proof.
  induction filenames as [|f fs IH]; cbn [files_loop]; [apply emits_ret|].
  apply emits_bind; [apply emits_process_config_file | intros _; apply IH].
Qed.

Lemma emits_init_db P : emits P init_db.
Proof.
  unfold init_db.
  repeat (apply emits_bind; [apply emits_storage_op | intros _]).
  apply emits_storage_op.
Qed.

Lemma emits_main env : emits main_event (main env).
Proof.
  unfold main. destruct (config_dir env); [by apply emits_emit | |].
  - apply emits_bind; [apply emits_init_db | intros _; apply emits_raise].
  - apply emits_bind; [apply emits_init_db | intros _; apply emits_files_loop].
Qed.

Lemma sleeps_cycle env n w : sleeps (events (cycle env n w)) = [n].
Proof.
  assert (emits main_event (try_except (main env) (λ e, log (ErrMainLoop e))))
    as Hm.
  { apply emits_try; [apply emits_main | intros x; by apply emits_emit]. }
  pose proof (never_raises_try_log (main env) ErrMainLoop w) as Hr.
  specialize (Hm w). unfold cycle, bind.
  destruct (try_except (main env) _ w) as [r w1 ev1];
    cbn [result world events] in *. subst r. cbn [result world events emit].
  unfold sleeps. rewrite omap_app.
  by rewrite (omap_none sleep_of main_event ev1).
Qed.

Lemma sleeps_cycles n envs :
  ∀ w, sleeps (events (cycles n envs w)) = replicate (length envs) n.
Proof.
  induction envs as [|env envs IH]; intros w; cbn [cycles]; [done|].
  unfold bind. pose proof (never_raises_cycle env n w) as Hr.
  pose proof (sleeps_cycle env n w) as Hs.
  destruct (cycle env n w) as [r w1 ev1]; cbn [result world events] in *.
  subst r. cbn [events]. unfold sleeps in *.
  by rewrite omap_app, Hs, IH.
Qed.

(** ** C8: a failure of the ledger inside a feed *)

(** C8, as stated, fails: the lookup of the first entry of the first feed
    fails, the error is logged for that feed, and the two feeds of the next
    file are fetched in the same cycle. *)
Lemma ledger_failure_aborts_cycle_counterexample :
  ¬ ledger_failure_aborts_cycle Scenario.env0 600 Scenario.w_fault.
Proof.
  intros H.
  specialize (H [EvOpen "configs/alerts.json";
                 EvFetch "https://b.example/rss"]
                "B"
                (drop 3 (events (cycle Scenario.env0 600 Scenario.w_fault)))).
  assert (fetches (drop 3 (events (cycle Scenario.env0 600 Scenario.w_fault)))
          = []) as Hf by (apply H; vm_compute; reflexivity).
  assert (fetches (drop 3 (events (cycle Scenario.env0 600 Scenario.w_fault)))
          = ["https://a.example/rss"; "https://b.example/rss"]) as Hg
    by (vm_compute; reflexivity).
  rewrite Hg in Hf. discriminate Hf.
Qed.

Example fetches_after_ledger_failure :
  fetches (events (cycle Scenario.env0 600 Scenario.w_fault))
  = [ "https://b.example/rss"; "https://a.example/rss";
      "https://b.example/rss" ]
  ∧ length (dispatches (events (cycle Scenario.env0 600 Scenario.w_fault))) = 4
  ∧ result (cycle Scenario.env0 600 Scenario.w_fault) = Ok tt.
Proof. vm_compute. repeat split. Qed.

(** C8, amended. An exception raised while a feed is processed, a failure of
    the ledger included, is caught for that feed: it is logged with the name
    of the feed and the loop goes on with the next feed from the world as
    the failed feed left it. So every feed of the file is fetched, no
    exception leaves [process_config_file], the service loop never ends with
    an exception, and every cycle is followed by its sleep. *)
Theorem ledger_failure_is_contained env :
  (∀ topic f feeds w x,
     result (process_feed env topic f w) = Raise x →
     events (feeds_loop env topic (f :: feeds) w)
     = events (process_feed env topic f w)
       ++ EvLog (ErrFeed (default "Unknown" (fc_name f)) x)
       :: events (feeds_loop env topic feeds
                    (world (process_feed env topic f w))))
  ∧ (∀ topic feeds w,
       fetches (events (feeds_loop env topic feeds w)) = omap fc_url feeds)
  ∧ (∀ file_path w, result (process_config_file env file_path w) = Ok tt)
  ∧ (∀ interval envs w,
       result (service interval envs w) = Ok tt
       ∧ sleeps (events (service interval envs w))
         = replicate (length envs) interval).
Proof.
  split; [|split; [|split]].
  - intros topic f feeds w x Hx. cbn [feeds_loop].
    unfold bind, try_except, log, emit.
    destruct (process_feed env topic f w) as [r w1 ev1];
      cbn [result world events] in *. subst r. cbn [result world events].
    by rewrite <- app_assoc.
  - apply fetches_feeds_loop.
  - apply never_raises_process_config_file.
  - intros interval envs w. unfold service, bind, log, emit.
    cbn [result world events].
    pose proof (never_raises_cycles interval envs w) as Hr.
    pose proof (sleeps_cycles interval envs w) as Hs.
    destruct (cycles interval envs w) as [r w1 ev1];
      cbn [result world events] in *.
    by subst r.
Qed.

Lemma ledger_failure_is_contained_witness :
  let w := tick (tick (tick Scenario.w_fault)) in
  result (process_feed Scenario.env0 "news" Scenario.feed_a w)
  = Raise OperationalError
  ∧ events (feeds_loop Scenario.env0 "news"
              [Scenario.feed_a; Scenario.feed_b] w)
    = events (process_feed Scenario.env0 "news" Scenario.feed_a w)
      ++ EvLog (ErrFeed "A" OperationalError)
      :: events (feeds_loop Scenario.env0 "news" [Scenario.feed_b]
                   (world (process_feed Scenario.env0 "news"
                             Scenario.feed_a w))).
Proof.
  intros w.
  assert (Hx : result (process_feed Scenario.env0 "news" Scenario.feed_a w)
               = Raise OperationalError) by (vm_compute; reflexivity).
  split; [exact Hx|].
  exact (proj1 (ledger_failure_is_contained Scenario.env0) "news"
           Scenario.feed_a [Scenario.feed_b] w OperationalError Hx).
Defined.

(** ** C10: the configuration files of a cycle *)

#[export] Instance str_le_total : Total Py.str_le.
Proof. intros s1 s2. apply String.leb_total. Qed.

#[export] Instance str_le_trans : Transitive Py.str_le.
Proof.
  unfold Py.str_le, String.leb. intros s1.
  induction s1 as [|a s1 IH]; intros [|b s2] [|c s3]; cbn; try done.
  unfold Ascii.compare.
  destruct (N.compare_spec (N_of_ascii a) (N_of_ascii b)) as [Hab|Hab|Hab],
    (N.compare_spec (N_of_ascii b) (N_of_ascii c)) as [Hbc|Hbc|Hbc];
    try done.
  - rewrite Hab, Hbc, N.compare_refl. apply IH.
  - rewrite Hab. by rewrite (proj2 (N.compare_lt_iff _ _) Hbc).
  - rewrite <- Hbc. by rewrite (proj2 (N.compare_lt_iff _ _) Hab).
  - intros _ _.
    by rewrite (proj2 (N.compare_lt_iff _ _) (N.lt_trans _ _ _ Hab Hbc)).
Qed.

Lemma elem_of_config_files (names : list string) (f : string) :
  f ∈ config_files names ↔ f ∈ names ∧ Py.endswith f ".json" = true.
Proof.
  unfold config_files, Py.sorted. rewrite merge_sort_Permutation.
  rewrite !list_elem_of_In.
  apply (filter_In (λ f, Py.endswith f ".json") f names).
Qed.

Lemma init_db_run (w : World) :
  events (init_db w) = []
  ∧ (no_faults w →
     result (init_db w) = Ok tt ∧ no_faults (world (init_db w))).
Proof.
  unfold init_db, bind, storage_op. rewrite !next_fault_at.
  split.
  - destruct (fault_at w 0); [done|]. cbn [result world events].
    destruct (fault_at (tick w) 0); [done|]. cbn [result world events].
    by destruct (fault_at (tick (tick w)) 0).
  - intros Hw. rewrite (no_faults_at w 0 Hw). cbn [result world events].
    rewrite (no_faults_at (tick w) 0) by by apply no_faults_tick.
    cbn [result world events].
    rewrite (no_faults_at (tick (tick w)) 0)
      by by do 2 apply no_faults_tick.
    split; [done|]. cbn [world]. by do 3 apply no_faults_tick.
Qed.

Lemma opened_process_config_file env file_path w :
  opened (events (process_config_file env file_path w)) = [file_path].
Proof.
  unfold process_config_file, bind, emit, log. cbn [result world events].
  destruct (load_config env file_path) as [feeds|]; [|done].
  cbn [app]. change (opened (EvOpen file_path :: ?evs))
    with (file_path :: opened evs).
  by rewrite opened_source by apply emits_feeds_loop.
Qed.

Lemma opened_files_loop env filenames :
  ∀ w, opened (events (files_loop env filenames w))
       = Py.path_join (CONFIG_DIR env) <$> filenames.
Proof.
  induction filenames as [|f fs IH]; intros w; cbn [files_loop]; [done|].
  unfold bind.
  pose proof (never_raises_process_config_file env
                (Py.path_join (CONFIG_DIR env) f) w) as Hr.
  pose proof (opened_process_config_file env
                (Py.path_join (CONFIG_DIR env) f) w) as Ho.
  destruct (process_config_file env _ w) as [r w1 ev1];
    cbn [result world events] in *. subst r. cbn [events].
  unfold opened in *. by rewrite omap_app, Ho, IH.
Qed.

Lemma opened_main env names w :
  config_dir env = Listing names →
  (opened (events (main env w)) = []
   ∨ opened (events (main env w))
     = Py.path_join (CONFIG_DIR env) <$> config_files names)
  ∧ (no_faults w →
     opened (events (main env w))
     = Py.path_join (CONFIG_DIR env) <$> config_files names).
Proof.
  intros Hdir. unfold main. rewrite Hdir. unfold bind.
  destruct (init_db_run w) as [He Hok].
  destruct (init_db w) as [[[]|x] w1 ev1]; cbn [result world events] in *;
    subst ev1; cbn [app].
  - rewrite opened_files_loop. split; [by right | done].
  - split; [by left|]. intros Hw. by destruct (Hok Hw).
Qed.

Lemma files_loop_ext env names names' lc lc' filenames :
  (∀ f, f ∈ filenames →
        lc' (Py.path_join (CONFIG_DIR env) f)
        = lc (Py.path_join (CONFIG_DIR env) f)) →
  ∀ w, files_loop (with_directory env names' lc') filenames w
       = files_loop (with_directory env names lc) filenames w.
Proof.
  induction filenames as [|f fs IH]; intros Hlc w; cbn [files_loop]; [done|].
  assert (process_config_file (with_directory env names' lc')
            (Py.path_join (CONFIG_DIR env) f) w
          = process_config_file (with_directory env names lc)
              (Py.path_join (CONFIG_DIR env) f) w) as Hfile.
  { unfold process_config_file. cbn [load_config with_directory].
    rewrite (Hlc f) by constructor. reflexivity. }
  unfold bind. cbn [CONFIG_DIR with_directory]. rewrite Hfile.
  rewrite IH; [reflexivity|]. intros f' Hf'. apply Hlc. by constructor.
Qed.

(** C10. The files that a cycle processes are the names of the directory
    that end in [.json], each once, in the order of [sorted]; they are the
    only files that are opened, in that order; and the names that do not end
    in [.json], with whatever they contain, do not change the run of
    [main]. *)
Theorem only_json_files_in_sorted_order env names :
  (∀ f, f ∈ config_files names
        ↔ f ∈ names ∧ Py.endswith f ".json" = true)
  ∧ config_files names
    ≡ₚ List.filter (λ f, Py.endswith f ".json") names
  ∧ StronglySorted Py.str_le (config_files names)
  ∧ (∀ w, config_dir env = Listing names →
       (opened (events (main env w)) = []
        ∨ opened (events (main env w))
          = Py.path_join (CONFIG_DIR env) <$> config_files names)
       ∧ (no_faults w →
          opened (events (main env w))
          = Py.path_join (CONFIG_DIR env) <$> config_files names))
  ∧ (∀ names' lc lc' w,
       List.filter (λ f, Py.endswith f ".json") names'
       = List.filter (λ f, Py.endswith f ".json") names →
       (∀ f, f ∈ names → Py.endswith f ".json" = true →
             lc' (Py.path_join (CONFIG_DIR env) f)
             = lc (Py.path_join (CONFIG_DIR env) f)) →
       main (with_directory env names' lc') w
       = main (with_directory env names lc) w).
Proof.
  split; [apply elem_of_config_files|].
  split; [apply merge_sort_Permutation|].
  split; [apply StronglySorted_merge_sort; apply _|].
  split; [intros w Hdir; by apply opened_main|].
  intros names' lc lc' w Hnames Hlc. unfold main.
  cbn [config_dir with_directory]. unfold bind.
  destruct (init_db w) as [[[]|x] w1 ev1]; cbn [result world events]; [|done].
  unfold config_files. rewrite Hnames. fold (config_files names).
  rewrite (files_loop_ext env names names' lc lc'); [done|].
  intros f [Hf Hjson]%elem_of_config_files. by apply Hlc.
Qed.

Lemma only_json_files_in_sorted_order_witness :
  let names := ["news.json"; "alerts.json"] in
  let names' := ["notes.txt"; "news.json"; "alerts.json"; "old.json.bak"] in
  let lc := load_config Scenario.env0 in
  let lc' := λ p, if bool_decide (p = "configs/notes.txt")
                  then Some [Scenario.feed_a]
                  else load_config Scenario.env0 p in
  List.filter (λ f, Py.endswith f ".json") names'
  = List.filter (λ f, Py.endswith f ".json") names
  ∧ (∀ f, f ∈ names → Py.endswith f ".json" = true →
          lc' (Py.path_join "configs" f) = lc (Py.path_join "configs" f))
  ∧ main (with_directory Scenario.env0 names' lc') Scenario.w0
    = main (with_directory Scenario.env0 names lc) Scenario.w0.
Proof.
  intros names names' lc lc'.
  assert (Hfilter : List.filter (λ f, Py.endswith f ".json") names'
                    = List.filter (λ f, Py.endswith f ".json") names)
    by (vm_compute; reflexivity).
  assert (Hlc : ∀ f, f ∈ names → Py.endswith f ".json" = true →
                     lc' (Py.path_join "configs" f)
                     = lc (Py.path_join "configs" f)).
  { intros f Hf _. subst names lc lc'.
    apply elem_of_cons in Hf as [->|Hf]; [vm_compute; reflexivity|].
    apply elem_of_cons in Hf as [->|Hf]; [vm_compute; reflexivity|].
    by apply elem_of_nil in Hf. }
  split; [exact Hfilter|]. split; [exact Hlc|].
  exact (proj2 (proj2 (proj2 (proj2
           (only_json_files_in_sorted_order Scenario.env0 names))))
           names' lc lc' Scenario.w0 Hfilter Hlc).
Defined.

Example sorted_json_files_of_scenario :
  opened (events (main Scenario.env0 Scenario.w0))
  = ["configs/alerts.json"; "configs/news.json"].
Proof. vm_compute. reflexivity. Qed.

(** ** The ledger only grows *)

Lemma ledger_extends_same (w w' : World) :
  ledger w' = ledger w → ledger_extends w w'.
Proof. intros Hl. unfold ledger_extends. rewrite Hl. by split. Qed.

Lemma ledger_extends_trans (w1 w2 w3 : World) :
  ledger_extends w1 w2 → ledger_extends w2 w3 → ledger_extends w1 w3.
Proof. intros [H1 N1] [H2 N2]. split; [by etrans | auto]. Qed.

Lemma append_only_ret {A} (a : A) : append_only (ret a).
Proof. intros w. by apply ledger_extends_same. Qed.

Lemma append_only_emit (ev : Event) : append_only (emit ev).
Proof. intros w. by apply ledger_extends_same. Qed.

Lemma append_only_storage_op : append_only storage_op.
Proof. intros w. by apply ledger_extends_same. Qed.

Lemma append_only_bind {A B} (m : M A) (k : A → M B) :
  append_only m → (∀ a, append_only (k a)) → append_only (bind m k).
Proof.
  intros Hm Hk w. unfold bind. specialize (Hm w).
  destruct (m w) as [[a|x] w1 ev1]; cbn [result world events] in *; [|done].
  eapply ledger_extends_trans; [exact Hm | apply Hk].
Qed.

Lemma append_only_try {A} (m : M A) (h : Exn → M A) :
  append_only m → (∀ x, append_only (h x)) → append_only (try_except m h).
Proof.
  intros Hm Hh w. unfold try_except. specialize (Hm w).
  destruct (m w) as [[a|x] w1 ev1]; cbn [result world events] in *; [done|].
  eapply ledger_extends_trans; [exact Hm | apply Hh].
Qed.

Lemma append_only_process_feed env topic f_conf :
  append_only (process_feed env topic f_conf).
Proof.
  intros w.
  destruct (process_feed_inv env topic f_conf w)
    as [_ _ (rows & Hrows & Hfresh & Hnd & _)].
  split; rewrite Hrows; [by apply prefix_app_r|].
  intros Hw. apply NoDup_app. split; [done|]. split; [|done].
  intros h Hh Hin. rewrite Forall_forall in Hfresh. by apply (Hfresh h).
Qed.

Lemma append_only_feeds_loop env topic feeds :
  append_only (feeds_loop env topic feeds).
Proof.
  induction feeds as [|f feeds IH]; cbn [feeds_loop]; [apply append_only_ret|].
  apply append_only_bind; [|intros _; apply IH].
  apply append_only_try; [apply append_only_process_feed|].
  intros x. apply append_only_emit.
Qed.

Lemma append_only_process_config_file env file_path :
  append_only (process_config_file env file_path).
Proof.
  unfold process_config_file.
  apply append_only_bind; [apply append_only_emit | intros _].
  destruct (load_config env file_path);
    [apply append_only_feeds_loop | apply append_only_emit].
Qed.

Lemma append_only_files_loop env filenames :
  append_only (files_loop env filenames).
Proof.
  induction filenames as [|f fs IH]; cbn [files_loop];
    [apply append_only_ret|].
  apply append_only_bind;
    [apply append_only_process_config_file | intros _; apply IH].
Qed.

Lemma append_only_init_db : append_only init_db.
Proof.
  unfold init_db.
  repeat (apply append_only_bind; [apply append_only_storage_op | intros _]).
  apply append_only_storage_op.
Qed.

Lemma append_only_cycle env n : append_only (cycle env n).
Proof.
  unfold cycle. apply append_only_bind; [|intros _; apply append_only_emit].
  apply append_only_try; [|intros x; apply append_only_emit].
  unfold main. destruct (config_dir env); [apply append_only_emit | |].
  - apply append_only_bind; [apply append_only_init_db | intros _].
    intros w. by apply ledger_extends_same.
  - apply append_only_bind; [apply append_only_init_db | intros _].
    apply append_only_files_loop.
Qed.

Lemma append_only_cycles n envs : append_only (cycles n envs).
Proof.
  induction envs as [|env envs IH]; cbn [cycles]; [apply append_only_ret|].
  apply append_only_bind; [apply append_only_cycle | intros _; apply IH].
Qed.

(** X1. Over any number of cycles of the service, whatever the feeds, the
    configuration files, the storage and the endpoint do, the rows that the
    ledger had at the start stay in their places, and when no fingerprint
    was twice in the ledger at the start, none is at the end: rows are only
    appended, and only fingerprints that the ledger lacks. *)
Theorem ledger_is_append_only (n : nat) (envs : list Env) (w : World) :
  ledger w `prefix_of` ledger (world (service n envs w))
  ∧ (NoDup (ledger w) → NoDup (ledger (world (service n envs w)))).
Proof.
  revert w. change (append_only (service n envs)). unfold service.
  apply append_only_bind; [apply append_only_emit|].
  intros _. apply append_only_cycles.
Qed.

Example ledger_after_two_cycles :
  ledger (world (service 600 [Scenario.env0; Scenario.env0] Scenario.w_seen))
  = ledger Scenario.w_seen
    ++ (entry_hash "alerts" <$> [Scenario.entry_of_link "https://b.example/"])
    ++ (entry_hash "news"
          <$> [Scenario.entry_of_id "a2"; Scenario.entry_of_id "a3";
               Scenario.entry_of_id "a4";
               Scenario.entry_of_link "https://b.example/";
               Scenario.entry_of_id "a5"]).
Proof. vm_compute. reflexivity. Qed.

(** ** The dispatch attempts of a feed, one by one *)

Lemma entry_run_dispatch env topic f_conf prio k e w :
  let r := entry_run env topic f_conf prio k e w in
  (dispatches (events r) = [] ∧ ∀ k', result r = Ok k' → k' = k)
  ∨ (∃ d, dispatches (events r) = [d] ∧ dispatch_entry d = e
          ∧ dispatch_at env topic f_conf prio k d
          ∧ ∀ k', result r = Ok k' → k' = k + 1).
Proof.
  unfold entry_run. cbv zeta.
  destruct (fault_at w 0); [left; by split|].
  case_bool_decide; [left; split; [done|]; by intros ? [= <-]|].
  destruct (py_int prio) as [p|x] eqn:Hp; [|left; by split].
  destruct (fc_name f_conf) as [name|] eqn:Hn; [|left; by split].
  destruct (clean_html_content env (content_of e) e) as [c|x] eqn:Hc;
    [|left; by split].
  right.
  exists (topic, e,
          ntfy_request env e name (fc_icon f_conf) topic prio (delay_for p k)
            c).
  assert (dispatch_at env topic f_conf prio k
            (topic, e,
             ntfy_request env e name (fc_icon f_conf) topic prio
               (delay_for p k) c)) as Hat.
  { exists p, name, c. by repeat split. }
  destruct (fault_at w 1), (fault_at w 2); cbn [result events];
    rewrite dispatches_dispatch_events;
    (split; [reflexivity|]); (split; [reflexivity|]);
    (split; [exact Hat|]); by intros k' [= <-].
Qed.

Lemma entries_loop_dispatched env topic f_conf prio es :
  ∀ k w,
    let ds := dispatches (events (entries_loop env topic f_conf prio es k w)) in
    Forall2 (dispatch_at env topic f_conf prio) (seq k (length ds)) ds
    ∧ (dispatch_entry <$> ds) `sublist_of` es.
Proof.
  induction es as [|e es IH]; intros k w; cbn [entries_loop].
  { split; [constructor | done]. }
  destruct (3 <=? k).
  { split; [constructor | apply sublist_nil_l]. }
  unfold bind. rewrite process_entry_run.
  pose proof (entry_run_dispatch env topic f_conf prio k e w) as Hstep.
  cbv zeta in Hstep.
  destruct (entry_run env topic f_conf prio k e w) as [[k1|x] w1 ev1];
    cbn [result world events] in *.
  - specialize (IH k1 w1). cbv zeta in IH. destruct IH as [IH1 IH2].
    rewrite dispatches_app.
    destruct Hstep as [[Hd Hk] | (d & Hd & He & Hat & Hk)]; rewrite Hd.
    + rewrite <- (Hk k1 eq_refl). cbn [app].
      split; [done | by apply sublist_cons].
    + pose proof (Hk k1 eq_refl) as Hk1. rewrite Nat.add_1_r in Hk1.
      subst k1. cbn [app length seq fmap list_fmap]. rewrite He.
      split; [by constructor | by apply sublist_skip].
  - destruct Hstep as [[Hd _] | (d & Hd & He & Hat & _)]; rewrite Hd.
    + split; [constructor | apply sublist_nil_l].
    + cbn [length seq fmap list_fmap]. rewrite He.
      split; [by repeat constructor|].
      apply sublist_skip, sublist_nil_l.
Qed.

Lemma entries_loop_distinct env topic f_conf prio es :
  ∀ k w,
    NoDup (dispatch_hash
             <$> dispatches
                   (events (entries_loop env topic f_conf prio es k w))).
Proof.
  induction es as [|e es IH]; intros k w; cbn [entries_loop].
  { constructor. }
  destruct (3 <=? k); [constructor|].
  unfold bind. rewrite process_entry_run.
  destruct (entry_run_inv env topic f_conf prio k e w) as [Hd _ Hc].
  destruct (entry_run env topic f_conf prio k e w) as [[k1|x] w1 ev1];
    cbn [result world events] in *.
  - destruct (Hc k1 eq_refl) as [_ Hrow].
    destruct (entries_loop_inv env topic f_conf prio es k1 w1)
      as [_ _ Huns _].
    specialize (IH k1 w1). rewrite dispatches_app.
    destruct Hd as [Hd | [_ [req Hd]]]; rewrite Hd; [done|].
    rewrite Hd in Hrow. cbn [app fmap list_fmap].
    constructor; [|done].
    intros (d & Heq & Hin)%list_elem_of_fmap.
    rewrite Forall_forall in Huns. destruct (Huns d Hin) as [_ Hnew].
    apply Hnew. rewrite Hrow by done. apply elem_of_app. right.
    apply list_elem_of_singleton. by rewrite <- Heq.
  - destruct Hd as [Hd | [_ [req Hd]]]; rewrite Hd;
      [constructor | apply NoDup_singleton].
Qed.

Lemma process_feed_dispatches env topic f_conf w :
  dispatches (events (process_feed env topic f_conf w)) = []
  ∨ ∃ u es,
      fc_url f_conf = Some u ∧ feedparser_parse env u = Ok es
      ∧ dispatches (events (process_feed env topic f_conf w))
        = dispatches
            (events
               (entries_loop env topic f_conf
                  (default DEFAULT_PRIORITY (fc_priority f_conf)) es 0 w)).
Proof.
  rewrite process_feed_run. unfold feed_run.
  destruct (fc_url f_conf) as [u|]; [|by left].
  destruct (feedparser_parse env u) as [es|x] eqn:Hparse; [|by left].
  right. by exists u, es.
Qed.

Lemma dispatch_at_delay env topic f_conf prio p k d :
  py_int prio = Ok p → dispatch_at env topic f_conf prio k d →
  dispatch_delay d = delay_for p k.
Proof.
  intros Hp (p' & name & c & Hp' & _ & _ & Hd).
  rewrite Hp in Hp'. injection Hp' as <-.
  rewrite Hd. unfold dispatch_delay. cbn [snd]. apply header_delay_request.
Qed.

Lemma dispatch_at_delays env topic f_conf prio p ds :
  py_int prio = Ok p →
  ∀ k, Forall2 (dispatch_at env topic f_conf prio) (seq k (length ds)) ds →
       dispatch_delay <$> ds = delay_for p <$> seq k (length ds).
Proof.
  intros Hp. induction ds as [|d ds IH]; intros k Hat; [done|].
  cbn [length seq fmap list_fmap] in *.
  apply Forall2_cons in Hat as [Hd Hat].
  f_equal; [by eapply dispatch_at_delay | by apply IH].
Qed.

(** X2. When the priority of a feed is an integer [p], the [Delay] headers
    of the dispatch attempts of one cycle are, in order, the delays of the
    tier [p] at the positions 0, 1, 2, ...: the position counts the attempts
    made before, not the entries read, so entries that are skipped leave no
    gap; and from tier 5 on no attempt carries a [Delay] header. This holds
    whatever the ledger, the storage and the endpoint do. *)
Theorem delay_follows_position env topic f_conf w p :
  py_int (default DEFAULT_PRIORITY (fc_priority f_conf)) = Ok p →
  let ds := dispatches (events (process_feed env topic f_conf w)) in
  dispatch_delay <$> ds = delay_for p <$> seq 0 (length ds)
  ∧ ((5 ≤ p)%Z → Forall (λ d, dispatch_delay d = None) ds).
Proof.
  intros Hp ds.
  assert (dispatch_delay <$> ds = delay_for p <$> seq 0 (length ds)) as Heq.
  { subst ds.
    destruct (process_feed_dispatches env topic f_conf w)
      as [-> | (u & es & _ & _ & ->)]; [done|].
    destruct (entries_loop_dispatched env topic f_conf
                (default DEFAULT_PRIORITY (fc_priority f_conf)) es 0 w)
      as [Hat _].
    by eapply dispatch_at_delays. }
  split; [exact Heq|]. intros H5.
  apply Forall_forall. intros d Hd.
  assert (dispatch_delay d ∈ dispatch_delay <$> ds) as Hin
    by by apply list_elem_of_fmap_2.
  rewrite Heq in Hin. apply list_elem_of_fmap in Hin as (k & -> & _).
  unfold delay_for. by rewrite (proj2 (Z.ltb_ge p 5) H5).
Qed.

Lemma delay_follows_position_witness :
  py_int (default DEFAULT_PRIORITY (fc_priority Scenario.feed_a)) = Ok 3%Z
  ∧ dispatch_delay
      <$> dispatches
            (events (process_feed Scenario.env0 "news" Scenario.feed_a
                       Scenario.w_seen))
    = delay_for 3
        <$> seq 0
              (length
                 (dispatches
                    (events (process_feed Scenario.env0 "news"
                               Scenario.feed_a Scenario.w_seen)))).
Proof.
  assert (Hp : py_int (default DEFAULT_PRIORITY
                         (fc_priority Scenario.feed_a)) = Ok 3%Z)
    by reflexivity.
  split; [exact Hp|].
  exact (proj1 (delay_follows_position Scenario.env0 "news" Scenario.feed_a
                  Scenario.w_seen 3 Hp)).
Defined.

Example delays_skip_no_position :
  (dispatch_entry
     <$> dispatches
           (events (process_feed Scenario.env0 "news" Scenario.feed_a
                      Scenario.w_seen)))
  = Scenario.entry_of_id <$> ["a2"; "a3"; "a4"]
  ∧ (dispatch_delay
       <$> dispatches
             (events (process_feed Scenario.env0 "news" Scenario.feed_a
                        Scenario.w_seen)))
    = [Some "5m"; Some "10m"; Some "15m"].
Proof. vm_compute. by split. Qed.

(** X3. The dispatch attempts that one feed gets in one cycle are entries
    of the fetched feed, in the order of the feed and each entry of the feed
    at most once, and no two of them have the same fingerprint, whatever the
    ledger, the storage and the endpoint do. *)
Theorem dispatches_in_feed_order env topic f_conf w u es :
  fc_url f_conf = Some u →
  feedparser_parse env u = Ok es →
  let ds := dispatches (events (process_feed env topic f_conf w)) in
  (dispatch_entry <$> ds) `sublist_of` es
  ∧ NoDup (dispatch_hash <$> ds).
Proof.
  intros Hu Hparse ds. subst ds.
  destruct (process_feed_dispatches env topic f_conf w)
    as [-> | (u' & es' & Hu' & Hparse' & ->)].
  { split; [apply sublist_nil_l | constructor]. }
  rewrite Hu in Hu'. injection Hu' as <-.
  rewrite Hparse in Hparse'. injection Hparse' as <-.
  split; [|apply entries_loop_distinct].
  apply (entries_loop_dispatched env topic f_conf
           (default DEFAULT_PRIORITY (fc_priority f_conf)) es 0 w).
Qed.

Lemma dispatches_in_feed_order_witness :
  fc_url Scenario.feed_b = Some "https://b.example/rss"
  ∧ feedparser_parse Scenario.env0 "https://b.example/rss"
    = Ok Scenario.entries_b
  ∧ (dispatch_entry
       <$> dispatches
             (events (process_feed Scenario.env0 "news" Scenario.feed_b
                        Scenario.w0)))
    `sublist_of` Scenario.entries_b
  ∧ NoDup (dispatch_hash
             <$> dispatches
                   (events (process_feed Scenario.env0 "news"
                              Scenario.feed_b Scenario.w0))).
Proof.
  assert (Hu : fc_url Scenario.feed_b = Some "https://b.example/rss")
    by reflexivity.
  assert (Hparse : feedparser_parse Scenario.env0 "https://b.example/rss"
                   = Ok Scenario.entries_b) by reflexivity.
  split; [exact Hu|]. split; [exact Hparse|].
  exact (dispatches_in_feed_order Scenario.env0 "news" Scenario.feed_b
           Scenario.w0 "https://b.example/rss" Scenario.entries_b Hu Hparse).
Defined.

(** ** Feeds that cannot notify *)




Example misconfigured_feed_logs_when_new :
  let f_conf := {| fc_name := Some "A";
                   fc_url := Some "https://a.example/rss";
                   fc_priority := Some JNull; fc_icon := None |} in
  events (feeds_loop Scenario.env0 "news" [f_conf] Scenario.w0)
  = [EvFetch "https://a.example/rss"; EvLog (ErrFeed "A" TypeError)].
Proof. vm_compute. reflexivity. Qed.

(** ** The attempts of a whole cycle *)

Lemma dispatches_feeds_loop env topic feeds :
  ∀ w, length (dispatches (events (feeds_loop env topic feeds w)))
       ≤ 3 * length feeds.
Proof.
  induction feeds as [|f feeds IH]; intros w; cbn [feeds_loop].
  { cbn. lia. }
  unfold bind, try_except, log, emit.
  destruct (process_feed_inv env topic f w) as [Hcap _ _].
  destruct (process_feed env topic f w) as [[[]|x] w1 ev1];
    cbn [result world events] in *.
  - rewrite dispatches_app, length_app. specialize (IH w1).
    cbn [length]. lia.
  - rewrite !dispatches_app, !length_app. specialize (IH w1).
    change (dispatches [EvLog ?r]) with (@nil (string * Entry * Request)).
    cbn [length]. lia.
Qed.

Lemma dispatches_process_config_file env file_path w :
  length (dispatches (events (process_config_file env file_path w)))
  ≤ 3 * length (default [] (load_config env file_path)).
Proof.
  unfold process_config_file, bind, emit, log. cbn [result world events].
  destruct (load_config env file_path) as [feeds|]; cbn [default app].
  - change (dispatches (EvOpen file_path :: ?evs)) with (dispatches evs).
    apply dispatches_feeds_loop.
  - cbn. lia.
Qed.

Lemma dispatches_files_loop env filenames :
  ∀ w, length (dispatches (events (files_loop env filenames w)))
       ≤ 3 * length
               (filenames
                  ≫= λ f, default []
                            (load_config env
                               (Py.path_join (CONFIG_DIR env) f))).
Proof.
  induction filenames as [|f fs IH]; intros w; cbn [files_loop].
  { cbn. lia. }
  unfold bind.
  pose proof (dispatches_process_config_file env
                (Py.path_join (CONFIG_DIR env) f) w) as Hf.
  destruct (process_config_file env _ w) as [[[]|x] w1 ev1];
    cbn [result world events] in *.
  - rewrite dispatches_app, length_app. specialize (IH w1).
    rewrite bind_cons, length_app. lia.
  - rewrite bind_cons, length_app. lia.
Qed.

(** X5. One cycle makes at most three dispatch attempts for each feed
    descriptor of the configuration files that it processes, whatever the
    feeds contain and whatever the storage and the endpoint do: the number
    of requests of a cycle is bounded by the configuration alone. *)
Theorem cycle_dispatch_bound env n w :
  length (dispatches (events (cycle env n w)))
  ≤ 3 * length (cycle_feeds env).
Proof.
  assert (length (dispatches (events (main env w)))
          ≤ 3 * length (cycle_feeds env)) as Hmain.
  { unfold main, cycle_feeds, cycle_files.
    destruct (config_dir env) as [| |names]; [cbn; lia | |].
    - unfold bind. destruct (init_db_run w) as [He _].
      destruct (init_db w) as [[[]|x] w1 ev1];
        cbn [result world events] in *; subst ev1; cbn; lia.
    - unfold bind. destruct (init_db_run w) as [He _].
      destruct (init_db w) as [[[]|x] w1 ev1];
        cbn [result world events] in *; subst ev1;
        [apply dispatches_files_loop | cbn; lia]. }
  unfold cycle, bind, try_except, log, emit.
  destruct (main env w) as [[[]|x] w1 ev1]; cbn [result world events] in *;
    rewrite ?dispatches_app, ?length_app;
    change (dispatches [EvSleep n]) with (@nil (string * Entry * Request));
    change (dispatches [EvLog ?r]) with (@nil (string * Entry * Request));
    cbn [length]; lia.
Qed.

Example cycle_dispatch_bound_of_scenario :
  length (cycle_feeds Scenario.env0) = 3
  ∧ length (dispatches (events (cycle Scenario.env0 600 Scenario.w0))) = 5.
Proof. vm_compute. by split. Qed.

(** ** A cycle that cannot start *)

(** X6. When the configuration directory does not exist, a cycle logs that
    and sleeps: the storage is not opened and the world is unchanged. When
    the directory exists and one of the three storage operations of
    [init_db] fails, the cycle logs the storage error of the main loop and
    sleeps: no file is opened, no feed fetched, no request made, the ledger
    and the endpoint are untouched, and the cycle returns normally. *)
Theorem cycle_that_cannot_start env n w :
  (config_dir env = Missing →
   cycle env n w
   = {| result := Ok tt; world := w;
        events := [EvLog (ErrNoConfigDir (CONFIG_DIR env)); EvSleep n] |})
  ∧ (config_dir env ≠ Missing →
     fault_at w 0 = true ∨ fault_at w 1 = true ∨ fault_at w 2 = true →
     result (cycle env n w) = Ok tt
     ∧ events (cycle env n w)
       = [EvLog (ErrMainLoop OperationalError); EvSleep n]
     ∧ ledger (world (cycle env n w)) = ledger w
     ∧ net (world (cycle env n w)) = net w).
Proof.
  split.
  { intros Hdir. unfold cycle, main. by rewrite Hdir. }
  intros Hdir Hfault.
  assert (∃ w1, init_db w
                = {| result := Raise OperationalError; world := w1;
                     events := [] |}
                ∧ ledger w1 = ledger w ∧ net w1 = net w)
    as (w1 & Hinit & Hl & Hn).
  { unfold init_db, bind, storage_op. rewrite !next_fault_at.
    destruct (fault_at w 0) eqn:H0; cbn [result world events];
      [by eexists|].
    rewrite fault_at_tick.
    destruct (fault_at w 1) eqn:H1; cbn [result world events];
      [by eexists|].
    rewrite !fault_at_tick.
    destruct (fault_at w 2) eqn:H2; cbn [result world events];
      [by eexists|].
    by destruct Hfault as [? | [? | ?]]. }
  assert (main env w
          = {| result := Raise OperationalError; world := w1;
               events := [] |}) as Hmain.
  { unfold main. destruct (config_dir env); [done | |];
      by eapply bind_raise. }
  unfold cycle, bind, try_except. rewrite Hmain. by cbn.
Qed.

Example cycle_that_cannot_start_of_scenario :
  events (cycle Scenario.env0 600
            {| ledger := []; db_faults := [false; true]; net := [] |})
  = [EvLog (ErrMainLoop OperationalError); EvSleep 600].
Proof. vm_compute. reflexivity. Qed.

(** ** A backlog is worked off three entries per cycle *)

Lemma entries_loop_skip_seen env topic f_conf prio seen rest k :
  k < 3 →
  ∀ w,
    no_faults w →
    Forall (λ e, entry_hash topic e ∈ ledger w) seen →
    ∃ w',
      entries_loop env topic f_conf prio (seen ++ rest) k w
      = entries_loop env topic f_conf prio rest k w'
      ∧ ledger w' = ledger w ∧ no_faults w'.
Proof.
  intros Hk. induction seen as [|e seen IH]; intros w Hw Hseen.
  { by exists w. }
  apply Forall_cons in Hseen as [He Hseen].
  destruct (IH (tick w)) as (w' & Heq & Hl & Hw');
    [by apply no_faults_tick | done |].
  exists w'. split; [|by split].
  cbn [app entries_loop]. rewrite (proj2 (Nat.leb_gt 3 k) Hk).
  unfold bind. rewrite process_entry_run. unfold entry_run.
  rewrite (no_faults_at w 0 Hw), bool_decide_true by done.
  cbn [result world events]. rewrite Heq.
  by destruct (entries_loop env topic f_conf prio rest k w').
Qed.

Lemma take_min_length {A} (n : nat) (l : list A) :
  take (min n (length l)) l = take n l.
Proof.
  destruct (Nat.le_ge_cases n (length l)) as [H|H].
  - by rewrite Nat.min_l.
  - rewrite Nat.min_r by done. by rewrite !take_ge.
Qed.

(** X7. A backlog is worked off in feed order, three entries per cycle and
    nothing is lost: when the first [m] entries of a feed are in the ledger
    and the others are new, with pairwise different fingerprints, a cycle
    without storage failure dispatches exactly the next three entries (all
    the remaining ones when they are fewer), records them, and leaves the
    feed in the same situation with [m + 3] entries done, whatever the
    endpoint answers. *)
Theorem backlog_three_per_cycle env topic f_conf es m w :
  backlog env topic f_conf es m w →
  let r := process_feed env topic f_conf w in
  result r = Ok tt
  ∧ dispatch_entry <$> dispatches (events r) = take 3 (drop m es)
  ∧ ledger (world r) = ledger w ++ (entry_hash topic <$> take 3 (drop m es))
  ∧ backlog env topic f_conf es (m + 3) (world r).
Proof.
  intros [(u & Hu & Hparse) [p Hp] [name Hname] Hclean Hw Hseen Hnew Hnd].
  cbv zeta. rewrite process_feed_run. unfold feed_run.
  rewrite Hu, Hparse. cbn zeta.
  destruct (entries_loop_skip_seen env topic f_conf
              (default DEFAULT_PRIORITY (fc_priority f_conf))
              (take m es) (drop m es) 0 ltac:(lia) w Hw Hseen)
    as (w' & Heq & Hl & Hw').
  rewrite take_drop in Heq. rewrite Heq. rewrite <- Hl in Hnew.
  destruct (entries_loop_fresh env topic f_conf _ p name Hp Hname
              (drop m es) 0 w' Hw' Hnd Hnew)
    as (Hres & Hled & Hnf & Hdisp & _).
  { apply Forall_forall. intros e He. rewrite Forall_forall in Hclean.
    apply Hclean. eapply elem_of_drop_list. eassumption. }
  rewrite Nat.sub_0_r, take_min_length in Hled, Hdisp.
  cbn [result world events]. rewrite Hres.
  change (dispatches (EvFetch u :: ?evs)) with (dispatches evs).
  assert (dispatch_entry
            <$> dispatches
                  (events
                     (entries_loop env topic f_conf
                        (default DEFAULT_PRIORITY (fc_priority f_conf))
                        (drop m es) 0 w'))
          = take 3 (drop m es)) as Hsent.
  { apply (f_equal (fmap snd)) in Hdisp.
    rewrite <- !list_fmap_compose in Hdisp.
    etrans; [exact Hdisp|]. apply list_fmap_id. }
  rewrite Hled, Hl.
  split; [done|]. split; [exact Hsent|]. split; [done|].
  split; eauto.
  - rewrite Hled, Hl, <- take_take_drop. apply Forall_app. split.
    + eapply Forall_impl; [exact Hseen|]. intros e He.
      apply elem_of_app. by left.
    + apply Forall_forall. intros e He. apply elem_of_app. right.
      by apply list_elem_of_fmap_2.
  - rewrite Hled, Hl, <- drop_drop. apply Forall_forall. intros e He.
    rewrite not_elem_of_app. rewrite Forall_forall in Hnew. split.
    + rewrite <- Hl. apply Hnew. eapply elem_of_drop_list. eassumption.
    + intros Hin. apply list_elem_of_fmap in Hin as (e' & Heq' & He').
      rewrite <- (take_drop 3 (drop m es)), fmap_app in Hnd.
      apply NoDup_app in Hnd as (_ & Hdisj & _).
      apply (Hdisj (entry_hash topic e')); [by apply list_elem_of_fmap_2|].
      rewrite <- Heq'. by apply list_elem_of_fmap_2.
  - rewrite <- drop_drop.
    rewrite <- (take_drop 3 (drop m es)), fmap_app in Hnd.
    by apply NoDup_app in Hnd as (_ & _ & Hnd).
Qed.

Lemma backlog_three_per_cycle_witness :
  backlog Scenario.env0 "news" Scenario.feed_a Scenario.entries_a 1
    Scenario.w_seen
  ∧ dispatch_entry
      <$> dispatches
            (events (process_feed Scenario.env0 "news" Scenario.feed_a
                       Scenario.w_seen))
    = take 3 (drop 1 Scenario.entries_a)
  ∧ backlog Scenario.env0 "news" Scenario.feed_a Scenario.entries_a 4
      (world (process_feed Scenario.env0 "news" Scenario.feed_a
                Scenario.w_seen)).
Proof.
  assert (Hb : backlog Scenario.env0 "news" Scenario.feed_a
                 Scenario.entries_a 1 Scenario.w_seen).
  { split.
    - by exists "https://a.example/rss".
    - by exists 3%Z.
    - by exists "A".
    - apply Forall_forall. intros e _. by eexists.
    - constructor.
    - refine (bool_decide_unpack _ _). vm_compute. exact I.
    - refine (bool_decide_unpack _ _). vm_compute. exact I.
    - refine (bool_decide_unpack _ _). vm_compute. exact I. }
  split; [exact Hb|].
  pose proof (backlog_three_per_cycle Scenario.env0 "news" Scenario.feed_a
                Scenario.entries_a 1 Scenario.w_seen Hb) as (_ & H2 & _ & H4).
  by split.
Defined.

(** ** [int] after [str] *)

Lemma parse_digits_uint (d : uint) :
  ∀ acc,
    Py.parse_digits (list_ascii_of_string (NilEmpty.string_of_uint d)) acc true
    = Some (uint_value d acc).
Proof.
  induction d; intros acc; cbn [NilEmpty.string_of_uint list_ascii_of_string
    Py.parse_digits uint_value]; [done|..];
    match goal with
    | |- context [Py.digit_of ?c] =>
        let v := eval vm_compute in (Py.digit_of c) in
        change (Py.digit_of c) with v
    end; cbv iota beta; apply IHd.
Qed.

Lemma uint_value_pos (d : uint) :
  ∀ acc, uint_value d (N.pos acc) = N.pos (Pos.of_uint_acc d acc).
Proof.
  induction d; intros acc; cbn [uint_value Pos.of_uint_acc]; [done|..];
    rewrite <- IHd; f_equal; lia.
Qed.

Lemma uint_value_0 (d : uint) : uint_value d 0 = Pos.of_uint d.
Proof.
  induction d; cbn [uint_value Pos.of_uint]; [done | exact IHd |..];
    change (0 * 10 + ?k)%N with k; apply uint_value_pos.
Qed.

Lemma digits_no_space (d : uint) :
  Forall (λ c, Py.is_space c = false)
    (list_ascii_of_string (NilEmpty.string_of_uint d)).
Proof.
  induction d; cbn [NilEmpty.string_of_uint list_ascii_of_string];
    constructor; done.
Qed.

Lemma lstrip_no_space (cs : list ascii) :
  Forall (λ c, Py.is_space c = false) cs → Py.lstrip cs = cs.
Proof. destruct 1 as [|c cs Hc _]; cbn [Py.lstrip]; [done | by rewrite Hc]. Qed.

Lemma strip_no_space (cs : list ascii) :
  Forall (λ c, Py.is_space c = false) cs → Py.strip cs = cs.
Proof.
  intros H. unfold Py.strip. rewrite (lstrip_no_space cs H).
  rewrite lstrip_no_space; [apply rev_involutive|].
  apply Forall_forall. intros c Hc. rewrite Forall_forall in H. apply H.
  apply list_elem_of_In. apply in_rev. by apply list_elem_of_In.
Qed.

Lemma parse_first_digit (d : uint) :
  d ≠ Nil →
  match list_ascii_of_string (NilEmpty.string_of_uint d) with
  | "+"%char :: _ | "-"%char :: _ | [] => False
  | _ => True
  end
  ∧ Py.parse_digits (list_ascii_of_string (NilEmpty.string_of_uint d)) 0 false
    = Some (uint_value d 0).
Proof.
  intros Hd. destruct d; [done|..];
    (split; [exact I|]);
    cbn [NilEmpty.string_of_uint list_ascii_of_string Py.parse_digits
         uint_value];
    match goal with
    | |- context [Py.digit_of ?c] =>
        let v := eval vm_compute in (Py.digit_of c) in
        change (Py.digit_of c) with v
    end; cbv iota beta; apply parse_digits_uint.
Qed.

Lemma to_uint_not_nil (p : positive) : Pos.to_uint p ≠ Nil.
Proof.
  intros H. pose proof (DecimalPos.Unsigned.of_to p) as Hp.
  rewrite H in Hp. discriminate Hp.
Qed.

Lemma int_of_str_of_Z (z : Z) : Py.int_of_str (Py.str_of_Z z) = Some z.
Proof.
  unfold Py.str_of_Z. destruct z as [|p|p]; [reflexivity | |].
  - cbn [Z.to_int NilZero.string_of_int].
    pose proof (to_uint_not_nil p) as Hnil.
    pose proof (DecimalPos.Unsigned.of_to p) as Hp.
    assert (NilZero.string_of_uint (Pos.to_uint p)
            = NilEmpty.string_of_uint (Pos.to_uint p)) as ->
      by by destruct (Pos.to_uint p).
    unfold Py.int_of_str.
    rewrite strip_no_space by apply digits_no_space.
    destruct (parse_first_digit (Pos.to_uint p) Hnil) as [Hfirst Hparse].
    assert (Z.of_N <$> Py.parse_digits
              (list_ascii_of_string
                 (NilEmpty.string_of_uint (Pos.to_uint p))) 0 false
            = Some (Z.pos p)) as Hval.
    { rewrite Hparse, uint_value_0, Hp. reflexivity. }
    destruct (list_ascii_of_string (NilEmpty.string_of_uint (Pos.to_uint p)))
      as [|c cs]; [done|].
    destruct c as [[] [] [] [] [] [] [] []]; try exact Hval; done.
  - cbn [Z.to_int NilZero.string_of_int].
    pose proof (to_uint_not_nil p) as Hnil.
    pose proof (DecimalPos.Unsigned.of_to p) as Hp.
    assert (NilZero.string_of_uint (Pos.to_uint p)
            = NilEmpty.string_of_uint (Pos.to_uint p)) as ->
      by by destruct (Pos.to_uint p).
    unfold Py.int_of_str. cbn [list_ascii_of_string].
    rewrite strip_no_space
      by (constructor; [done | apply digits_no_space]).
    cbv iota beta.
    destruct (parse_first_digit (Pos.to_uint p) Hnil) as [_ Hparse].
    rewrite Hparse, uint_value_0, Hp. reflexivity.
Qed.

Lemma entry_run_priority env topic f1 f2 prio1 prio2 k e w :
  fc_name f1 = fc_name f2 → fc_icon f1 = fc_icon f2 →
  py_int prio1 = py_int prio2 → py_str prio1 = py_str prio2 →
  entry_run env topic f1 prio1 k e w = entry_run env topic f2 prio2 k e w.
Proof.
  intros Hname Hicon Hint Hstr.
  unfold entry_run, dispatch_events, ntfy_request.
  by rewrite Hname, Hicon, Hint, Hstr.
Qed.

Lemma entries_loop_priority env topic f1 f2 prio1 prio2 es :
  fc_name f1 = fc_name f2 → fc_icon f1 = fc_icon f2 →
  py_int prio1 = py_int prio2 → py_str prio1 = py_str prio2 →
  ∀ k w, entries_loop env topic f1 prio1 es k w
         = entries_loop env topic f2 prio2 es k w.
Proof.
  intros Hname Hicon Hint Hstr.
  induction es as [|e es IH]; intros k w; cbn [entries_loop]; [done|].
  destruct (3 <=? k); [done|]. unfold bind.
  rewrite !process_entry_run.
  rewrite (entry_run_priority env topic f1 f2 prio1 prio2) by done.
  destruct (entry_run env topic f2 prio2 k e w) as [[k1|x] w1 ev1];
    cbn [result world events]; [|done].
  by rewrite IH.
Qed.

Lemma process_feed_priority env topic f_conf v1 v2 w :
  py_int (default DEFAULT_PRIORITY v1) = py_int (default DEFAULT_PRIORITY v2) →
  py_str (default DEFAULT_PRIORITY v1) = py_str (default DEFAULT_PRIORITY v2) →
  process_feed env topic (with_priority f_conf v1) w
  = process_feed env topic (with_priority f_conf v2) w.
Proof.
  intros Hint Hstr. rewrite !process_feed_run. unfold feed_run.
  cbn [fc_url fc_priority with_priority].
  destruct (fc_url f_conf) as [u|]; [|done].
  destruct (feedparser_parse env u) as [es|x]; [|done].
  cbn zeta.
  by rewrite (entries_loop_priority env topic (with_priority f_conf v1)
                (with_priority f_conf v2) _ _ es eq_refl eq_refl Hint Hstr).
Qed.

(** X8. A priority may be written in the configuration as a number or as
    the text of that number: [int(str(z))] is [z] for every integer [z],
    and a feed with the priority ["z"] is processed exactly as the feed with
    the priority [z], requests and log lines included. A feed without the
    [priority] key is processed exactly as a feed with the priority ["3"],
    which has tier 3. *)
Theorem priority_text_or_number env topic f_conf w (z : Z) :
  py_int (JStr (Py.str_of_Z z)) = Ok z
  ∧ process_feed env topic
      (with_priority f_conf (Some (JStr (Py.str_of_Z z)))) w
    = process_feed env topic (with_priority f_conf (Some (JInt z))) w
  ∧ process_feed env topic (with_priority f_conf None) w
    = process_feed env topic (with_priority f_conf (Some (JStr "3"))) w
  ∧ py_int DEFAULT_PRIORITY = Ok 3%Z.
Proof.
  assert (py_int (JStr (Py.str_of_Z z)) = Ok z) as Hint.
  { unfold py_int. by rewrite int_of_str_of_Z. }
  split; [exact Hint|]. split; [by apply process_feed_priority|].
  split; [by apply process_feed_priority | reflexivity].
Qed.

Example priority_text_examples :
  py_int (JStr " 4 ") = Ok 4%Z
  ∧ py_int (JStr "-1") = Ok (-1)%Z
  ∧ py_int (JStr "1_0") = Ok 10%Z
  ∧ py_int (JStr "4.0") = Raise ValueError
  ∧ py_int (JStr "") = Raise ValueError
  ∧ py_int (JBool true) = Ok 1%Z
  ∧ py_int JNull = Raise TypeError.
Proof. vm_compute. by repeat split. Qed.

(** ** Paths, suffixes and topics *)

Lemma string_length_chars (s : string) :
  String.length s = length (chars s).
Proof. induction s as [|c s IH]; cbn; [done | by rewrite IH]. Qed.

Lemma substring_chars (s : string) :
  ∀ n m, chars (substring n m s) = take m (drop n (chars s)).
Proof.
  unfold chars.
  induction s as [|c s IH]; intros [|n] [|m]; cbn; try done.
  by rewrite (IH 0 m), drop_0.
Qed.

Lemma chars_inj (s1 s2 : string) : chars s1 = chars s2 → s1 = s2.
Proof. apply list_ascii_of_string_inj. Qed.

Lemma chars_app (s1 s2 : string) : chars (s1 +:+ s2) = chars s1 ++ chars s2.
Proof. apply list_ascii_of_string_app. Qed.

Lemma endswith_spec (s suffix : string) :
  Py.endswith s suffix = true ↔ ∃ p, s = p +:+ suffix.
Proof.
  unfold Py.endswith. rewrite andb_true_iff, Nat.leb_le, bool_decide_eq_true.
  rewrite !string_length_chars. split.
  - intros [Hle Hsub]. apply (f_equal chars) in Hsub.
    rewrite substring_chars in Hsub.
    rewrite take_ge in Hsub by (rewrite length_drop; lia).
    revert Hsub. generalize (length (chars s) - length (chars suffix)).
    intros k Hsub. exists (string_of_list_ascii (take k (chars s))).
    apply chars_inj. rewrite chars_app. unfold chars at 2.
    rewrite list_ascii_of_string_of_list_ascii, <- Hsub.
    by rewrite take_drop.
  - intros [p ->]. rewrite chars_app, length_app.
    split; [lia|]. apply chars_inj.
    rewrite substring_chars, chars_app.
    replace (length (chars p) + length (chars suffix)
             - length (chars suffix)) with (length (chars p)) by lia.
    rewrite drop_app_length. by rewrite take_ge.
Qed.

Lemma after_last_slash_plain (cs : list ascii) :
  Forall (λ c, c ≠ "/"%char) cs →
  ∀ cur, Py.after_last_slash cs cur = cur ++ cs.
Proof.
  induction 1 as [|c cs Hc _ IH]; intros cur; cbn [Py.after_last_slash].
  { by rewrite app_nil_r. }
  rewrite (proj2 (Ascii.eqb_neq c "/") Hc), IH. by rewrite <- app_assoc.
Qed.

Lemma after_last_slash_app (l1 l2 : list ascii) :
  Forall (λ c, c ≠ "/"%char) l2 →
  ∀ cur, Py.after_last_slash (l1 ++ "/"%char :: l2) cur = l2.
Proof.
  intros H2. induction l1 as [|c l1 IH]; intros cur;
    cbn [app Py.after_last_slash].
  - by rewrite (after_last_slash_plain l2 H2 []).
  - destruct (Ascii.eqb c "/"); apply IH.
Qed.

Lemma basename_path_join (a b : string) :
  Forall (λ c, c ≠ "/"%char) (chars b) →
  Py.basename (Py.path_join a b) = b.
Proof.
  intros Hb. unfold Py.path_join.
  assert (String.prefix "/" b = false) as ->.
  { destruct b as [|c b]; [done|]. apply Forall_cons in Hb as [Hc _].
    cbn [String.prefix].
    destruct (ascii_dec "/" c) as [Heq|Hne]; [by destruct Hc | done]. }
  assert (∀ p, Py.basename (p +:+ "/" +:+ b) = b) as Hdir.
  { intros p. unfold Py.basename. apply chars_inj. unfold chars at 1.
    rewrite list_ascii_of_string_of_list_ascii.
    change (list_ascii_of_string (p +:+ "/" +:+ b))
      with (chars (p +:+ "/" +:+ b)).
    rewrite !chars_app. by apply after_last_slash_app. }
  case_bool_decide as Ha; cbn [orb].
  - subst a. unfold Py.basename. apply chars_inj. unfold chars at 1.
    rewrite list_ascii_of_string_of_list_ascii.
    by apply (after_last_slash_plain (chars b) Hb []).
  - destruct (Py.endswith a "/") eqn:Hend; [|apply Hdir].
    apply endswith_spec in Hend as [p ->].
    replace ((p +:+ "/") +:+ b) with (p +:+ "/" +:+ b); [apply Hdir|].
    apply chars_inj. by rewrite !chars_app, <- app_assoc.
Qed.

Lemma rfind_dot_last (l1 l2 : list ascii) :
  Py.rfind_dot l2 = None →
  Py.rfind_dot (l1 ++ "."%char :: l2) = Some (length l1).
Proof.
  intros H2. induction l1 as [|c l1 IH]; cbn [app Py.rfind_dot length].
  - by rewrite H2.
  - by rewrite IH.
Qed.

Lemma splitext_root_json (stem : string) :
  (Exists (λ c, c ≠ "."%char) (chars stem) →
   Py.splitext_root (stem +:+ ".json") = stem)
  ∧ (Forall (λ c, c = "."%char) (chars stem) →
     Py.splitext_root (stem +:+ ".json") = stem +:+ ".json").
Proof.
  unfold Py.splitext_root.
  change (list_ascii_of_string (stem +:+ ".json"))
    with (chars (stem +:+ ".json")).
  rewrite chars_app.
  change (chars ".json") with ("."%char :: chars "json").
  rewrite rfind_dot_last by done. rewrite take_app_length.
  split; intros H.
  - assert (existsb (λ c, negb (Ascii.eqb c ".")) (chars stem) = true)
      as ->.
    { apply existsb_exists. apply Exists_exists in H as (c & Hc & Hne).
      exists c. split; [by apply list_elem_of_In|].
      by rewrite (proj2 (Ascii.eqb_neq c ".") Hne). }
    apply string_of_list_ascii_of_string.
  - assert (existsb (λ c, negb (Ascii.eqb c ".")) (chars stem) = false)
      as ->; [|done].
    induction H as [|c cs -> _ IH]; [done|]. cbn. exact IH.
Qed.

(** X9. The topic of a configuration file is its name without the [.json]
    extension, whatever the configuration directory is called (with or
    without a final slash): for a name [stem.json] where [stem] has no slash
    and has a character that is not a dot, the topic is [stem]. When [stem]
    is empty or made of dots only, nothing is taken off: the topic of
    [.json] is [.json]. *)
Theorem topic_is_the_file_stem (dir stem : string) :
  Forall (λ c, c ≠ "/"%char) (chars stem) →
  (Exists (λ c, c ≠ "."%char) (chars stem) →
   topic_of dir (stem +:+ ".json") = stem)
  ∧ (Forall (λ c, c = "."%char) (chars stem) →
     topic_of dir (stem +:+ ".json") = stem +:+ ".json").
Proof.
  intros Hslash. unfold topic_of. rewrite basename_path_join.
  - apply splitext_root_json.
  - rewrite chars_app. apply Forall_app. split; [done|].
    by repeat constructor.
Qed.

Lemma topic_is_the_file_stem_witness :
  Forall (λ c, c ≠ "/"%char) (chars "tech.news")
  ∧ Exists (λ c, c ≠ "."%char) (chars "tech.news")
  ∧ topic_of "/etc/bridge/configs/" ("tech.news" +:+ ".json") = "tech.news".
Proof.
  assert (H1 : Forall (λ c, c ≠ "/"%char) (chars "tech.news"))
    by (by repeat constructor).
  assert (H2 : Exists (λ c, c ≠ "."%char) (chars "tech.news"))
    by (by constructor).
  split; [exact H1|]. split; [exact H2|].
  exact (proj1 (topic_is_the_file_stem "/etc/bridge/configs/" "tech.news" H1)
           H2).
Defined.

Example topic_of_examples :
  topic_of "configs" "news.json" = "news"
  ∧ topic_of "configs/" "news.json" = "news"
  ∧ topic_of "" "a.b.json" = "a.b"
  ∧ topic_of "configs" ".json" = ".json"
  ∧ topic_of "configs" "..json" = "..json".
Proof. vm_compute. by repeat split. Qed.

(** ** Where the requests go *)

Lemma dispatch_at_routed env topic f_conf prio k d :
  dispatch_at env topic f_conf prio k d → routed env topic d.
Proof.
  intros (p & name & c & _ & _ & _ & ->). unfold routed. cbn [fst snd].
  split; [done|]. split; [done|].
  unfold header, ntfy_request, ntfy_headers. cbn [headers app List.find fst].
  by rewrite bool_decide_true by done.
Qed.

Lemma routed_process_feed env topic f_conf w :
  Forall (routed env topic)
    (dispatches (events (process_feed env topic f_conf w))).
Proof.
  destruct (process_feed_dispatches env topic f_conf w)
    as [-> | (u & es & _ & _ & ->)]; [constructor|].
  destruct (entries_loop_dispatched env topic f_conf
              (default DEFAULT_PRIORITY (fc_priority f_conf)) es 0 w)
    as [Hat _].
  eapply Forall2_Forall_r; [exact Hat|].
  apply Forall_forall. intros k _ d. apply dispatch_at_routed.
Qed.

Lemma routed_feeds_loop env topic feeds :
  ∀ w, Forall (routed env topic)
         (dispatches (events (feeds_loop env topic feeds w))).
Proof.
  induction feeds as [|f feeds IH]; intros w; cbn [feeds_loop];
    [constructor|].
  unfold bind, try_except, log, emit.
  pose proof (routed_process_feed env topic f w) as Hf.
  destruct (process_feed env topic f w) as [[[]|x] w1 ev1];
    cbn [result world events] in *; rewrite !dispatches_app;
    repeat (apply Forall_app; split); try done; apply IH.
Qed.

(** X10. Every request that the processing of the configuration file
    [stem.json] makes, for any of its feeds and in any world, is posted to
    the URL [BASE_URL/stem] with the header [Authorization: Bearer] and the
    configured token; the topic of each dispatch is [stem]. *)
Theorem requests_go_to_the_file_topic env stem w :
  Forall (λ c, c ≠ "/"%char) (chars stem) →
  Exists (λ c, c ≠ "."%char) (chars stem) →
  Forall (routed env stem)
    (dispatches
       (events
          (process_config_file env
             (Py.path_join (CONFIG_DIR env) (stem +:+ ".json")) w))).
Proof.
  intros Hslash Hdot.
  assert (topic_of (CONFIG_DIR env) (stem +:+ ".json") = stem) as Htopic.
  { unfold topic_of. rewrite basename_path_join.
    - by apply splitext_root_json.
    - rewrite chars_app. apply Forall_app. split; [done|].
      by repeat constructor. }
  unfold process_config_file, bind, emit, log. cbn [result world events].
  fold (topic_of (CONFIG_DIR env) (stem +:+ ".json")). rewrite Htopic.
  destruct (load_config env _) as [feeds|]; [|constructor].
  cbn [app].
  change (dispatches (EvOpen ?p :: ?evs)) with (dispatches evs).
  apply routed_feeds_loop.
Qed.

Lemma requests_go_to_the_file_topic_witness :
  Forall (λ c, c ≠ "/"%char) (chars "news")
  ∧ Exists (λ c, c ≠ "."%char) (chars "news")
  ∧ Forall (routed Scenario.env0 "news")
      (dispatches
         (events
            (process_config_file Scenario.env0
               (Py.path_join (CONFIG_DIR Scenario.env0) ("news" +:+ ".json"))
               Scenario.w0))).
Proof.
  assert (H1 : Forall (λ c, c ≠ "/"%char) (chars "news"))
    by (by repeat constructor).
  assert (H2 : Exists (λ c, c ≠ "."%char) (chars "news"))
    by (by constructor).
  split; [exact H1|]. split; [exact H2|].
  exact (requests_go_to_the_file_topic Scenario.env0 "news" Scenario.w0 H1 H2).
Defined.

Example urls_of_scenario :
  (λ d, url d.2) <$> dispatches (events (main Scenario.env0 Scenario.w0))
  = ["https://ntfy.sh/alerts"; "https://ntfy.sh/news"; "https://ntfy.sh/news";
     "https://ntfy.sh/news"; "https://ntfy.sh/news"].
Proof. vm_compute. reflexivity. Qed.

(** ** The form of a fingerprint *)

Lemma length_compress (h : list Sha256.word) (block : list N) :
  length h = 8 → length (Sha256.compress h block) = 8.
Proof.
  intros Hh. unfold Sha256.compress.
  rewrite length_map, length_combine, Hh. reflexivity.
Qed.

Lemma length_blocks (n : nat) :
  ∀ h bs, length h = 8 → length (Sha256.blocks n h bs) = 8.
Proof.
  induction n as [|n IH]; intros h bs Hh; cbn [Sha256.blocks]; [done|].
  by apply IH, length_compress.
Qed.

Lemma length_digest (msg : list N) : length (Sha256.digest msg) = 8.
Proof. unfold Sha256.digest. by apply length_blocks. Qed.

Lemma is_hex_hex_digit (x : N) : is_hex (Sha256.hex_digit (x mod 16)) = true.
Proof.
  assert (Forall (λ d, is_hex (Sha256.hex_digit d) = true)
            (N.of_nat <$> seq 0 16)) as Hall
    by (vm_compute; by repeat constructor).
  rewrite Forall_forall in Hall. apply Hall.
  assert (x mod 16 < 16)%N as Hlt by by apply N.mod_lt.
  revert Hlt. generalize (x mod 16)%N. intros d Hlt.
  rewrite <- (N2Nat.id d). apply list_elem_of_fmap_2.
  apply elem_of_seq. lia.
Qed.

Lemma hex_of_chars (n : nat) :
  ∀ x acc, ∃ l,
    length l = n ∧ Forall (λ c, is_hex c = true) l
    ∧ chars (Sha256.hex_of n x acc) = l ++ chars acc.
Proof.
  induction n as [|n IH]; intros x acc; cbn [Sha256.hex_of].
  { by exists []. }
  destruct (IH (x / 16)%N
              (String (Sha256.hex_digit (x mod 16)) acc))
    as (l & Hlen & Hhex & Heq).
  exists (l ++ [Sha256.hex_digit (x mod 16)]). split; [|split].
  - rewrite length_app, Hlen. cbn. lia.
  - apply Forall_app. split; [done|].
    constructor; [apply is_hex_hex_digit | constructor].
  - rewrite Heq, <- app_assoc. reflexivity.
Qed.

Lemma hexdigest_chars (ws : list Sha256.word) :
  length (chars (fold_right (λ w s, Sha256.hex_of 8 w s) EmptyString ws))
  = 8 * length ws
  ∧ Forall (λ c, is_hex c = true)
      (chars (fold_right (λ w s, Sha256.hex_of 8 w s) EmptyString ws)).
Proof.
  induction ws as [|w ws [IHlen IHhex]]; cbn [fold_right].
  { split; [done | constructor]. }
  destruct (hex_of_chars 8 w
              (fold_right (λ w s, Sha256.hex_of 8 w s) EmptyString ws))
    as (l & Hlen & Hhex & ->).
  split.
  - rewrite length_app, Hlen, IHlen. cbn [length]. lia.
  - by apply Forall_app.
Qed.

(** X11. Every fingerprint, for any topic and any entry (also one without
    id and without link), is a text of exactly 64 characters, each a
    lower-case hexadecimal digit: the key of the ledger has a fixed
    length. *)
Theorem fingerprint_is_64_hex_digits (topic : string) (entry : Entry) :
  String.length (entry_hash topic entry) = 64
  ∧ Forall (λ c, is_hex c = true) (chars (entry_hash topic entry)).
Proof.
  unfold entry_hash, Sha256.hexdigest. rewrite string_length_chars.
  destruct (hexdigest_chars
              (Sha256.digest (hash_input topic (entry_id entry))))
    as [Hlen Hhex].
  split; [|exact Hhex]. by rewrite Hlen, length_digest.
Qed.

(** ** A feed that is blocked by one of its entries *)

(** X12. An entry whose content cannot be summarised blocks its feed: when
    it is the first new entry of the feed, the cycle makes no request for
    the feed, records nothing and ends the feed with the exception of the
    summary; the entry is not recorded, so the feed is in the same situation
    at the next cycle, and the entries after it are not notified as long as
    the feed keeps it. *)
Theorem unsummarisable_entry_blocks_feed env topic f_conf es m w :
  blocked env topic f_conf es m w →
  let r := process_feed env topic f_conf w in
  (∃ x, result r = Raise x)
  ∧ dispatches (events r) = []
  ∧ ledger (world r) = ledger w
  ∧ blocked env topic f_conf es m (world r).
Proof.
  intros [(u & Hu & Hparse) [p Hp] [name Hname] Hw Hseen
          (e & x & He & Hnew & Hclean)].
  cbv zeta. rewrite process_feed_run. unfold feed_run.
  rewrite Hu, Hparse. cbn zeta.
  destruct (entries_loop_skip_seen env topic f_conf
              (default DEFAULT_PRIORITY (fc_priority f_conf))
              (take m es) (drop m es) 0 ltac:(lia) w Hw Hseen)
    as (w' & Heq & Hl & Hw').
  rewrite take_drop in Heq. rewrite Heq.
  rewrite (drop_S es e m He). cbn [entries_loop Nat.leb].
  unfold bind. rewrite process_entry_run. unfold entry_run.
  rewrite (no_faults_at w' 0 Hw'), Hl, bool_decide_false by done.
  rewrite Hp, Hname, Hclean. cbn [result world events].
  change (ledger (tick w')) with (ledger w'). rewrite Hl.
  split; [by exists x|]. split; [done|]. split; [done|].
  split; [by exists u | by exists p | by exists name | | |].
  - by apply no_faults_tick.
  - change (ledger (tick w')) with (ledger w'). by rewrite Hl.
  - exists e, x. change (ledger (tick w')) with (ledger w').
    by rewrite Hl.
Qed.

Lemma unsummarisable_entry_blocks_feed_witness :
  let env :=
    {| CONFIG_DIR := "configs"; BASE_URL := "https://ntfy.sh";
       NTFY_TOKEN := ""; USER_AGENT := "Mozilla/5.0";
       config_dir := Listing ["news.json"];
       load_config := λ _, Some [Scenario.feed_a];
       feedparser_parse := λ _, Ok Scenario.entries_a;
       clean_html_content := λ _ e,
         if bool_decide (entry_id e = "a2")
         then Raise (KeyError "url") else Ok ("", None);
       format_local_date := λ _, "Unknown date" |} in
  blocked env "news" Scenario.feed_a Scenario.entries_a 1 Scenario.w_seen
  ∧ dispatches
      (events (process_feed env "news" Scenario.feed_a Scenario.w_seen))
    = []
  ∧ blocked env "news" Scenario.feed_a Scenario.entries_a 1
      (world (process_feed env "news" Scenario.feed_a Scenario.w_seen)).
Proof.
  intros env.
  assert (Hb : blocked env "news" Scenario.feed_a Scenario.entries_a 1
                 Scenario.w_seen).
  { split.
    - by exists "https://a.example/rss".
    - by exists 3%Z.
    - by exists "A".
    - constructor.
    - refine (bool_decide_unpack _ _). vm_compute. exact I.
    - exists (Scenario.entry_of_id "a2"), (KeyError "url").
      split; [reflexivity|]. split; [|reflexivity].
      refine (bool_decide_unpack _ _). vm_compute. exact I. }
  split; [exact Hb|].
  pose proof (unsummarisable_entry_blocks_feed env "news" Scenario.feed_a
                Scenario.entries_a 1 Scenario.w_seen Hb) as (_ & H2 & _ & H4).
  by split.
Defined.

(** ** The headers of the requests *)

Lemma header_lookup env title link prio date delay icon image :
  let req := {| url := ""; data := "";
                headers := ntfy_headers env title link prio date delay icon
                             image |} in
  header "Title" req = Some title
  ∧ header "Click" req = Some link
  ∧ header "Priority" req = Some prio
  ∧ header "X-Publish-Date" req = Some date
  ∧ header "Icon" req = truthy_value icon
  ∧ header "Attach" req = truthy_value image.
Proof.
  unfold header, ntfy_headers, optional_header, truthy_value.
  cbn [headers].
  destruct delay as [d|], icon as [i|], image as [a|];
    cbn [mbind option_bind].
  all: repeat match goal with
         | |- context [Py.truthy ?s] => destruct (Py.truthy s)
         end.
  all: cbn [app List.find fst snd fmap option_fmap option_map].
  all: repeat (rewrite bool_decide_false by done;
               cbn [app List.find fst snd fmap option_fmap option_map]).
  all: rewrite ?bool_decide_true by done;
    cbn [app List.find fst snd fmap option_fmap option_map].
  all: repeat (rewrite bool_decide_false by done;
               cbn [app List.find fst snd fmap option_fmap option_map]).
  all: rewrite ?bool_decide_true by done; done.
Qed.

Lemma dispatch_at_presents env topic f_conf prio k d :
  dispatch_at env topic f_conf prio k d → presents env f_conf prio d.
Proof.
  intros (p & name & c & _ & _ & Hc & Hd).
  unfold presents. rewrite Hd. unfold dispatch_entry. cbn [fst snd].
  fold (dispatch_entry d).
  destruct (header_lookup env
              (entry_get (dispatch_entry d) "title" "No Title")
              (entry_get (dispatch_entry d) "link" "#") (py_str prio)
              (format_local_date env (dispatch_entry d)) (delay_for p k)
              (fc_icon f_conf) c.2)
    as (H1 & H2 & H3 & H4 & H5 & H6).
  repeat (split; [assumption|]). by exists c.
Qed.

(** X13. Every request that a feed gets carries, in any world: as [Title]
    the title of the entry, or [No Title] when the entry has none; as
    [Click] its link, or [#]; as [Priority] the text of the configured
    priority; as [X-Publish-Date] the formatted date; an [Icon] header
    exactly when the feed has an icon that is not the empty text; and an
    [Attach] header exactly when the summary found an image address that is
    not empty. No optional header hides another one. *)
Theorem requests_present_the_entry env topic f_conf w :
  Forall
    (presents env f_conf (default DEFAULT_PRIORITY (fc_priority f_conf)))
    (dispatches (events (process_feed env topic f_conf w))).
Proof.
  destruct (process_feed_dispatches env topic f_conf w)
    as [-> | (u & es & _ & _ & ->)]; [constructor|].
  destruct (entries_loop_dispatched env topic f_conf
              (default DEFAULT_PRIORITY (fc_priority f_conf)) es 0 w)
    as [Hat _].
  eapply Forall2_Forall_r; [exact Hat|].
  apply Forall_forall. intros k _ d. apply dispatch_at_presents.
Qed.

Example headers_of_an_entry_without_title :
  let f_conf := {| fc_name := Some "A";
                   fc_url := Some "https://a.example/rss";
                   fc_priority := Some (JInt 5); fc_icon := Some "" |} in
  (λ d, headers d.2)
    <$> dispatches
          (events (process_feed Scenario.env0 "news" f_conf
                     {| ledger := entry_hash "news"
                                    <$> take 4 Scenario.entries_a;
                        db_faults := []; net := [] |}))
  = [[("Authorization", "Bearer tk"); ("User-Agent", "Mozilla/5.0");
      ("Title", "No Title"); ("Click", "#"); ("Markdown", "yes");
      ("Tags", "newspaper"); ("Priority", "5");
      ("X-Publish-Date", "Unknown date")]].
Proof. vm_compute. reflexivity. Qed.

(** ** The summary of the content *)

Lemma is_space_32 : Content.is_space 32 = true.
Proof. reflexivity. Qed.

Lemma collapse_spaces (cs : Content.text) :
  ∀ b, Forall (λ c, Content.is_space c = true → c = 32%N)
         (Content.collapse cs b).
Proof.
  induction cs as [|c cs IH]; intros b; cbn [Content.collapse];
    [constructor|].
  destruct (Content.is_space c) eqn:Hc; [destruct b|]; auto.
  constructor; [congruence | auto].
Qed.

Lemma collapse_head (cs : Content.text) :
  head (Content.collapse cs true) ≠ Some 32%N.
Proof.
  induction cs as [|c cs IH]; cbn [Content.collapse]; [done|].
  destruct (Content.is_space c) eqn:Hc; [done|].
  cbn. intros [= ->]. by rewrite is_space_32 in Hc.
Qed.

Lemma collapse_adjacent (cs : Content.text) :
  ∀ b i, Content.collapse cs b !! i = Some 32%N →
         Content.collapse cs b !! S i ≠ Some 32%N.
Proof.
  induction cs as [|c cs IH]; intros b i; cbn [Content.collapse]; [done|].
  destruct (Content.is_space c) eqn:Hc; [destruct b|]; auto.
  - destruct i as [|i]; [|apply IH]. intros _.
    pose proof (collapse_head cs) as Hh. rewrite head_lookup in Hh.
    exact Hh.
  - destruct i as [|i]; [|apply IH].
    intros [= ->]. by rewrite is_space_32 in Hc.
Qed.

Lemma ink_collapse (cs : Content.text) :
  ∀ b, Content.ink (Content.collapse cs b) = Content.ink cs.
Proof.
  unfold Content.ink.
  induction cs as [|c cs IH]; intros b; cbn [Content.collapse List.filter];
    [done|].
  destruct (Content.is_space c) eqn:Hc; [destruct b|];
    cbn [List.filter negb]; rewrite ?is_space_32, ?Hc; cbn [negb];
    by rewrite IH.
Qed.

Lemma lstrip_drop (cs : Content.text) :
  ∃ k, Content.lstrip cs = drop k cs.
Proof.
  induction cs as [|c cs [k IH]]; cbn [Content.lstrip]; [by exists 0|].
  destruct (Content.is_space c); [by exists (S k) | by exists 0].
Qed.

Lemma lstrip_head (cs : Content.text) (c : N) :
  head (Content.lstrip cs) = Some c → Content.is_space c = false.
Proof.
  induction cs as [|a cs IH]; cbn [Content.lstrip]; [done|].
  destruct (Content.is_space a) eqn:Ha; [done|]. by intros [= <-].
Qed.

Lemma ink_lstrip (cs : Content.text) :
  Content.ink (Content.lstrip cs) = Content.ink cs.
Proof.
  unfold Content.ink.
  induction cs as [|c cs IH]; cbn [Content.lstrip List.filter]; [done|].
  destruct (Content.is_space c) eqn:Hc; cbn [List.filter negb]; [done|].
  by rewrite Hc.
Qed.

Lemma rstrip_take (cs : Content.text) :
  ∃ k, Content.rstrip cs = take k cs.
Proof.
  induction cs as [|c cs [k IH]]; cbn [Content.rstrip]; [by exists 0|].
  destruct (Content.rstrip cs) as [|a r] eqn:Hr.
  - destruct (Content.is_space c); [by exists 0 | exists 1].
    cbn [take]. by rewrite take_0.
  - exists (S k). cbn [take]. by rewrite IH.
Qed.

Lemma rstrip_last (cs : Content.text) (c : N) :
  last (Content.rstrip cs) = Some c → Content.is_space c = false.
Proof.
  induction cs as [|a cs IH]; cbn [Content.rstrip]; [done|].
  destruct (Content.rstrip cs) as [|b r] eqn:Hr.
  - destruct (Content.is_space a) eqn:Ha; [done | by intros [= <-]].
  - rewrite last_cons. destruct (last (b :: r)) as [x|] eqn:Hl.
    + intros [= <-]. by apply IH.
    + by rewrite last_cons in Hl; destruct (last r).
Qed.

Lemma rstrip_head (cs : Content.text) (c : N) :
  head cs = Some c → Content.is_space c = false →
  head (Content.rstrip cs) = Some c.
Proof.
  destruct cs as [|a cs]; [done|]. intros [= ->] Hc. cbn [Content.rstrip].
  destruct (Content.rstrip cs); [by rewrite Hc | done].
Qed.

Lemma ink_rstrip (cs : Content.text) :
  Content.ink (Content.rstrip cs) = Content.ink cs.
Proof.
  unfold Content.ink.
  induction cs as [|c cs IH]; cbn [Content.rstrip List.filter]; [done|].
  destruct (Content.rstrip cs) as [|a r] eqn:Hr.
  - rewrite <- IH. cbn [List.filter].
    by destruct (Content.is_space c) eqn:Hc; cbn [List.filter negb];
      rewrite ?Hc.
  - cbn [List.filter]. rewrite <- IH. reflexivity.
Qed.

Lemma normalise_normal (cs : Content.text) :
  Content.normal (Content.normalise cs).
Proof.
  unfold Content.normalise, Content.strip.
  destruct (lstrip_drop (Content.collapse cs false)) as [k Hk].
  destruct (rstrip_take (Content.lstrip (Content.collapse cs false)))
    as [j Hj].
  assert (∀ c, Content.is_space c = false → Some c ≠ Some 32%N) as Hne.
  { intros c Hc [= ->]. by rewrite is_space_32 in Hc. }
  split; [|split; [|split]].
  - rewrite Hj, Hk. apply Forall_take, Forall_drop, collapse_spaces.
  - destruct (head (Content.rstrip _)) as [c|] eqn:Hh; [|done].
    apply Hne.
    destruct (Content.lstrip (Content.collapse cs false)) as [|a l] eqn:Hl;
      [done|].
    assert (Content.is_space a = false) as Ha.
    { apply (lstrip_head (Content.collapse cs false)). by rewrite Hl. }
    rewrite (rstrip_head (a :: l) a eq_refl Ha) in Hh. by injection Hh as <-.
  - destruct (last (Content.rstrip _)) as [c|] eqn:Hh; [|done].
    apply Hne. by eapply rstrip_last.
  - intros i. rewrite Hj, Hk. intros Hi Hsi.
    apply lookup_take_Some in Hi as [Hi _].
    apply lookup_take_Some in Hsi as [Hsi _].
    rewrite lookup_drop in Hi, Hsi.
    replace (k + S i) with (S (k + i)) in Hsi by lia.
    exact (collapse_adjacent _ _ _ Hi Hsi).
Qed.

Lemma ink_normalise (cs : Content.text) :
  Content.ink (Content.normalise cs) = Content.ink cs.
Proof.
  unfold Content.normalise, Content.strip.
  by rewrite ink_rstrip, ink_lstrip, ink_collapse.
Qed.

Lemma collapse_fixed (cs : Content.text) :
  Forall (λ c, Content.is_space c = true → c = 32%N) cs →
  (∀ i, cs !! i = Some 32%N → cs !! S i ≠ Some 32%N) →
  ∀ b, (b = true → head cs ≠ Some 32%N) → Content.collapse cs b = cs.
Proof.
  induction 1 as [|c cs Hc _ IH]; intros Hadj b Hb; cbn [Content.collapse];
    [done|].
  assert (∀ i, cs !! i = Some 32%N → cs !! S i ≠ Some 32%N) as Hadj'
    by (intros i; apply (Hadj (S i))).
  destruct (Content.is_space c) eqn:Hsp.
  - rewrite (Hc eq_refl) in *.
    destruct b; [by destruct (Hb eq_refl)|].
    f_equal. apply IH; [done|]. intros _. rewrite head_lookup.
    exact (Hadj 0 eq_refl).
  - f_equal. by apply IH.
Qed.

Lemma rstrip_fixed (cs : Content.text) :
  Forall (λ c, Content.is_space c = true → c = 32%N) cs →
  last cs ≠ Some 32%N → Content.rstrip cs = cs.
Proof.
  induction 1 as [|c cs Hc _ IH]; intros Hlast; cbn [Content.rstrip];
    [done|].
  destruct cs as [|a cs].
  - cbn. destruct (Content.is_space c) eqn:Hsp; [|done].
    rewrite (Hc eq_refl) in Hlast. by destruct Hlast.
  - rewrite IH by by rewrite last_cons_cons in Hlast. done.
Qed.

Lemma normalise_fixed (cs : Content.text) :
  Content.normal cs → Content.normalise cs = cs.
Proof.
  intros (Hsp & Hhead & Hlast & Hadj). unfold Content.normalise.
  rewrite collapse_fixed by done. unfold Content.strip.
  assert (Content.lstrip cs = cs) as ->; [|by apply rstrip_fixed].
  destruct cs as [|c cs]; [done|]. cbn [Content.lstrip].
  destruct (Content.is_space c) eqn:Hc; [|done].
  apply Forall_cons in Hsp as [Hsp _]. rewrite (Hsp Hc) in Hhead.
  by destruct Hhead.
Qed.

(** X14. The text of a description is brought to one form, whatever the
    HTML gives: all white space (tabs, line ends, no-break and other
    Unicode spaces) becomes the space, runs of white space become a single
    space, and the text neither starts nor ends with a space. Nothing else
    changes: the characters that are not white space are kept, all of them
    and in their order; and a text that has the form already is returned as
    it is, so that normalising twice is normalising once. *)
Theorem description_is_normalised (cs : Content.text) :
  Content.normal (Content.normalise cs)
  ∧ Content.ink (Content.normalise cs) = Content.ink cs
  ∧ (∀ cs', Content.normal cs' → Content.normalise cs' = cs')
  ∧ Content.normalise (Content.normalise cs) = Content.normalise cs.
Proof.
  split; [apply normalise_normal|]. split; [apply ink_normalise|].
  split; [apply normalise_fixed|]. apply normalise_fixed, normalise_normal.
Qed.

Example normalise_examples :
  Content.utf8
    (Content.normalise
       (Py.encode ("  Breaking:" +:+ nl +:+ nl +:+ "   rain  in Spain  ")))
  = "Breaking: rain in Spain"
  ∧ Content.normalise [160; 8195; 10]%N = []
  ∧ Content.normalise [233; 12288; 8364]%N = [233; 32; 8364]%N.
Proof. vm_compute. by repeat split. Qed.

(** ** The length of the description *)

Lemma utf8_char_bytes (c : N) :
  (c < 1114112)%N →
  Forall (λ b, b < 256)%N (Content.utf8_char c)
  ∧ List.filter (λ b, negb ((128 <=? b) && (b <? 192))%N)
      (Content.utf8_char c)
    = [hd 0%N (Content.utf8_char c)].
Proof.
  intros Hc. unfold Content.utf8_char.
  assert (∀ x, x mod 64 < 64)%N as Hmod by (intros x; by apply N.mod_lt).
  assert (∀ b, (128 <= b < 192)%N →
               negb ((128 <=? b) && (b <? 192))%N = false) as Hcont.
  { intros b [H1 H2]. apply N.leb_le in H1. apply N.ltb_lt in H2.
    by rewrite H1, H2. }
  assert (∀ b, (b < 128 ∨ 192 <= b)%N →
               negb ((128 <=? b) && (b <? 192))%N = true) as Hlead.
  { intros b [H|H].
    - apply N.leb_gt in H. by rewrite H.
    - apply N.ltb_ge in H. rewrite H. by rewrite andb_false_r. }
  destruct (N.ltb_spec c 128) as [H1|H1].
  { split; [repeat constructor; lia|]. cbn [List.filter hd].
    rewrite Hlead by lia. done. }
  destruct (N.ltb_spec c 2048) as [H2|H2].
  { assert (c / 64 < 32)%N by (apply N.Div0.div_lt_upper_bound; lia).
    pose proof (Hmod c). revert H H0. generalize (c / 64)%N (c mod 64)%N.
    intros q r Hq Hr.
    split; [repeat constructor; lia|]. cbn [List.filter hd].
    rewrite Hlead by lia. rewrite Hcont by lia. done. }
  destruct (N.ltb_spec c 65536) as [H3|H3].
  { assert (c / 4096 < 16)%N by (apply N.Div0.div_lt_upper_bound; lia).
    pose proof (Hmod c). pose proof (Hmod (c / 64)%N). revert H H0 H4.
    generalize (c / 4096)%N (c mod 64)%N ((c / 64) mod 64)%N.
    intros q r r' Hq Hr Hr'.
    split; [repeat constructor; lia|]. cbn [List.filter hd].
    rewrite Hlead by lia. rewrite !Hcont by lia. done. }
  assert (c / 262144 < 5)%N by (apply N.Div0.div_lt_upper_bound; lia).
  pose proof (Hmod c). pose proof (Hmod (c / 64)%N).
  pose proof (Hmod (c / 4096)%N). revert H H0 H4 H5.
  generalize (c / 262144)%N (c mod 64)%N ((c / 64) mod 64)%N
    ((c / 4096) mod 64)%N.
  intros q r r' r'' Hq Hr Hr' Hr''.
  split; [repeat constructor; lia|]. cbn [List.filter hd].
  rewrite Hlead by lia. rewrite !Hcont by lia. done.
Qed.

Lemma encode_utf8 (cs : Content.text) :
  Content.scalar cs → Py.encode (Content.utf8 cs) = cs ≫= Content.utf8_char.
Proof.
  intros Hcs. unfold Py.encode, Content.utf8.
  rewrite list_ascii_of_string_of_list_ascii.
  assert (Forall (λ b, b < 256)%N (cs ≫= Content.utf8_char)) as Hb.
  { induction Hcs as [|c cs Hc _ IH]; [constructor|].
    rewrite bind_cons. apply Forall_app. split; [|done].
    by apply utf8_char_bytes. }
  induction Hb as [|b bs Hb _ IH]; [done|].
  cbn [fmap list_fmap map]. rewrite N_ascii_embedding by done.
  f_equal. exact IH.
Qed.

Lemma py_len_utf8 (cs : Content.text) :
  Content.scalar cs → Content.py_len (Content.utf8 cs) = length cs.
Proof.
  intros Hcs. unfold Content.py_len. rewrite encode_utf8 by done.
  induction Hcs as [|c cs Hc _ IH]; [done|].
  rewrite bind_cons, List.filter_app, length_app, IH.
  destruct (utf8_char_bytes c Hc) as [_ ->]. reflexivity.
Qed.

Lemma utf8_app (cs1 cs2 : Content.text) :
  Content.utf8 (cs1 ++ cs2) = Content.utf8 cs1 +:+ Content.utf8 cs2.
Proof.
  unfold Content.utf8. apply chars_inj. rewrite chars_app. unfold chars.
  rewrite !list_ascii_of_string_of_list_ascii.
  by rewrite bind_app, fmap_app.
Qed.

Lemma scalar_collapse (cs : Content.text) :
  Content.scalar cs → ∀ b, Content.scalar (Content.collapse cs b).
Proof.
  unfold Content.scalar.
  induction 1 as [|c cs Hc _ IH]; intros b; cbn [Content.collapse];
    [constructor|].
  destruct (Content.is_space c); [destruct b|]; auto.
  constructor; [done | auto].
Qed.

Lemma scalar_normalise (cs : Content.text) :
  Content.scalar cs → Content.scalar (Content.normalise cs).
Proof.
  unfold Content.normalise, Content.strip. intros Hcs.
  destruct (lstrip_drop (Content.collapse cs false)) as [k Hk].
  destruct (rstrip_take (Content.lstrip (Content.collapse cs false)))
    as [j Hj].
  rewrite Hj, Hk. apply Forall_take, Forall_drop.
  by apply scalar_collapse.
Qed.

(** X15. The description that is sent has at most 253 characters, whatever
    the content: a normalised text of at most 250 characters is sent whole,
    a longer one is cut after its 250th character and gets three dots, which
    makes 253 characters exactly; an empty content gives an empty
    description. Characters are counted as Python counts them, on the UTF-8
    bytes that are sent; the cut never falls inside a character. *)
Theorem description_is_bounded lib html_content entry desc image :
  Content.clean_html_content lib html_content entry = Ok (desc, image) →
  Content.scalar
    (Content.get_text (Content.BeautifulSoup lib html_content)) →
  let t :=
    Content.normalise
      (Content.get_text (Content.BeautifulSoup lib html_content)) in
  Content.py_len desc ≤ 253
  ∧ (html_content = "" → desc = "")
  ∧ (html_content ≠ "" → length t ≤ 250 → desc = Content.utf8 t)
  ∧ (html_content ≠ "" → 250 < length t →
     desc = Content.utf8 (take 250 t) +:+ "..."
     ∧ Content.py_len desc = 253).
Proof.
  intros Hclean Hsc t. unfold Content.clean_html_content in Hclean.
  unfold Py.truthy in Hclean. rewrite negb_involutive in Hclean.
  case_bool_decide as Hempty.
  { injection Hclean as <- <-.
    split; [cbn; lia|]. split; [done|]. split; intros Hne; by destruct Hne. }
  destruct (Content.img_url _ _) as [img|x]; [|done].
  injection Hclean as <- <-. fold t.
  assert (Content.scalar t) as Ht by by apply scalar_normalise.
  assert (Content.scalar [46; 46; 46]%N) as Hdots by by repeat constructor.
  unfold Content.shorten.
  destruct (250 <? length t) eqn:Hlen.
  - apply Nat.ltb_lt in Hlen.
    assert (Content.py_len (Content.utf8 (take 250 t ++ [46; 46; 46]%N))
            = 253) as Hpy.
    { rewrite py_len_utf8.
      - rewrite length_app, length_take. cbn [length]. lia.
      - apply Forall_app. split; [by apply Forall_take | done]. }
    split; [lia|]. split; [done|]. split; [lia|].
    intros _ _. split; [|exact Hpy]. by rewrite utf8_app.
  - apply Nat.ltb_ge in Hlen. rewrite py_len_utf8 by done.
    split; [lia|]. split; [done|]. split; [done | lia].
Qed.

Lemma description_is_bounded_witness :
  let lib :=
    {| Content.BeautifulSoup := λ html,
         {| Content.get_text := Py.encode html; Content.find_img := None |};
       Content.media := λ _,
         {| Content.media_content := None; Content.enclosures := None |} |} in
  let e := Scenario.entry_of_id "a1" in
  Content.clean_html_content lib " rain  in Spain" e
  = Ok ("rain in Spain", None)
  ∧ Content.scalar
      (Content.get_text (Content.BeautifulSoup lib " rain  in Spain"))
  ∧ Content.py_len "rain in Spain" ≤ 253.
Proof.
  intros lib e.
  assert (H1 : Content.clean_html_content lib " rain  in Spain" e
               = Ok ("rain in Spain", None)) by (vm_compute; reflexivity).
  assert (H2 : Content.scalar
                 (Content.get_text
                    (Content.BeautifulSoup lib " rain  in Spain")))
    by (by repeat constructor).
  split; [exact H1|]. split; [exact H2|].
  exact (proj1 (description_is_bounded lib " rain  in Spain" e
                  "rain in Spain" None H1 H2)).
Defined.

Example long_description_is_cut :
  let html := String.concat "" (replicate 100 "été ") in
  let lib :=
    {| Content.BeautifulSoup := λ _,
         {| Content.get_text := mjoin (replicate 100 [233; 116; 233; 32]%N);
            Content.find_img := None |};
       Content.media := λ _,
         {| Content.media_content := None; Content.enclosures := None |} |} in
  match Content.clean_html_content lib html (Scenario.entry_of_id "a1") with
  | Ok (desc, _) =>
      Content.py_len desc = 253 ∧ String.length desc = 378
      ∧ Py.endswith desc "ét..." = true
  | Raise _ => False
  end.
Proof. vm_compute. by repeat split. Qed.

(** ** The image of a request *)

(** X16. The image that a request attaches follows the keys of the entry,
    in any world: an entry without content gets no [Attach] header, also
    when it has media; otherwise the image is the [url] of the first
    [media_content], and an entry whose first [media_content] has no [url]
    is never dispatched; without [media_content], it is the [href] of the
    first enclosure, likewise; without both, the [src] of the first [img]
    tag of the content, if it has one. An address that is the empty text
    gives no header. *)
Theorem attached_image_follows_the_keys env lib topic f_conf w :
  Forall (image_rule lib)
    (dispatches (events (process_feed (with_content env lib) topic f_conf w))).
Proof.
  destruct (process_feed_dispatches (with_content env lib) topic f_conf w)
    as [-> | (u & es & _ & _ & ->)]; [constructor|].
  destruct (entries_loop_dispatched (with_content env lib) topic f_conf
              (default DEFAULT_PRIORITY (fc_priority f_conf)) es 0 w)
    as [Hat _].
  eapply Forall2_Forall_r; [exact Hat|].
  apply Forall_forall. intros k _ d Hd.
  destruct (dispatch_at_presents _ _ _ _ _ _ Hd)
    as (_ & _ & _ & _ & _ & c & Hc & Ha).
  cbn [clean_html_content with_content] in Hc.
  unfold image_rule. cbv zeta. rewrite Ha. clear Ha.
  unfold Content.clean_html_content in Hc.
  unfold Py.truthy in Hc. rewrite negb_involutive in Hc.
  case_bool_decide as Hempty.
  { injection Hc as <-. split; [done|]. by intros []. }
  split; [done|]. intros _. unfold Content.img_url in Hc.
  destruct (Content.media_content _) as [[|x xs]|] eqn:Hm.
  - split; [done|]. split.
    + intros y ys _ He. rewrite He in Hc.
      destruct (y !! "href") as [h|]; [|done]. injection Hc as <-.
      by split.
    + intros _ [He|He]; rewrite He in Hc;
        destruct (Content.find_img _) as [attrs|]; by injection Hc as <-.
  - split; [|split].
    + intros y ys [= <- <-]. destruct (x !! "url") as [h|]; [|done].
      injection Hc as <-. by split.
    + by intros y ys [?|?].
    + by intros [?|?].
  - split; [done|]. split.
    + intros y ys _ He. rewrite He in Hc.
      destruct (y !! "href") as [h|]; [|done]. injection Hc as <-.
      by split.
    + intros _ [He|He]; rewrite He in Hc;
        destruct (Content.find_img _) as [attrs|]; by injection Hc as <-.
Qed.

Example media_without_url :
  let lib :=
    {| Content.BeautifulSoup := λ html,
         {| Content.get_text := Py.encode html; Content.find_img := None |};
       Content.media := λ _,
         {| Content.media_content := Some [∅]; Content.enclosures := None |}
    |} in
  let env := with_content Scenario.env0 lib in
  let plain := Scenario.entry_of_id "n1" in
  let rich :=
    {| fields := {[ "id" := "n2"; "summary" := "Rain in Spain" ]};
       content := [] |} in
  events (process_entry env "news" Scenario.feed_a (JInt 5) 0 rich
            Scenario.w0) = []
  ∧ result (process_entry env "news" Scenario.feed_a (JInt 5) 0 rich
              Scenario.w0) = Raise (KeyError "url")
  ∧ ((λ d, (data d.2, header "Attach" d.2))
       <$> dispatches
             (events (process_entry env "news" Scenario.feed_a (JInt 5) 0
                        plain Scenario.w0)))
    = [("**Source:** A" +:+ nl +:+ "**Local Time:** Unknown date" +:+ nl
        +:+ nl +:+ nl +:+ nl +:+ "[Read on Website](#)", None)].
Proof. vm_compute. by repeat split. Qed.

(** ** A notification can be sent twice *)

(** X17. A notification is sent before its entry is recorded, so a storage
    failure between the two sends it twice: when the lookup of the first
    entry of a feed works and finds the entry new, and the INSERT that
    follows the request fails, the cycle has made the request, left the
    ledger as it was and ended the feed with the storage error; and the next
    processing of the same feed, without storage failure, makes a request
    for the same entry again and records it then. *)
Theorem failed_insert_sends_twice env topic f_conf w u e es p name c :
  fc_url f_conf = Some u →
  feedparser_parse env u = Ok (e :: es) →
  py_int (default DEFAULT_PRIORITY (fc_priority f_conf)) = Ok p →
  fc_name f_conf = Some name →
  clean_html_content env (content_of e) e = Ok c →
  entry_hash topic e ∉ ledger w →
  db_faults w = [false; true] →
  let r1 := process_feed env topic f_conf w in
  let r2 := process_feed env topic f_conf (world r1) in
  result r1 = Raise OperationalError
  ∧ dispatch_entry <$> dispatches (events r1) = [e]
  ∧ ledger (world r1) = ledger w
  ∧ head (dispatch_entry <$> dispatches (events r2)) = Some e
  ∧ entry_hash topic e ∈ ledger (world r2).
Proof.
  intros Hu Hparse Hp Hname Hc Hnew Hfaults. cbv zeta.
  assert (process_feed env topic f_conf w
          = {| result := Raise OperationalError;
               world := tick (posted (tick w));
               events := EvFetch u
                 :: dispatch_events env e name (fc_icon f_conf) topic
                      (default DEFAULT_PRIORITY (fc_priority f_conf))
                      (delay_for p 0) c (hd Delivered (net w)) |}) as ->.
  { rewrite process_feed_run. unfold feed_run. rewrite Hu, Hparse.
    cbn [entries_loop Nat.leb]. unfold bind.
    rewrite process_entry_run. unfold entry_run, fault_at.
    rewrite Hfaults. cbn [nth]. rewrite bool_decide_false by done.
    by rewrite Hp, Hname, Hc. }
  cbn [result world events].
  change (dispatches (EvFetch u :: ?evs)) with (dispatches evs).
  rewrite dispatches_dispatch_events.
  split; [done|]. split; [done|]. split; [done|].
  set (w1 := tick (posted (tick w))).
  assert (no_faults w1) as Hw1.
  { unfold no_faults, w1. cbn [db_faults tick posted]. rewrite Hfaults.
    constructor. }
  rewrite process_feed_run. unfold feed_run. rewrite Hu, Hparse.
  cbn [entries_loop Nat.leb]. unfold bind. rewrite process_entry_run.
  rewrite (entry_run_new env topic f_conf _ p name c 0 e w1) by done.
  cbn [result world events].
  change (dispatches (EvFetch u :: ?evs)) with (dispatches evs).
  rewrite dispatches_app, dispatches_dispatch_events.
  split; [done|].
  destruct (entries_loop_inv env topic f_conf
              (default DEFAULT_PRIORITY (fc_priority f_conf)) es (0 + 1)
              (recorded (entry_hash topic e) w1))
    as [_ _ _ (rows & -> & _)].
  apply elem_of_app. left.
  change (ledger (recorded (entry_hash topic e) w1))
    with (ledger w ++ [entry_hash topic e]).
  apply elem_of_app. right. by apply list_elem_of_singleton.
Qed.

Lemma failed_insert_sends_twice_witness :
  let w := {| ledger := []; db_faults := [false; true]; net := [] |} in
  let e := Scenario.entry_of_id "a1" in
  let r1 := process_feed Scenario.env0 "news" Scenario.feed_a w in
  let r2 := process_feed Scenario.env0 "news" Scenario.feed_a (world r1) in
  fc_url Scenario.feed_a = Some "https://a.example/rss"
  ∧ feedparser_parse Scenario.env0 "https://a.example/rss"
    = Ok (e :: (Scenario.entry_of_id <$> ["a2"; "a3"; "a4"; "a5"]))
  ∧ py_int (default DEFAULT_PRIORITY (fc_priority Scenario.feed_a)) = Ok 3%Z
  ∧ fc_name Scenario.feed_a = Some "A"
  ∧ clean_html_content Scenario.env0 (content_of e) e = Ok ("", None)
  ∧ (entry_hash "news" e ∉ ledger w)
  ∧ db_faults w = [false; true]
  ∧ dispatch_entry <$> dispatches (events r1) = [e]
  ∧ head (dispatch_entry <$> dispatches (events r2)) = Some e.
Proof.
  intros w e r1 r2.
  assert (H1 : fc_url Scenario.feed_a = Some "https://a.example/rss")
    by reflexivity.
  assert (H2 : feedparser_parse Scenario.env0 "https://a.example/rss"
               = Ok (e :: (Scenario.entry_of_id <$> ["a2"; "a3"; "a4"; "a5"])))
    by reflexivity.
  assert (H3 : py_int (default DEFAULT_PRIORITY
                         (fc_priority Scenario.feed_a)) = Ok 3%Z)
    by reflexivity.
  assert (H4 : fc_name Scenario.feed_a = Some "A") by reflexivity.
  assert (H5 : clean_html_content Scenario.env0 (content_of e) e
               = Ok ("", None)) by reflexivity.
  assert (H6 : entry_hash "news" e ∉ ledger w) by apply not_elem_of_nil.
  assert (H7 : db_faults w = [false; true]) by reflexivity.
  repeat (split; [assumption|]).
  pose proof (failed_insert_sends_twice Scenario.env0 "news" Scenario.feed_a
                w _ e _ 3%Z "A" _ H1 H2 H3 H4 H5 H6 H7)
    as (_ & Ha & _ & Hb & _).
  by split.
Defined.

(** ** Requests and rows when the storage works *)

Lemma exact_quiet {A} (w : World) (r : Run A) :
  dispatches (events r) = [] → ledger (world r) = ledger w →
  no_faults (world r) → exact w r.
Proof.
  intros Hd Hl Hw. split; unfold dispatched; rewrite ?Hd; cbn;
    [by rewrite app_nil_r | constructor | constructor | done].
Qed.

Lemma exact_seq {A B} (w : World) (r1 : Run A) (r2 : Run B) (r : Run B) :
  exact w r1 → exact (world r1) r2 →
  world r = world r2 → events r = events r1 ++ events r2 → exact w r.
Proof.
  intros [Hl1 Hn1 Hd1 _] [Hl2 Hn2 Hd2 Hw2] Hworld Hev.
  assert (dispatched r = dispatched r1 ++ dispatched r2) as Hds.
  { unfold dispatched. by rewrite Hev, dispatches_app, fmap_app. }
  split; rewrite ?Hds, ?Hworld; [| | |done].
  - by rewrite Hl2, Hl1, <- app_assoc.
  - apply Forall_app. split; [done|].
    eapply Forall_impl; [exact Hn2|]. cbn. intros h Hh Hin. apply Hh.
    rewrite Hl1. apply elem_of_app. by left.
  - apply NoDup_app. split; [done|]. split; [|done].
    intros h Hh1 Hh2. rewrite Forall_forall in Hn2. apply (Hn2 h Hh2).
    rewrite Hl1. apply elem_of_app. by right.
Qed.

Lemma exactly_once_ret {A} (a : A) : exactly_once (ret a).
Proof. intros w Hw. by apply exact_quiet. Qed.

Lemma exactly_once_log (l : LogRecord) : exactly_once (log l).
Proof. intros w Hw. by apply exact_quiet. Qed.

Lemma exactly_once_bind {A B} (m : M A) (k : A → M B) :
  exactly_once m → (∀ a, exactly_once (k a)) → exactly_once (bind m k).
Proof.
  intros Hm Hk w Hw. unfold bind. specialize (Hm w Hw).
  destruct (m w) as [[a|x] w1 ev1] eqn:E; cbn [result world events].
  - eapply exact_seq; [exact Hm | apply (Hk a), Hm | done | done].
  - by destruct Hm.
Qed.

Lemma exactly_once_try {A} (m : M A) (h : Exn → M A) :
  exactly_once m → (∀ x, exactly_once (h x)) → exactly_once (try_except m h).
Proof.
  intros Hm Hh w Hw. unfold try_except. specialize (Hm w Hw).
  destruct (m w) as [[a|x] w1 ev1] eqn:E; cbn [result world events].
  - by destruct Hm.
  - eapply exact_seq; [exact Hm | apply (Hh x), Hm | done | done].
Qed.

Lemma exactly_once_process_entry env topic f_conf prio k e :
  exactly_once (process_entry env topic f_conf prio k e).
Proof.
  intros w Hw. rewrite process_entry_run. unfold entry_run.
  rewrite !no_faults_at by done.
  assert (no_faults (tick w)) as Hw1 by by apply no_faults_tick.
  case_bool_decide as Hin; [by apply exact_quiet|].
  destruct (py_int prio) as [p|x]; [|by apply exact_quiet].
  destruct (fc_name f_conf) as [name|]; [|by apply exact_quiet].
  destruct (clean_html_content env (content_of e) e) as [c|x];
    [|by apply exact_quiet].
  split; unfold dispatched; cbn [result world events];
    rewrite ?dispatches_dispatch_events; cbn [fmap list_fmap].
  - reflexivity.
  - by repeat constructor.
  - apply NoDup_singleton.
  - by apply (no_faults_recorded (entry_hash topic e) w).
Qed.

Lemma exactly_once_entries_loop env topic f_conf prio es :
  ∀ k, exactly_once (entries_loop env topic f_conf prio es k).
Proof.
  induction es as [|e es IH]; intros k; cbn [entries_loop];
    [apply exactly_once_ret|].
  destruct (3 <=? k); [apply exactly_once_ret|].
  apply exactly_once_bind; [apply exactly_once_process_entry | apply IH].
Qed.

Lemma exactly_once_process_feed env topic f_conf :
  exactly_once (process_feed env topic f_conf).
Proof.
  unfold process_feed.
  apply exactly_once_bind.
  { destruct (fc_url f_conf); intros w Hw; by apply exact_quiet. }
  intros u. apply exactly_once_bind.
  { intros w Hw. by apply exact_quiet. }
  intros _. apply exactly_once_bind.
  { destruct (feedparser_parse env u); intros w Hw; by apply exact_quiet. }
  intros es. apply exactly_once_bind; [apply exactly_once_entries_loop|].
  intros _. apply exactly_once_ret.
Qed.

Lemma exactly_once_files_loop env filenames :
  exactly_once (files_loop env filenames).
Proof.
  induction filenames as [|f fs IH]; cbn [files_loop];
    [apply exactly_once_ret|].
  apply exactly_once_bind; [|intros _; apply IH].
  unfold process_config_file. apply exactly_once_bind.
  { intros w Hw. by apply exact_quiet. }
  intros _. destruct (load_config env _) as [feeds|];
    [|apply exactly_once_log].
  induction feeds as [|f_conf feeds IHf]; cbn [feeds_loop];
    [apply exactly_once_ret|].
  apply exactly_once_bind; [|intros _; apply IHf].
  apply exactly_once_try; [apply exactly_once_process_feed|].
  intros x. apply exactly_once_log.
Qed.

Lemma exactly_once_cycle env n : exactly_once (cycle env n).
Proof.
  assert (exactly_once init_db) as Hinit.
  { intros w Hw. destruct (init_db_run w) as [He Hok].
    destruct (Hok Hw) as [_ Hw']. apply exact_quiet; [by rewrite He | | done].
    unfold init_db, bind, storage_op. by repeat case_match. }
  unfold cycle. apply exactly_once_bind.
  - apply exactly_once_try; [|intros x; apply exactly_once_log].
    unfold main. destruct (config_dir env); [apply exactly_once_log | |];
      (apply exactly_once_bind; [exact Hinit | intros _]).
    + intros w Hw. by apply exact_quiet.
    + apply exactly_once_files_loop.
  - intros _ w Hw. by apply exact_quiet.
Qed.

(** X18. With a storage that works, over any number of cycles and whatever
    the feeds, the configuration and the endpoint do: the rows that the
    service adds to the ledger are exactly the fingerprints of the requests
    that it makes, in the order of the requests; no request is made for a
    fingerprint that the ledger had at the start; and no fingerprint is
    requested twice, also when several feeds of a file carry the same
    entry. *)
Theorem every_request_once_and_recorded (n : nat) (envs : list Env)
    (w : World) :
  no_faults w →
  let r := service n envs w in
  ledger (world r) = ledger w ++ dispatched r
  ∧ Forall (λ h, h ∉ ledger w) (dispatched r)
  ∧ NoDup (dispatched r).
Proof.
  intros Hw. cbv zeta.
  assert (exactly_once (service n envs)) as Hs.
  { unfold service. apply exactly_once_bind; [apply exactly_once_log|].
    intros _. induction envs as [|env envs IH]; cbn [cycles];
      [apply exactly_once_ret|].
    apply exactly_once_bind; [apply exactly_once_cycle | intros _; apply IH]. }
  by destruct (Hs w Hw).
Qed.

Lemma every_request_once_and_recorded_witness :
  let r := service 600 [Scenario.env0; Scenario.env0] Scenario.w_seen in
  no_faults Scenario.w_seen
  ∧ ledger (world r) = ledger Scenario.w_seen ++ dispatched r
  ∧ NoDup (dispatched r).
Proof.
  intros r.
  assert (Hw : no_faults Scenario.w_seen) by constructor.
  split; [exact Hw|].
  pose proof (every_request_once_and_recorded 600
                [Scenario.env0; Scenario.env0] Scenario.w_seen Hw)
    as (H1 & _ & H3).
  by split.
Defined.

Example same_entry_in_two_feeds :
  let twice := [Scenario.feed_b; Scenario.feed_b] in
  length (dispatches (events (feeds_loop Scenario.env0 "news" twice
                                Scenario.w0))) = 1
  ∧ length (dispatches
              (events (feeds_loop Scenario.env0 "news" twice
                         {| ledger := []; db_faults := [false; true];
                            net := [] |}))) = 2.
Proof. vm_compute. by split. Qed.
